(** * Room lifecycle, advisory locks and connection hub of game-services

  A shallow embedding of the Go packages [pkg/cache], [internal/model],
  [internal/repository/redis], [internal/repository/postgres],
  [internal/service/game] and [internal/websocket], with the properties
  of the room lifecycle stated and proved over it.

  Conventions.
  - Go packages become modules of the same name; functions and struct
    fields keep their Go names.
  - The Redis server and the SQL database are state that is threaded
    explicitly: every call takes the state and returns the new one.
  - Every call that can fail on the transport takes a flag [fail]; a
    failing call returns [Failed] and leaves the state as it was.
  - [time.Time] and [time.Duration] are integers counting milliseconds. *)

From Stdlib Require Import Ascii String.
From stdpp Require Import base gmap strings list pretty.

Local Open Scope Z_scope.

(** ** Results *)

(** A Go [(T, error)] whose error is an opaque transport or driver error. *)
Inductive io (A : Type) : Type :=
| Ret (a : A)
| Failed.
Arguments Ret {A} a.
Arguments Failed {A}.

(** ** package cache: the Redis client and the server state behind it *)
Module cache.

(** A hash field's value as the callers hand it to [HSet]: Go's
    [interface{}] restricted to the values that occur (text, integers and
    the opaque results table of a finished game). *)
Inductive Arg : Type :=
| AStr (s : string)
| AInt (z : Z)
| AMap (m : gmap N string).

(** What a key of the server holds. *)
Inductive Value : Type :=
| VStr (s : string)
| VHash (h : gmap string Arg)
| VSet (s : gset string).

(** A key's value and the instant at which it expires, if any. *)
Record Entry : Type := mkEntry { ent_val : Value; ent_exp : option Z }.

(** The state behind a [*cache.Client]: the keys of the Redis database. *)
Abbreviation Client := (gmap string Entry).

Definition live (now : Z) (e : Entry) : bool :=
  match ent_exp e with
  | None => true
  | Some t => now <? t
  end.

(** The entry a command issued at [now] sees under [key]. *)
Definition peek (now : Z) (c : Client) (key : string) : option Entry :=
  match c !! key with
  | Some e => if live now e then Some e else None
  | None => None
  end.

(** [expiration = 0] is go-redis's "no expiry". *)
Definition deadline (now expiration : Z) : option Z :=
  if expiration =? 0 then None else Some (now + expiration).

(** [SetNX]: SET key value PX expiration NX. *)
Definition SetNX (fail : bool) (now : Z) (c : Client)
    (key value : string) (expiration : Z) : io bool * Client :=
  if fail then (Failed, c)
  else if expiration <? 0 then (Failed, c)
  else match peek now c key with
       | Some _ => (Ret false, c)
       | None => (Ret true, <[key := mkEntry (VStr value) (deadline now expiration)]> c)
       end.

(** [Set]: SET key value PX expiration. *)
Definition Set_ (fail : bool) (now : Z) (c : Client)
    (key value : string) (expiration : Z) : io unit * Client :=
  if fail then (Failed, c)
  else if expiration <? 0 then (Failed, c)
  else (Ret tt, <[key := mkEntry (VStr value) (deadline now expiration)]> c).

(** [Del]: DEL key... *)
Definition Del (fail : bool) (c : Client) (keys : list string) : io unit * Client :=
  if fail then (Failed, c)
  else (Ret tt, foldr (λ k acc, delete k acc) c keys).

(** [Expire]: EXPIRE key expiration. *)
Definition Expire (fail : bool) (now : Z) (c : Client)
    (key : string) (expiration : Z) : io unit * Client :=
  if fail then (Failed, c)
  else match peek now c key with
       | Some e => (Ret tt, <[key := mkEntry (ent_val e) (Some (now + expiration))]> c)
       | None => (Ret tt, c)
       end.

(** [HSet]: HSET key field value ...; the fields given overwrite those
    present, the others stay, and so does the key's expiry. *)
Definition HSet (fail : bool) (now : Z) (c : Client)
    (key : string) (values : gmap string Arg) : io unit * Client :=
  if fail then (Failed, c)
  else match peek now c key with
       | None => (Ret tt, <[key := mkEntry (VHash values) None]> c)
       | Some (mkEntry (VHash h) exp) =>
           (Ret tt, <[key := mkEntry (VHash (values ∪ h)) exp]> c)
       | Some _ => (Failed, c)
       end.

(** [HGetAll]: HGETALL key. *)
Definition HGetAll (fail : bool) (now : Z) (c : Client)
    (key : string) : io (gmap string Arg) :=
  if fail then Failed
  else match peek now c key with
       | None => Ret ∅
       | Some (mkEntry (VHash h) _) => Ret h
       | Some _ => Failed
       end.

(** [SAdd]: SADD key member. *)
Definition SAdd (fail : bool) (now : Z) (c : Client)
    (key member : string) : io unit * Client :=
  if fail then (Failed, c)
  else match peek now c key with
       | None => (Ret tt, <[key := mkEntry (VSet {[member]}) None]> c)
       | Some (mkEntry (VSet s) exp) =>
           (Ret tt, <[key := mkEntry (VSet ({[member]} ∪ s)) exp]> c)
       | Some _ => (Failed, c)
       end.

(** [SRem]: SREM key member; a set left empty is removed. *)
Definition SRem (fail : bool) (now : Z) (c : Client)
    (key member : string) : io unit * Client :=
  if fail then (Failed, c)
  else match peek now c key with
       | None => (Ret tt, c)
       | Some (mkEntry (VSet s) exp) =>
           if decide (s ∖ {[member]} = ∅) then (Ret tt, delete key c)
           else (Ret tt, <[key := mkEntry (VSet (s ∖ {[member]})) exp]> c)
       | Some _ => (Failed, c)
       end.

(** [SIsMember]: SISMEMBER key member. *)
Definition SIsMember (fail : bool) (now : Z) (c : Client)
    (key member : string) : io bool :=
  if fail then Failed
  else match peek now c key with
       | None => Ret false
       | Some (mkEntry (VSet s) _) => Ret (bool_decide (member ∈ s))
       | Some _ => Failed
       end.

(** [Get]: GET key; go-redis reports a key that is not there as the
    error [redis.Nil]. *)
Definition Get (fail : bool) (now : Z) (c : Client) (key : string) : io string :=
  if fail then Failed
  else match peek now c key with
       | Some (mkEntry (VStr s) _) => Ret s
       | _ => Failed
       end.

(** [SMembers]: SMEMBERS key; the members come in no particular order. *)
Definition SMembers (fail : bool) (now : Z) (c : Client) (key : string)
    : io (gset string) :=
  if fail then Failed
  else match peek now c key with
       | None => Ret ∅
       | Some (mkEntry (VSet s) _) => Ret s
       | Some _ => Failed
       end.

End cache.

(** ** package redis: the repositories over the cache client *)
Module redis.

Definition Second : Z := 1000.

(** [fmt.Sprintf("room:%d", roomID)] *)
Definition roomKey (roomID : N) : string := "room:" +:+ pretty roomID.

(** [fmt.Sprintf("room:players:%d", roomID)] *)
Definition playersKey (roomID : N) : string := "room:players:" +:+ pretty roomID.

(** [fmt.Sprintf("lock:%s", resource)] *)
Definition lockKey (resource : string) : string := "lock:" +:+ resource.

(** [RoomRepository.SetRoomState]: the [expiration] argument is not used
    by the body. *)
Definition SetRoomState (fail : bool) (now : Z) (c : cache.Client)
    (roomID : N) (data : gmap string cache.Arg) (expiration : Z)
    : io unit * cache.Client :=
  cache.HSet fail now c (roomKey roomID) data.

Definition GetRoomState (fail : bool) (now : Z) (c : cache.Client)
    (roomID : N) : io (gmap string cache.Arg) :=
  cache.HGetAll fail now c (roomKey roomID).

Definition AddRoomPlayer (fail : bool) (now : Z) (c : cache.Client)
    (roomID userID : N) : io unit * cache.Client :=
  cache.SAdd fail now c (playersKey roomID) (pretty userID).

Definition RemoveRoomPlayer (fail : bool) (now : Z) (c : cache.Client)
    (roomID userID : N) : io unit * cache.Client :=
  cache.SRem fail now c (playersKey roomID) (pretty userID).

Definition IsRoomPlayer (fail : bool) (now : Z) (c : cache.Client)
    (roomID userID : N) : io bool :=
  cache.SIsMember fail now c (playersKey roomID) (pretty userID).

Definition DeleteRoom (fail : bool) (c : cache.Client) (roomID : N)
    : io unit * cache.Client :=
  cache.Del fail c [roomKey roomID; playersKey roomID].

(** [LockRepository.AcquireLock] *)
Definition AcquireLock (fail : bool) (now : Z) (c : cache.Client)
    (resource : string) (expiration : Z) : io bool * cache.Client :=
  cache.SetNX fail now c (lockKey resource) "1" expiration.

(** [LockRepository.ReleaseLock] *)
Definition ReleaseLock (fail : bool) (c : cache.Client) (resource : string)
    : io unit * cache.Client :=
  cache.Del fail c [lockKey resource].

(** Whether the lock on [resource] is held at [now]. *)
Definition held (now : Z) (c : cache.Client) (resource : string) : bool :=
  bool_decide (is_Some (cache.peek now c (lockKey resource))).

(** [RoomRepository.GetRoomPlayers] *)
Definition GetRoomPlayers (fail : bool) (now : Z) (c : cache.Client)
    (roomID : N) : io (gset string) :=
  cache.SMembers fail now c (playersKey roomID).

(** A value of a session map: Go's [interface{}] restricted to what a
    session holds, JSON numbers and JSON text. *)
Inductive Field : Type :=
| FNum (z : Z)
| FStr (s : string).

(** [fmt.Sprintf("session:%d", userID)] *)
Definition sessionKey (userID : N) : string := "session:" +:+ pretty userID.

(** The key of the set of online users. *)
Definition onlineKey : string := "user:online".

Section session.

(** [json.Marshal] and [json.Unmarshal] on session maps. *)
Variable Marshal : gmap string Field → io string.
Variable Unmarshal : string → io (gmap string Field).

(** [SessionRepository.SetSession] *)
Definition SetSession (fail : bool) (now : Z) (c : cache.Client)
    (userID : N) (data : gmap string Field) (expiration : Z)
    : io unit * cache.Client :=
  match Marshal data with
  | Failed => (Failed, c)
  | Ret jsonData => cache.Set_ fail now c (sessionKey userID) jsonData expiration
  end.

(** [SessionRepository.GetSession] *)
Definition GetSession (fail : bool) (now : Z) (c : cache.Client)
    (userID : N) : io (gmap string Field) :=
  match cache.Get fail now c (sessionKey userID) with
  | Failed => Failed
  | Ret data => Unmarshal data
  end.

End session.

(** [SessionRepository.DeleteSession] *)
Definition DeleteSession (fail : bool) (c : cache.Client) (userID : N)
    : io unit * cache.Client :=
  cache.Del fail c [sessionKey userID].

(** [OnlineUserRepository.AddOnlineUser] *)
Definition AddOnlineUser (fail : bool) (now : Z) (c : cache.Client)
    (userID : N) : io unit * cache.Client :=
  cache.SAdd fail now c onlineKey (pretty userID).

(** [OnlineUserRepository.RemoveOnlineUser] *)
Definition RemoveOnlineUser (fail : bool) (now : Z) (c : cache.Client)
    (userID : N) : io unit * cache.Client :=
  cache.SRem fail now c onlineKey (pretty userID).

(** [OnlineUserRepository.GetOnlineUsers] *)
Definition GetOnlineUsers (fail : bool) (now : Z) (c : cache.Client)
    : io (gset string) :=
  cache.SMembers fail now c onlineKey.

End redis.

(** ** package utils: the error codes of [AppError] *)
Module utils.

Inductive ErrCode : Type :=
| ErrCodeInternal
| ErrCodeInvalidInput
| ErrCodeNotFound
| ErrCodeUnauthorized
| ErrCodeForbidden
| ErrCodeConflict
| ErrCodeTooManyRequests.

End utils.

(** A Go [(T, error)] whose error is a [*utils.AppError]; the message text
    is left out, the code is kept. *)
Inductive result (A : Type) : Type :=
| Success (a : A)
| Error (code : utils.ErrCode).
Arguments Success {A} a.
Arguments Error {A} code.

(** ** package model *)
Module model.

Inductive RoomStatus : Type :=
| RoomStatusWaiting
| RoomStatusPlaying
| RoomStatusFinished
| RoomStatusCancelled.

#[global] Instance RoomStatus_eq_dec : EqDecision RoomStatus.
Proof. solve_decision. Defined.

(** The integer behind each constant. *)
Definition RoomStatus_int (s : RoomStatus) : Z :=
  match s with
  | RoomStatusWaiting => 1
  | RoomStatusPlaying => 2
  | RoomStatusFinished => 3
  | RoomStatusCancelled => 4
  end.

(** [Room]; [CreatedAt] and [UpdatedAt], which gorm maintains and no
    operation reads, are left out. The counters are Go [int]s; the guards
    before every increment and decrement keep them far from the ends of
    the range, so they are unbounded integers here. *)
Record Room : Type := mkRoom {
  ID : N;
  RoomCode : string;
  Name : string;
  OwnerID : N;
  Status : RoomStatus;
  MaxPlayers : Z;
  CurrentPlayers : Z;
  GameType : string;
  Settings : string;
  StartedAt : option Z;
  EndedAt : option Z;
  ExpiresAt : option Z;
  DeletedAt : option Z
}.

Definition withID (v : N) (r : Room) : Room :=
  mkRoom v (RoomCode r) (Name r) (OwnerID r) (Status r) (MaxPlayers r)
    (CurrentPlayers r) (GameType r) (Settings r) (StartedAt r) (EndedAt r)
    (ExpiresAt r) (DeletedAt r).

Definition withMaxPlayers (v : Z) (r : Room) : Room :=
  mkRoom (ID r) (RoomCode r) (Name r) (OwnerID r) (Status r) v
    (CurrentPlayers r) (GameType r) (Settings r) (StartedAt r) (EndedAt r)
    (ExpiresAt r) (DeletedAt r).

Definition withCurrentPlayers (v : Z) (r : Room) : Room :=
  mkRoom (ID r) (RoomCode r) (Name r) (OwnerID r) (Status r) (MaxPlayers r)
    v (GameType r) (Settings r) (StartedAt r) (EndedAt r)
    (ExpiresAt r) (DeletedAt r).

Definition withStatus (v : RoomStatus) (r : Room) : Room :=
  mkRoom (ID r) (RoomCode r) (Name r) (OwnerID r) v (MaxPlayers r)
    (CurrentPlayers r) (GameType r) (Settings r) (StartedAt r) (EndedAt r)
    (ExpiresAt r) (DeletedAt r).

Definition withStartedAt (v : option Z) (r : Room) : Room :=
  mkRoom (ID r) (RoomCode r) (Name r) (OwnerID r) (Status r) (MaxPlayers r)
    (CurrentPlayers r) (GameType r) (Settings r) v (EndedAt r)
    (ExpiresAt r) (DeletedAt r).

Definition withEndedAt (v : option Z) (r : Room) : Room :=
  mkRoom (ID r) (RoomCode r) (Name r) (OwnerID r) (Status r) (MaxPlayers r)
    (CurrentPlayers r) (GameType r) (Settings r) (StartedAt r) v
    (ExpiresAt r) (DeletedAt r).

Definition withDeletedAt (v : option Z) (r : Room) : Room :=
  mkRoom (ID r) (RoomCode r) (Name r) (OwnerID r) (Status r) (MaxPlayers r)
    (CurrentPlayers r) (GameType r) (Settings r) (StartedAt r) (EndedAt r)
    (ExpiresAt r) v.

(** [RoomPlayer]; its primary key [ID] is [RowID] here. *)
Record RoomPlayer : Type := mkRoomPlayer {
  RowID : N;
  RoomID : N;
  UserID : N;
  IsReady : bool;
  Position : Z;
  JoinedAt : Z;
  LeftAt : option Z
}.

Definition withRowID (v : N) (p : RoomPlayer) : RoomPlayer :=
  mkRoomPlayer v (RoomID p) (UserID p) (IsReady p) (Position p) (JoinedAt p) (LeftAt p).

Definition withLeftAt (v : option Z) (p : RoomPlayer) : RoomPlayer :=
  mkRoomPlayer (RowID p) (RoomID p) (UserID p) (IsReady p) (Position p) (JoinedAt p) v.

End model.

(** ** package postgres: the authoritative store *)
Module postgres.
Import model.

(** The two tables, rows in insertion order, and their id sequences (the
    last id handed out). *)
Record DB : Type := mkDB {
  rooms : list Room;
  room_players : list RoomPlayer;
  rooms_seq : N;
  room_players_seq : N
}.

(** gorm scopes every query on [rooms] to rows that are not soft-deleted. *)
Definition visible (r : Room) : bool := bool_decide (DeletedAt r = None).

(** [left_at IS NULL] *)
Definition active (p : RoomPlayer) : bool := bool_decide (LeftAt p = None).

(** [room_id = ? AND left_at IS NULL] *)
Definition active_in (roomID : N) (p : RoomPlayer) : Prop :=
  RoomID p = roomID ∧ LeftAt p = None.

#[global] Instance active_in_dec roomID p : Decision (active_in roomID p).
Proof. unfold active_in. apply _. Defined.

(** [id = ?] on [rooms] *)
Definition by_id (id : N) (r : Room) : bool :=
  bool_decide (ID r = id) && visible r.

(** [room_code = ?] on [rooms] *)
Definition by_code (roomCode : string) (r : Room) : bool :=
  bool_decide (RoomCode r = roomCode) && visible r.

(** [room_id = ? AND user_id = ?] *)
Definition of_room_user (roomID userID : N) (p : RoomPlayer) : bool :=
  bool_decide (RoomID p = roomID) && bool_decide (UserID p = userID).

(** [RoomRepository.Create]: the row gets the next id; the unique index
    on [room_code] rejects a code that any row carries; a zero
    [MaxPlayers] takes the column default 10. The struct comes back with
    the id and the defaults filled in. *)
Definition Create (fail : bool) (db : DB) (room : Room) : io Room * DB :=
  if fail then (Failed, db)
  else if existsb (λ r, bool_decide (RoomCode r = RoomCode room)) (rooms db)
  then (Failed, db)
  else
    let id := (rooms_seq db + 1)%N in
    let row := withID id
      (if MaxPlayers room =? 0 then withMaxPlayers 10 room else room) in
    (Ret row, mkDB (rooms db ++ [row]) (room_players db) id (room_players_seq db)).

(** [RoomRepository.GetByID]: [Ret None] is Go's [(nil, nil)]. *)
Definition GetByID (fail : bool) (db : DB) (id : N) : io (option Room) :=
  if fail then Failed
  else Ret (find (by_id id) (rooms db)).

(** [RoomRepository.GetByRoomCode] *)
Definition GetByRoomCode (fail : bool) (db : DB) (roomCode : string)
    : io (option Room) :=
  if fail then Failed
  else Ret (find (by_code roomCode) (rooms db)).

(** gorm's [Save]: every column of the row with the struct's primary key
    is written; when no row is updated the struct is inserted. *)
Fixpoint save (room : Room) (rows : list Room) : list Room :=
  match rows with
  | [] => [room]
  | r :: rs => if bool_decide (ID r = ID room) then room :: rs else r :: save room rs
  end.

(** [RoomRepository.Update] *)
Definition Update (fail : bool) (db : DB) (room : Room) : io unit * DB :=
  if fail then (Failed, db)
  else (Ret tt, mkDB (save room (rooms db)) (room_players db)
                  (rooms_seq db) (room_players_seq db)).

(** [RoomRepository.Delete]: a soft delete, the row stays and its
    [deleted_at] is set. *)
Definition Delete (fail : bool) (now : Z) (db : DB) (id : N) : io unit * DB :=
  if fail then (Failed, db)
  else (Ret tt, mkDB
          (map (λ r, if by_id id r then withDeletedAt (Some now) r else r)
             (rooms db))
          (room_players db) (rooms_seq db) (room_players_seq db)).

(** [RoomPlayerRepository.Create] *)
Definition CreatePlayer (fail : bool) (db : DB) (roomPlayer : RoomPlayer)
    : io RoomPlayer * DB :=
  if fail then (Failed, db)
  else
    let id := (room_players_seq db + 1)%N in
    let row := withRowID id roomPlayer in
    (Ret row, mkDB (rooms db) (room_players db ++ [row]) (rooms_seq db) id).

(** [RoomPlayerRepository.GetByRoomID] *)
Definition GetByRoomID (fail : bool) (db : DB) (roomID : N) : io (list RoomPlayer) :=
  if fail then Failed
  else Ret (filter (active_in roomID) (room_players db)).

(** [RoomPlayerRepository.GetByRoomIDAndUserID] *)
Definition GetByRoomIDAndUserID (fail : bool) (db : DB) (roomID userID : N)
    : io (option RoomPlayer) :=
  if fail then Failed
  else Ret (find (λ p, of_room_user roomID userID p && active p) (room_players db)).

(** [UPDATE ... SET left_at = NOW() WHERE room_id = ? AND user_id = ?] on
    one row. *)
Definition stamp (now : Z) (roomID userID : N) (p : RoomPlayer) : RoomPlayer :=
  if of_room_user roomID userID p then withLeftAt (Some now) p else p.

(** [RoomPlayerRepository.LeaveRoom]: the WHERE clause has no
    [left_at IS NULL]; every row of the pair is stamped. *)
Definition LeaveRoom (fail : bool) (now : Z) (db : DB) (roomID userID : N)
    : io unit * DB :=
  if fail then (Failed, db)
  else (Ret tt, mkDB (rooms db) (map (stamp now roomID userID) (room_players db))
          (rooms_seq db) (room_players_seq db)).

End postgres.

(** ** package game: the room service and the game process service *)
Module game.
Import utils model.

(** The calls an operation makes to its collaborators; a fault plan says
    which of them fail. *)
Inductive Site : Type :=
| RandRead
| RoomCreate
| RoomGetByID
| RoomGetByRoomCode
| RoomUpdate
| RoomDelete
| PlayerCreate
| PlayerGetByRoomID
| PlayerGetByRoomIDAndUserID
| PlayerLeaveRoom
| CacheSetRoomState
| CacheAddRoomPlayer
| CacheRemoveRoomPlayer
| CacheDeleteRoom
| LockAcquire
| LockRelease
| EventPublish.

#[global] Instance Site_eq_dec : EqDecision Site.
Proof. solve_decision. Defined.

Definition no_faults : Site → bool := λ _, false.

(** Exactly the call [site] fails. *)
Definition only (site : Site) : Site → bool := λ s, bool_decide (s = site).

(** [GameState] constants *)
Definition GameStateWaiting : Z := 1.
Definition GameStateStarting : Z := 2.
Definition GameStatePlaying : Z := 3.
Definition GameStatePaused : Z := 4.
Definition GameStateFinished : Z := 5.

(** [GameEvent]; [Data] holds the room snapshot under "room" and, for
    [game_end], the results under "results". *)
Record GameEvent : Type := mkGameEvent {
  ev_Type : string;
  ev_RoomID : N;
  ev_UserID : N;
  ev_room : Room;
  ev_results : option (gmap N string);
  ev_Timestamp : Z
}.

(** Everything the services act on: the store, the Redis server and the
    events published on the event channel, oldest first. *)
Record World : Type := mkWorld {
  store : postgres.DB;
  rds : cache.Client;
  bus : list GameEvent
}.

(** The configuration fields of [RoomService]. *)
Record RoomService : Type := mkRoomService {
  maxPlayers : Z;
  defaultTimeout : Z
}.

Record CreateRoomRequest : Type := mkCreateRoomRequest {
  req_Name : string;
  req_GameType : string;
  req_Settings : string
}.

(** *** Go conversions used for keys and codes *)

Definition hexdigit (n : N) : ascii :=
  default "0"%char (String.get (N.to_nat n) "0123456789abcdef").

(** [hex.EncodeToString] *)
Fixpoint EncodeToString (bytes : list N) : string :=
  match bytes with
  | [] => ""
  | b :: bs => String (hexdigit (b / 16)) (String (hexdigit (b mod 16)) (EncodeToString bs))
  end.

(** [generateRoomCode]: [rnd] is what [rand.Read] puts into the four
    bytes. *)
Definition generateRoomCode (fail : bool) (rnd : N * N * N * N) : io string :=
  if fail then Failed
  else let '(b0, b1, b2, b3) := rnd in
       Ret (EncodeToString [b0 mod 256; b1 mod 256; b2 mod 256; b3 mod 256]%N).

(** [rune(n)] for [n : uint]: the low 32 bits, read as a signed number. *)
Definition rune (n : N) : Z :=
  let m := Z.of_N n mod 2 ^ 32 in
  if m <? 2 ^ 31 then m else m - 2 ^ 32.

Definition byte_string (bs : list Z) : string :=
  foldr (λ b acc, String (ascii_of_N (Z.to_N b)) acc) "" bs.

(** [string(r)] for [r : rune]: the UTF-8 encoding of the code point, and
    that of U+FFFD for what is not a code point. *)
Definition runeString (r : Z) : string :=
  if (r <? 0) || (1114111 <? r) || ((55296 <=? r) && (r <=? 57343))
  then byte_string [239; 191; 189]
  else if r <? 128 then byte_string [r]
  else if r <? 2048 then
    byte_string [Z.lor 192 (Z.shiftr r 6); Z.lor 128 (Z.land r 63)]
  else if r <? 65536 then
    byte_string [Z.lor 224 (Z.shiftr r 12);
                 Z.lor 128 (Z.land (Z.shiftr r 6) 63);
                 Z.lor 128 (Z.land r 63)]
  else
    byte_string [Z.lor 240 (Z.shiftr r 18);
                 Z.lor 128 (Z.land (Z.shiftr r 12) 63);
                 Z.lor 128 (Z.land (Z.shiftr r 6) 63);
                 Z.lor 128 (Z.land r 63)].

(** *** The lock keys *)

(** [JoinRoom]: ["room:lock:" + req.RoomCode] *)
Definition joinLock (roomCode : string) : string := "room:lock:" +:+ roomCode.

(** [LeaveRoom]: ["room:lock:" + string(rune(roomID))] *)
Definition leaveLock (roomID : N) : string := "room:lock:" +:+ runeString (rune roomID).

(** [StartGame] and [EndGame]: ["game:lock:" + string(rune(roomID))] *)
Definition gameLock (roomID : N) : string := "game:lock:" +:+ runeString (rune roomID).

(** The prelude the four locking operations share:
    [[
      acquired, err := s.lockRepo.AcquireLock(ctx, lockKey, ttl)
      if err != nil { return Internal }
      if !acquired { return Conflict }
      defer s.lockRepo.ReleaseLock(ctx, lockKey)
    ]]
    followed by the body; the deferred release runs when the body returns,
    whatever it returns, and its own error is dropped. *)
Definition locked {A : Type} (flt : Site → bool) (now : Z) (lockKey : string)
    (ttl : Z) (body : World → result A * World) (w : World) : result A * World :=
  match redis.AcquireLock (flt LockAcquire) now (rds w) lockKey ttl with
  | (Failed, _) => (Error ErrCodeInternal, w)
  | (Ret false, _) => (Error ErrCodeConflict, w)
  | (Ret true, c1) =>
      let '(r, w1) := body (mkWorld (store w) c1 (bus w)) in
      let '(_, c2) := redis.ReleaseLock (flt LockRelease) (rds w1) lockKey in
      (r, mkWorld (store w1) c2 (bus w1))
  end.

(** *** RoomService *)

(** The map [roomData] that [syncRoomToRedis] builds; [expires_at] is in
    seconds. *)
Definition roomData (room : Room) : gmap string cache.Arg :=
  let base : gmap string cache.Arg :=
    <["id" := cache.AInt (Z.of_N (ID room))]>
    (<["room_code" := cache.AStr (RoomCode room)]>
    (<["name" := cache.AStr (Name room)]>
    (<["owner_id" := cache.AInt (Z.of_N (OwnerID room))]>
    (<["status" := cache.AInt (RoomStatus_int (Status room))]>
    (<["max_players" := cache.AInt (MaxPlayers room)]>
    (<["current_players" := cache.AInt (CurrentPlayers room)]>
    (<["game_type" := cache.AStr (GameType room)]>
    (<["settings" := cache.AStr (Settings room)]> ∅)))))))) in
  match ExpiresAt room with
  | Some t => <["expires_at" := cache.AInt (t / 1000)]> base
  | None => base
  end.

(** [syncRoomToRedis]: the result of [SetRoomState] is dropped. *)
Definition syncRoomToRedis (s : RoomService) (flt : Site → bool) (now : Z)
    (c : cache.Client) (room : Room) : cache.Client :=
  (redis.SetRoomState (flt CacheSetRoomState) now c (ID room) (roomData room)
     (defaultTimeout s)).2.

(** [RoomService.CreateRoom] *)
Definition CreateRoom (s : RoomService) (flt : Site → bool) (now : Z)
    (rnd : N * N * N * N) (ownerID : N) (req : CreateRoomRequest) (w : World)
    : result Room * World :=
  match generateRoomCode (flt RandRead) rnd with
  | Failed => (Error ErrCodeInternal, w)
  | Ret roomCode =>
    let expiresAt := now + defaultTimeout s in
    let room := mkRoom 0 roomCode (req_Name req) ownerID RoomStatusWaiting
                  (maxPlayers s) 0 (req_GameType req) (req_Settings req)
                  None None (Some expiresAt) None in
    match postgres.Create (flt RoomCreate) (store w) room with
    | (Failed, _) => (Error ErrCodeInternal, w)
    | (Ret room, db1) =>
      let roomPlayer := mkRoomPlayer 0 (ID room) ownerID false 0 now None in
      match postgres.CreatePlayer (flt PlayerCreate) db1 roomPlayer with
      | (Failed, _) =>
          let db2 := (postgres.Delete (flt RoomDelete) now db1 (ID room)).2 in
          (Error ErrCodeInternal, mkWorld db2 (rds w) (bus w))
      | (Ret _, db2) =>
          let room := withCurrentPlayers 1 room in
          let db3 := (postgres.Update (flt RoomUpdate) db2 room).2 in
          let c1 := syncRoomToRedis s flt now (rds w) room in
          (Success room, mkWorld db3 c1 (bus w))
      end
    end
  end.

(** [RoomService.JoinRoom], from the read of the room on: what runs
    between the acquisition of the lock and the deferred release. *)
Definition JoinRoom_locked (s : RoomService) (flt : Site → bool) (now : Z)
    (userID : N) (roomCode : string) (w : World) : result Room * World :=
  match postgres.GetByRoomCode (flt RoomGetByRoomCode) (store w) roomCode with
  | Failed => (Error ErrCodeInternal, w)
  | Ret None => (Error ErrCodeNotFound, w)
  | Ret (Some room) =>
    if bool_decide (Status room ≠ RoomStatusWaiting)
    then (Error ErrCodeConflict, w)
    else if MaxPlayers room <=? CurrentPlayers room
    then (Error ErrCodeConflict, w)
    else
      match postgres.GetByRoomIDAndUserID (flt PlayerGetByRoomIDAndUserID)
              (store w) (ID room) userID with
      | Failed => (Error ErrCodeInternal, w)
      | Ret (Some _) => (Error ErrCodeConflict, w)
      | Ret None =>
        match postgres.GetByRoomID (flt PlayerGetByRoomID) (store w) (ID room) with
        | Failed => (Error ErrCodeInternal, w)
        | Ret players =>
          let roomPlayer :=
            mkRoomPlayer 0 (ID room) userID false (Z.of_nat (length players)) now None in
          match postgres.CreatePlayer (flt PlayerCreate) (store w) roomPlayer with
          | (Failed, _) => (Error ErrCodeInternal, w)
          | (Ret _, db1) =>
            let room := withCurrentPlayers (CurrentPlayers room + 1) room in
            let db2 := (postgres.Update (flt RoomUpdate) db1 room).2 in
            let c1 := syncRoomToRedis s flt now (rds w) room in
            let c2 := (redis.AddRoomPlayer (flt CacheAddRoomPlayer) now c1
                         (ID room) userID).2 in
            (Success room, mkWorld db2 c2 (bus w))
          end
        end
      end
  end.

(** [RoomService.JoinRoom] *)
Definition JoinRoom (s : RoomService) (flt : Site → bool) (now : Z)
    (userID : N) (roomCode : string) (w : World) : result Room * World :=
  locked flt now (joinLock roomCode) (5 * redis.Second)
    (JoinRoom_locked s flt now userID roomCode) w.

(** [RoomService.LeaveRoom], from the read of the room on. *)
Definition LeaveRoom_locked (s : RoomService) (flt : Site → bool) (now : Z)
    (userID roomID : N) (w : World) : result unit * World :=
  match postgres.GetByID (flt RoomGetByID) (store w) roomID with
  | Failed => (Error ErrCodeInternal, w)
  | Ret None => (Error ErrCodeNotFound, w)
  | Ret (Some room) =>
    match postgres.LeaveRoom (flt PlayerLeaveRoom) now (store w) roomID userID with
    | (Failed, _) => (Error ErrCodeInternal, w)
    | (Ret _, db1) =>
      let '(room, db2) :=
        if 0 <? CurrentPlayers room
        then let room := withCurrentPlayers (CurrentPlayers room - 1) room in
             (room, (postgres.Update (flt RoomUpdate) db1 room).2)
        else (room, db1) in
      if CurrentPlayers room =? 0
      then
        let db3 := (postgres.Delete (flt RoomDelete) now db2 roomID).2 in
        let c1 := (redis.DeleteRoom (flt CacheDeleteRoom) (rds w) roomID).2 in
        (Success tt, mkWorld db3 c1 (bus w))
      else
        let c1 := syncRoomToRedis s flt now (rds w) room in
        let c2 := (redis.RemoveRoomPlayer (flt CacheRemoveRoomPlayer) now c1
                     roomID userID).2 in
        (Success tt, mkWorld db2 c2 (bus w))
    end
  end.

(** [RoomService.LeaveRoom] *)
Definition LeaveRoom (s : RoomService) (flt : Site → bool) (now : Z)
    (userID roomID : N) (w : World) : result unit * World :=
  locked flt now (leaveLock roomID) (5 * redis.Second)
    (LeaveRoom_locked s flt now userID roomID) w.

(** [RoomService.GetRoom] *)
Definition GetRoom (flt : Site → bool) (roomID : N) (w : World) : result Room :=
  match postgres.GetByID (flt RoomGetByID) (store w) roomID with
  | Failed => Error ErrCodeInternal
  | Ret None => Error ErrCodeNotFound
  | Ret (Some room) => Success room
  end.

(** *** ProcessService *)

(** [ProcessService.PublishEvent] *)
Definition PublishEvent (fail : bool) (events : list GameEvent) (event : GameEvent)
    : io unit * list GameEvent :=
  if fail then (Failed, events) else (Ret tt, events ++ [event]).

(** [ProcessService.StartGame], from the read of the room on. *)
Definition StartGame_locked (flt : Site → bool) (now : Z) (roomID : N) (w : World)
    : result unit * World :=
  match postgres.GetByID (flt RoomGetByID) (store w) roomID with
  | Failed => (Error ErrCodeInternal, w)
  | Ret None => (Error ErrCodeNotFound, w)
  | Ret (Some room) =>
    if bool_decide (Status room ≠ RoomStatusWaiting)
    then (Error ErrCodeConflict, w)
    else
      let room := withStartedAt (Some now) (withStatus RoomStatusPlaying room) in
      match postgres.Update (flt RoomUpdate) (store w) room with
      | (Failed, _) => (Error ErrCodeInternal, w)
      | (Ret _, db1) =>
        let data : gmap string cache.Arg :=
          <["status" := cache.AInt (RoomStatus_int (Status room))]>
          (<["started_at" := cache.AInt (now / 1000)]>
          (<["game_state" := cache.AInt GameStateStarting]> ∅)) in
        let c1 := (redis.SetRoomState (flt CacheSetRoomState) now (rds w)
                     roomID data 0).2 in
        let event := mkGameEvent "game_start" roomID 0 room None (now / 1000) in
        let b1 := (PublishEvent (flt EventPublish) (bus w) event).2 in
        (Success tt, mkWorld db1 c1 b1)
      end
  end.

(** [ProcessService.StartGame] *)
Definition StartGame (flt : Site → bool) (now : Z) (roomID : N) (w : World)
    : result unit * World :=
  locked flt now (gameLock roomID) (10 * redis.Second)
    (StartGame_locked flt now roomID) w.

(** [ProcessService.EndGame], from the read of the room on. *)
Definition EndGame_locked (flt : Site → bool) (now : Z) (roomID : N)
    (results : gmap N string) (w : World) : result unit * World :=
  match postgres.GetByID (flt RoomGetByID) (store w) roomID with
  | Failed => (Error ErrCodeInternal, w)
  | Ret None => (Error ErrCodeNotFound, w)
  | Ret (Some room) =>
    let room := withEndedAt (Some now) (withStatus RoomStatusFinished room) in
    match postgres.Update (flt RoomUpdate) (store w) room with
    | (Failed, _) => (Error ErrCodeInternal, w)
    | (Ret _, db1) =>
      let data : gmap string cache.Arg :=
        <["status" := cache.AInt (RoomStatus_int (Status room))]>
        (<["ended_at" := cache.AInt (now / 1000)]>
        (<["game_state" := cache.AInt GameStateFinished]>
        (<["results" := cache.AMap results]> ∅))) in
      let c1 := (redis.SetRoomState (flt CacheSetRoomState) now (rds w)
                   roomID data 0).2 in
      let event := mkGameEvent "game_end" roomID 0 room (Some results) (now / 1000) in
      let b1 := (PublishEvent (flt EventPublish) (bus w) event).2 in
      (Success tt, mkWorld db1 c1 b1)
    end
  end.

(** [ProcessService.EndGame] *)
Definition EndGame (flt : Site → bool) (now : Z) (roomID : N)
    (results : gmap N string) (w : World) : result unit * World :=
  locked flt now (gameLock roomID) (10 * redis.Second)
    (EndGame_locked flt now roomID results) w.

(** [ProcessService.UpdateGameState]: the entries of [data] are written
    over the ["game_state"] entry. *)
Definition UpdateGameState (fail : bool) (now : Z) (roomID : N) (state : Z)
    (data : gmap string cache.Arg) (w : World) : io unit * World :=
  let roomData : gmap string cache.Arg :=
    data ∪ {["game_state" := cache.AInt state]} in
  let '(r, c1) := redis.SetRoomState fail now (rds w) roomID roomData 0 in
  (r, mkWorld (store w) c1 (bus w)).

(** [ProcessService.GetGameState] *)
Definition GetGameState (fail : bool) (now : Z) (roomID : N) (w : World)
    : io (gmap string cache.Arg) :=
  redis.GetRoomState fail now (rds w) roomID.

(** *** SessionService *)

(** The configuration fields of [SessionService]. *)
Record SessionService : Type := mkSessionService {
  heartbeatInterval : Z;
  timeout : Z
}.

(** The calls the session operations make to the two repositories. *)
Inductive SessionSite : Type :=
| SessionSet
| SessionGet
| SessionDelete
| OnlineAdd
| OnlineRemove.

(** The map [sessionData] that [CreateSession] builds; [last_activity]
    is in seconds. *)
Definition sessionData (now : Z) (userID : N) (ipAddress userAgent : string)
    : gmap string redis.Field :=
  <["user_id" := redis.FNum (Z.of_N userID)]>
  (<["ip_address" := redis.FStr ipAddress]>
  (<["user_agent" := redis.FStr userAgent]>
  (<["last_activity" := redis.FNum (now / 1000)]>
  (<["status" := redis.FNum 1]> ∅)))).

Section session.

Variable Marshal : gmap string redis.Field → io string.
Variable Unmarshal : string → io (gmap string redis.Field).

(** [SessionService.CreateSession]: a failure to add the user to the
    online set is logged and dropped. *)
Definition CreateSession (s : SessionService) (flt : SessionSite → bool)
    (now : Z) (userID : N) (ipAddress userAgent : string) (c : cache.Client)
    : result unit * cache.Client :=
  match redis.SetSession Marshal (flt SessionSet) now c userID
          (sessionData now userID ipAddress userAgent) (timeout s) with
  | (Failed, _) => (Error ErrCodeInternal, c)
  | (Ret _, c1) =>
      (Success tt, (redis.AddOnlineUser (flt OnlineAdd) now c1 userID).2)
  end.

(** [SessionService.UpdateSessionActivity]: whatever makes the read of
    the session fail is taken for a session that is not there. *)
Definition UpdateSessionActivity (s : SessionService) (flt : SessionSite → bool)
    (now : Z) (userID : N) (c : cache.Client) : result unit * cache.Client :=
  match redis.GetSession Unmarshal (flt SessionGet) now c userID with
  | Failed => CreateSession s flt now userID "" "" c
  | Ret sessionData =>
      match redis.SetSession Marshal (flt SessionSet) now c userID
              (<["last_activity" := redis.FNum (now / 1000)]> sessionData)
              (timeout s) with
      | (Failed, _) => (Error ErrCodeInternal, c)
      | (Ret _, c1) => (Success tt, c1)
      end
  end.

(** [SessionService.GetSession] *)
Definition GetSession (flt : SessionSite → bool) (now : Z) (userID : N)
    (c : cache.Client) : io (gmap string redis.Field) :=
  redis.GetSession Unmarshal (flt SessionGet) now c userID.

(** [SessionService.CheckSessionTimeout]; the error it returns is always
    nil. *)
Definition CheckSessionTimeout (s : SessionService) (flt : SessionSite → bool)
    (now : Z) (userID : N) (c : cache.Client) : bool :=
  match redis.GetSession Unmarshal (flt SessionGet) now c userID with
  | Failed => true
  | Ret sessionData =>
      match sessionData !! "last_activity" with
      | Some (redis.FNum lastActivity) => lastActivity * 1000 + timeout s <? now
      | _ => true
      end
  end.

End session.

(** [SessionService.DeleteSession]: both errors are logged and dropped,
    the result is always nil. *)
Definition DeleteSession (flt : SessionSite → bool) (now : Z) (userID : N)
    (c : cache.Client) : result unit * cache.Client :=
  let c1 := (redis.DeleteSession (flt SessionDelete) c userID).2 in
  let c2 := (redis.RemoveOnlineUser (flt OnlineRemove) now c1 userID).2 in
  (Success tt, c2).

(** [SessionService.GetOnlineUsers] *)
Definition GetOnlineUsers (fail : bool) (now : Z) (c : cache.Client)
    : io (gset string) :=
  redis.GetOnlineUsers fail now c.

End game.

(** ** package websocket: the connection hub *)
Module websocket.

(** The capacity of [make(chan []byte, 256)]. *)
Definition capacity : nat := 256.

(** A buffered Go channel: what is queued, oldest first, and whether it
    has been closed. *)
Record Chan : Type := mkChan { buf : list string; closed : bool }.

(** [Client]; [Send] is the address of the client's channel in [chans]. *)
Record Client : Type := mkClient { UserID : N; Username : string; Send : N }.

(** [Hub]: the registry [clients], and the channels of the clients that
    were ever created. *)
Record Hub : Type := mkHub {
  clients : gmap N Client;
  chans : gmap N Chan
}.

Inductive outcome : Type :=
| Ok (h : Hub)
| Panic.

(** [select { case ch <- msg: default: }] on the channel at an address;
    an address that holds nothing is a nil channel, never ready. *)
Inductive sent : Type :=
| Sent (ch : Chan)
| Default
| SendPanic.

Definition try_send (ch : option Chan) (msg : string) : sent :=
  match ch with
  | None => Default
  | Some ch =>
      if closed ch then SendPanic
      else if (length (buf ch) <? capacity)%nat
      then Sent (mkChan (buf ch ++ [msg]) false)
      else Default
  end.

(** [close(ch)]: [None] is the panic on a closed or nil channel. *)
Definition close (ch : option Chan) : option Chan :=
  match ch with
  | Some ch => if closed ch then None else Some (mkChan (buf ch) true)
  | None => None
  end.

(** [NewHub] *)
Definition NewHub : Hub := mkHub ∅ ∅.

(** [Run], case [client := <-h.register] *)
Definition register (client : Client) (h : Hub) : outcome :=
  Ok (mkHub (<[UserID client := client]> (clients h)) (chans h)).

(** [Run], case [client := <-h.unregister] *)
Definition unregister (client : Client) (h : Hub) : outcome :=
  match clients h !! UserID client with
  | Some _ =>
      match close (chans h !! Send client) with
      | Some ch => Ok (mkHub (delete (UserID client) (clients h))
                         (<[Send client := ch]> (chans h)))
      | None => Panic
      end
  | None => Ok h
  end.

(** One turn of the loop over [h.clients] in the broadcast case. *)
Definition deliver (message : string) (client : Client) (h : Hub) : outcome :=
  match try_send (chans h !! Send client) message with
  | Sent ch => Ok (mkHub (clients h) (<[Send client := ch]> (chans h)))
  | Default =>
      match close (chans h !! Send client) with
      | Some ch => Ok (mkHub (delete (UserID client) (clients h))
                         (<[Send client := ch]> (chans h)))
      | None => Panic
      end
  | SendPanic => Panic
  end.

(** [Run], case [message := <-h.broadcast] *)
Definition broadcast (message : string) (h : Hub) : outcome :=
  map_fold (λ _ client acc,
              match acc with
              | Ok h' => deliver message client h'
              | Panic => Panic
              end) (Ok h) (clients h).

(** What arrives on the hub's three channels. *)
Inductive Command : Type :=
| Register (client : Client)
| Unregister (client : Client)
| Broadcast (message : string).

(** One iteration of [Hub.Run]. *)
Definition Run_step (cmd : Command) (h : Hub) : outcome :=
  match cmd with
  | Register client => register client h
  | Unregister client => unregister client h
  | Broadcast message => broadcast message h
  end.

(** [Hub.Run] over the commands received, in order. *)
Fixpoint Run (cmds : list Command) (h : Hub) : outcome :=
  match cmds with
  | [] => Ok h
  | cmd :: rest =>
      match Run_step cmd h with
      | Ok h' => Run rest h'
      | Panic => Panic
      end
  end.

(** [Hub.SendToUser]; [data] is the result of [json.Marshal(message)]. *)
Definition SendToUser (userID : N) (data : io string) (h : Hub) : outcome :=
  match clients h !! userID with
  | None => Ok h
  | Some client =>
      match data with
      | Failed => Ok h
      | Ret data =>
          match try_send (chans h !! Send client) data with
          | Sent ch => Ok (mkHub (clients h) (<[Send client := ch]> (chans h)))
          | Default =>
              match close (chans h !! Send client) with
              | Some ch => Ok (mkHub (delete userID (clients h))
                                 (<[Send client := ch]> (chans h)))
              | None => Panic
              end
          | SendPanic => Panic
          end
      end
  end.

(** [HandleWebSocket] once the token is validated and the connection
    upgraded: a client with a channel of its own is built and handed to
    the hub's register case. *)
Definition HandleWebSocket (userID : N) (username : string) (h : Hub)
    : Client * outcome :=
  let a := fresh (dom (chans h)) in
  let client := mkClient userID username a in
  (client, register client (mkHub (clients h) (<[a := mkChan [] false]> (chans h)))).

(** What [WritePump] writes to the connection. *)
Inductive Frame : Type :=
| TextMessage (message : string)
| CloseMessage.

(** How a run of [WritePump] ends: blocked on its channel, open and
    empty, or returned, the connection closed. *)
Inductive pumped : Type :=
| Blocked
| Returned.

(** The loop of [WritePump] over the messages queued: each is received
    and written; [failing] is the number of writes that go through before
    one fails, if one does. The frames written come back with the
    messages left in the channel and whether a write failed. *)
Fixpoint drain (failing : option nat) (queue : list string)
    : list Frame * list string * bool :=
  match queue with
  | [] => ([], [], false)
  | message :: rest =>
      match failing with
      | Some O => ([], rest, true)
      | _ =>
          let '(frames, queued, failed) := drain (pred <$> failing) rest in
          (TextMessage message :: frames, queued, failed)
      end
  end.

(** [Client.WritePump] on a channel to which nothing is sent meanwhile;
    the result of writing the close frame is dropped. *)
Definition WritePump (failing : option nat) (ch : Chan)
    : list Frame * Chan * pumped :=
  let '(frames, queued, failed) := drain failing (buf ch) in
  if failed then (frames, mkChan queued (closed ch), Returned)
  else if closed ch then (frames ++ [CloseMessage], mkChan queued true, Returned)
  else (frames, mkChan queued false, Blocked).

End websocket.

(** * Vocabulary of the properties *)

Import utils model game.

(** ** Locks *)



(** ** The store *)

(** The id sequence of [rooms] is ahead of every row. *)
Definition seq_ok (db : postgres.DB) : Prop :=
  ∀ r, r ∈ postgres.rooms db → (ID r ≤ postgres.rooms_seq db)%N.

(** No row of [db] with the id [id] is visible. *)
Definition gone (id : N) (db : postgres.DB) : Prop :=
  ∀ r, r ∈ postgres.rooms db → ID r = id → DeletedAt r ≠ None.

(** The id [id] has been handed out, and its room is gone. *)
Definition retired (id : N) (db : postgres.DB) : Prop :=
  seq_ok db ∧ (id ≤ postgres.rooms_seq db)%N ∧ gone id db.

(** No row of [db] carries [roomCode]. *)
Definition code_unused (roomCode : string) (db : postgres.DB) : Prop :=
  existsb (λ r, bool_decide (RoomCode r = roomCode)) (postgres.rooms db) = false.

(** The row that CreateRoom inserts into [db] for the code [roomCode]. *)
Definition created_row (s : RoomService) (now : Z) (roomCode : string)
    (ownerID : N) (req : CreateRoomRequest) (db : postgres.DB) : Room :=
  let room := mkRoom 0 roomCode (req_Name req) ownerID RoomStatusWaiting
                (maxPlayers s) 0 (req_GameType req) (req_Settings req)
                None None (Some (now + defaultTimeout s)) None in
  withID (postgres.rooms_seq db + 1)
    (if MaxPlayers room =? 0 then withMaxPlayers 10 room else room).

(** [room_id = ? AND user_id = ? AND left_at IS NULL] *)
Definition member (roomID userID : N) (p : RoomPlayer) : Prop :=
  RoomID p = roomID ∧ UserID p = userID ∧ LeftAt p = None.

#[global] Instance member_dec roomID userID p : Decision (member roomID userID p).
Proof. unfold member. apply _. Defined.

(** The number of active memberships of a user in a room. *)
Definition member_count (db : postgres.DB) (roomID userID : N) : nat :=
  length (filter (member roomID userID) (postgres.room_players db)).

(** The number of memberships of the room [roomID] with no leave
    timestamp. *)
Definition active_count (db : postgres.DB) (roomID : N) : Z :=
  Z.of_nat (length (filter (postgres.active_in roomID) (postgres.room_players db))).

(** Every visible room's occupancy counter is the number of its active
    memberships. *)
Definition occupancy_matches (db : postgres.DB) : Prop :=
  ∀ room, room ∈ postgres.rooms db → DeletedAt room = None →
    CurrentPlayers room = active_count db (ID room).

(** The store is sound: ids are below the sequence and unique, every
    membership points at an id that has been handed out, no user has two
    active memberships in a room, and every visible room's counter is the
    number of its active memberships. *)
Definition sound (db : postgres.DB) : Prop :=
  seq_ok db ∧
  NoDup (ID <$> postgres.rooms db) ∧
  (∀ p, p ∈ postgres.room_players db → (RoomID p ≤ postgres.rooms_seq db)%N) ∧
  (∀ roomID userID, (member_count db roomID userID ≤ 1)%nat) ∧
  occupancy_matches db.

(** ** CreateRoom and the cache *)

(** The cache holds the mirror of [room] at [now]: a hash under the
    room's key with at least the fields of [roomData]. *)
Definition mirrored (now : Z) (c : cache.Client) (room : Room) : Prop :=
  ∃ h exp,
    cache.peek now c (redis.roomKey (ID room))
      = Some (cache.mkEntry (cache.VHash h) exp) ∧
    roomData room ⊆ h.

(** The membership of the owner that CreateRoom inserts. *)
Definition owner_seat (db : postgres.DB) (room : Room) : Prop :=
  ∃ p, p ∈ postgres.room_players db ∧ RoomID p = ID room ∧
       UserID p = OwnerID room ∧ Position p = 0 ∧ LeftAt p = None.

(** CreateRoom is all-or-nothing: a success leaves the room in the store
    (Waiting, one occupant), the owner seated at 0 and the room mirrored
    to the cache; a failure leaves no room behind that was not there. *)
Definition all_or_nothing (s : RoomService) (flt : Site → bool) (now : Z)
    (rnd : N * N * N * N) (ownerID : N) (req : CreateRoomRequest) (w : World)
    : Prop :=
  let rw := CreateRoom s flt now rnd ownerID req w in
  match rw.1 with
  | Success room =>
      postgres.GetByID false (store rw.2) (ID room) = Ret (Some room) ∧
      Status room = RoomStatusWaiting ∧ CurrentPlayers room = 1 ∧
      owner_seat (store rw.2) room ∧
      mirrored now (rds rw.2) room
  | Error _ =>
      ∀ id, postgres.GetByID false (store rw.2) id
            = postgres.GetByID false (store w) id
  end.

(** ** The status *)

(** The moves of the status that the lifecycle allows, a status staying
    what it is included. *)
Inductive forward : RoomStatus → RoomStatus → Prop :=
| forward_stay st : forward st st
| forward_start : forward RoomStatusWaiting RoomStatusPlaying
| forward_finish : forward RoomStatusPlaying RoomStatusFinished
| forward_cancel : forward RoomStatusWaiting RoomStatusCancelled.

(** A store whose visible rooms have, id by id, a status reached from the
    one they had in [db0] by [Q]. *)
Definition status_related (Q : RoomStatus → RoomStatus → Prop)
    (db0 db : postgres.DB) : Prop :=
  ∀ id r r',
    find (postgres.by_id id) (postgres.rooms db0) = Some r →
    find (postgres.by_id id) (postgres.rooms db) = Some r' →
    Q (Status r) (Status r').

(** ** Calls and runs *)

(** A call of one of the five operations, with its fault plan, its
    clock and its arguments. *)
Inductive Op : Type :=
| OpCreateRoom (s : RoomService) (flt : Site → bool) (now : Z)
    (rnd : N * N * N * N) (ownerID : N) (req : CreateRoomRequest)
| OpJoinRoom (s : RoomService) (flt : Site → bool) (now : Z)
    (userID : N) (roomCode : string)
| OpLeaveRoom (s : RoomService) (flt : Site → bool) (now : Z) (userID roomID : N)
| OpStartGame (flt : Site → bool) (now : Z) (roomID : N)
| OpEndGame (flt : Site → bool) (now : Z) (roomID : N) (results : gmap N string).

(** The world after a call. *)
Definition step (op : Op) (w : World) : World :=
  match op with
  | OpCreateRoom s flt now rnd ownerID req => (CreateRoom s flt now rnd ownerID req w).2
  | OpJoinRoom s flt now userID roomCode => (JoinRoom s flt now userID roomCode w).2
  | OpLeaveRoom s flt now userID roomID => (LeaveRoom s flt now userID roomID w).2
  | OpStartGame flt now roomID => (StartGame flt now roomID w).2
  | OpEndGame flt now roomID results => (EndGame flt now roomID results w).2
  end.

(** The world after a sequence of calls, made one after the other. *)
Definition run (ops : list Op) (w : World) : World :=
  foldl (λ w op, step op w) w ops.

(** A call whose update of the room row goes through and, for LeaveRoom,
    whose caller has an active membership in the room. *)
Definition regular (op : Op) (w : World) : Prop :=
  match op with
  | OpCreateRoom _ flt _ _ _ _ => flt RoomUpdate = false
  | OpJoinRoom _ flt _ _ _ => flt RoomUpdate = false
  | OpLeaveRoom _ flt _ userID roomID =>
      flt RoomUpdate = false ∧ (1 ≤ member_count (store w) roomID userID)%nat
  | OpStartGame _ _ _ => True
  | OpEndGame _ _ _ _ => True
  end.

(** ** The hub *)

(** The registry is in order: a client sits under its own identity, its
    channel exists and is open, and no two entries share a channel. *)
Definition hub_ok (h : websocket.Hub) : Prop :=
  (∀ u c, websocket.clients h !! u = Some c →
     websocket.UserID c = u ∧
     ∃ ch, websocket.chans h !! websocket.Send c = Some ch ∧
           websocket.closed ch = false) ∧
  (∀ u1 u2 c1 c2,
     websocket.clients h !! u1 = Some c1 → websocket.clients h !! u2 = Some c2 →
     websocket.Send c1 = websocket.Send c2 → u1 = u2).

(** What becomes of a client's channel when [message] is sent to it
    without blocking: queued if there is room, closed if not. *)
Definition after_send (message : string) (ch : websocket.Chan) : websocket.Chan :=
  if (length (websocket.buf ch) <? websocket.capacity)%nat
  then websocket.mkChan (websocket.buf ch ++ [message]) false
  else websocket.mkChan (websocket.buf ch) true.

(** Whether the client stays registered after such a send. *)
Definition kept (ch : websocket.Chan) : bool :=
  (length (websocket.buf ch) <? websocket.capacity)%nat.

(** The state of the loop of the broadcast case after the clients of [m]
    have had their turn. *)
Definition broadcast_upto (message : string) (h : websocket.Hub)
    (m : gmap N websocket.Client) (r : websocket.outcome) : Prop :=
  ∃ h', r = websocket.Ok h' ∧
    (∀ a, (∀ u c, m !! u = Some c → websocket.Send c ≠ a) →
       websocket.chans h' !! a = websocket.chans h !! a) ∧
    (∀ u c ch, m !! u = Some c → websocket.chans h !! websocket.Send c = Some ch →
       websocket.chans h' !! websocket.Send c = Some (after_send message ch)) ∧
    (∀ u, websocket.clients h' !! u =
          match m !! u with
          | Some c =>
              match websocket.chans h !! websocket.Send c with
              | Some ch => if kept ch then websocket.clients h !! u else None
              | None => websocket.clients h !! u
              end
          | None => websocket.clients h !! u
          end).

(** ** Sample data *)
Module sample.

Definition service : RoomService := mkRoomService 2 1800000.

Definition request : CreateRoomRequest := mkCreateRoomRequest "lobby" "chess" "{}".

(** An empty store and an empty Redis. *)
Definition empty : World := mkWorld (postgres.mkDB [] [] 0 0) ∅ [].

(** After [CreateRoom] by user 1 at time 0; the room has id 1 and code
    "abcd0123". *)
Definition created : World :=
  (CreateRoom service no_faults 0 (171, 205, 1, 35)%N 1 request empty).2.

(** After user 2 has joined at time 10. *)
Definition joined : World :=
  (JoinRoom service no_faults 10 2 "abcd0123" created).2.

(** The room of [created], cancelled. *)
Definition cancelled_room : Room :=
  mkRoom 1 "abcd0123" "lobby" 1 RoomStatusCancelled 2 1 "chess" "{}"
    None None (Some 1800000) None.

Definition cancelled : World :=
  mkWorld (postgres.mkDB [cancelled_room] (postgres.room_players (store created)) 1 1)
    (rds created) [].

End sample.


(** * Further vocabulary *)

(** ** Room codes *)

(** A lower-case hexadecimal digit. *)
Definition is_hex (ch : ascii) : bool :=
  existsb (λ d, bool_decide (d = ch)) (list_ascii_of_string "0123456789abcdef").

(** The four bytes that [generateRoomCode] encodes. *)
Definition bytes_of (rnd : N * N * N * N) : list N :=
  let '(b0, b1, b2, b3) := rnd in
  [b0 mod 256; b1 mod 256; b2 mod 256; b3 mod 256]%N.

(** ** The cache, room by room *)

(** The room [roomID] reads the same from [c'] as from [c]. *)
Definition same_room (now : Z) (roomID : N) (c c' : cache.Client) : Prop :=
  redis.GetRoomState false now c' roomID = redis.GetRoomState false now c roomID ∧
  redis.GetRoomPlayers false now c' roomID = redis.GetRoomPlayers false now c roomID ∧
  ∀ userID, redis.IsRoomPlayer false now c' roomID userID
            = redis.IsRoomPlayer false now c roomID userID.

(** The lock on [resource] reads the same from [c'] as from [c]. *)
Definition same_lock (now : Z) (resource : string) (c c' : cache.Client) : Prop :=
  redis.held now c' resource = redis.held now c resource.

(** ** The store over runs *)

(** Every room's occupancy counter is between 0 and the room's capacity. *)
Definition within_capacity (db : postgres.DB) : Prop :=
  ∀ room, room ∈ postgres.rooms db →
    0 ≤ CurrentPlayers room ≤ MaxPlayers room.

(** A call of CreateRoom is made on a service whose configured capacity
    is not negative. *)
Definition configured (op : Op) : Prop :=
  match op with
  | OpCreateRoom s _ _ _ _ _ => 0 ≤ maxPlayers s
  | _ => True
  end.

(** Every call of a run is regular in the world it is made in. *)
Fixpoint regular_run (ops : list Op) (w : World) : Prop :=
  match ops with
  | [] => True
  | op :: rest => regular op w ∧ regular_run rest (step op w)
  end.

(** The tables of [db'] continue those of [db]: the rooms of [db] are
    there under their ids, in their places, followed by the new ones, and
    so are the memberships, leave times aside. *)
Definition continues (db db' : postgres.DB) : Prop :=
  (ID <$> postgres.rooms db) `prefix_of` (ID <$> postgres.rooms db') ∧
  (withLeftAt None <$> postgres.room_players db)
    `prefix_of` (withLeftAt None <$> postgres.room_players db').

(** A call other than EndGame. *)
Definition not_EndGame (op : Op) : Prop :=
  match op with
  | OpEndGame _ _ _ _ => False
  | _ => True
  end.

(** ** Sessions *)

#[global] Instance Field_eq_dec : EqDecision redis.Field.
Proof. solve_decision. Defined.

Definition no_session_faults : SessionSite → bool := λ _, false.

(** The key holds nothing, or a set that does not expire. *)
Definition plain_set (c : cache.Client) (key : string) : Prop :=
  match c !! key with
  | None => True
  | Some e => cache.ent_exp e = None ∧ ∃ s, cache.ent_val e = cache.VSet s
  end.

(** An encoding of two session maps, the session of user 7 created at
    5000 and the same refreshed at 9000, for running the session
    operations on them. *)
Module sample_codec.

Definition session : gmap string redis.Field :=
  sessionData 5000 7 "10.0.0.1" "agent".

Definition refreshed : gmap string redis.Field :=
  <["last_activity" := redis.FNum 9]> session.

Definition Marshal (data : gmap string redis.Field) : io string :=
  if decide (data = session) then Ret "session at 5"
  else if decide (data = refreshed) then Ret "session at 9"
  else Failed.

Definition Unmarshal (data : string) : io (gmap string redis.Field) :=
  if decide (data = "session at 5") then Ret session
  else if decide (data = "session at 9") then Ret refreshed
  else Failed.

Definition service : SessionService := mkSessionService 30000 60000.

(** After [CreateSession] for user 7 at time 5000 on an empty Redis. *)
Definition created : cache.Client :=
  (CreateSession Marshal service no_session_faults 5000 7 "10.0.0.1" "agent" ∅).2.

End sample_codec.

(** ** Operations under a lock *)


(** ** Fault plans *)

(** Exactly the calls [a] and [b] fail. *)
Definition either (a b : Site) : Site → bool :=
  λ s, bool_decide (s = a ∨ s = b).

(** ** The claims on JoinRoom and LeaveRoom as they are worded *)

(** A successful JoinRoom has counted the occupancy of the room, as the
    store has it, up by one. *)
Definition join_counts_up (s : RoomService) (flt : Site → bool) (now : Z)
    (userID : N) (roomCode : string) (w : World) : Prop :=
  let rw := JoinRoom s flt now userID roomCode w in
  ∀ r, rw.1 = Success r →
    ∃ room room',
      postgres.GetByRoomCode false (store w) roomCode = Ret (Some room) ∧
      postgres.GetByRoomCode false (store rw.2) roomCode = Ret (Some room') ∧
      CurrentPlayers room' = CurrentPlayers room + 1.

(** A successful LeaveRoom on a room of occupancy 1 has deleted the room
    from the store, so that GetRoom answers NotFound, and has removed the
    room's hash and its member set from the cache. *)
Definition last_leave_deletes (s : RoomService) (flt : Site → bool) (now : Z)
    (userID roomID : N) (w : World) : Prop :=
  let rw := LeaveRoom s flt now userID roomID w in
  ∀ room, postgres.GetByID false (store w) roomID = Ret (Some room) →
    CurrentPlayers room = 1 → rw.1 = Success tt →
    GetRoom no_faults roomID rw.2 = Error ErrCodeNotFound ∧
    rds rw.2 !! redis.roomKey roomID = None ∧
    rds rw.2 !! redis.playersKey roomID = None.

(** ** Traffic on the hub *)

(** [SendToUser] for each message of [messages], in order. *)
Fixpoint sends (userID : N) (messages : list string) (h : websocket.Hub)
    : websocket.outcome :=
  match messages with
  | [] => websocket.Ok h
  | message :: rest =>
      match websocket.SendToUser userID (Ret message) h with
      | websocket.Ok h' => sends userID rest h'
      | websocket.Panic => websocket.Panic
      end
  end.

(** What reaches the hub besides the teardown of connections: a new
    connection, a broadcast, a targeted send. *)
Inductive Traffic : Type :=
| Connect (userID : N) (username : string)
| Cast (message : string)
| Direct (userID : N) (data : io string).

Definition serve_step (t : Traffic) (h : websocket.Hub) : websocket.outcome :=
  match t with
  | Connect userID username => (websocket.HandleWebSocket userID username h).2
  | Cast message => websocket.Run_step (websocket.Broadcast message) h
  | Direct userID data => websocket.SendToUser userID data h
  end.

Fixpoint serve (ts : list Traffic) (h : websocket.Hub) : websocket.outcome :=
  match ts with
  | [] => websocket.Ok h
  | t :: rest =>
      match serve_step t h with
      | websocket.Ok h' => serve rest h'
      | websocket.Panic => websocket.Panic
      end
  end.
(** * Properties *)

(** ** The lock manager *)

Lemma peek_insert_eq now (c : cache.Client) k e :
  cache.peek now (<[k := e]> c) k = if cache.live now e then Some e else None.
Proof. unfold cache.peek. by rewrite lookup_insert_eq. Qed.

Lemma peek_delete_eq now (c : cache.Client) k :
  cache.peek now (delete k c) k = None.
Proof. unfold cache.peek. by rewrite lookup_delete_eq. Qed.

Lemma held_true now c r :
  redis.held now c r = true ↔ is_Some (cache.peek now c (redis.lockKey r)).
Proof. unfold redis.held. by rewrite bool_decide_eq_true. Qed.

Lemma held_false now c r :
  redis.held now c r = false ↔ cache.peek now c (redis.lockKey r) = None.
Proof.
  unfold redis.held. rewrite bool_decide_eq_false.
  by rewrite eq_None_not_Some.
Qed.

Lemma AcquireLock_held now c r ttl :
  0 ≤ ttl → redis.held now c r = true →
  redis.AcquireLock false now c r ttl = (Ret false, c).
Proof.
  intros Httl [e He]%held_true. unfold redis.AcquireLock, cache.SetNX.
  destruct (Z.ltb_spec ttl 0); [lia|]. by rewrite He.
Qed.

Lemma AcquireLock_free now c r ttl :
  0 ≤ ttl → redis.held now c r = false →
  redis.AcquireLock false now c r ttl =
    (Ret true, <[redis.lockKey r := cache.mkEntry (cache.VStr "1") (cache.deadline now ttl)]> c).
Proof.
  intros Httl He%held_false. unfold redis.AcquireLock, cache.SetNX.
  destruct (Z.ltb_spec ttl 0); [lia|]. by rewrite He.
Qed.

Lemma ReleaseLock_free now c r :
  redis.held now (redis.ReleaseLock false c r).2 r = false.
Proof. apply held_false. simpl. apply peek_delete_eq. Qed.

Lemma held_after_acquire t0 t1 c r ttl :
  0 < ttl →
  redis.held t1 (<[redis.lockKey r := cache.mkEntry (cache.VStr "1") (cache.deadline t0 ttl)]> c) r
  = bool_decide (t1 < t0 + ttl).
Proof.
  intros Httl. unfold redis.held. rewrite peek_insert_eq.
  unfold cache.live, cache.deadline; simpl.
  destruct (Z.eqb_spec ttl 0); [lia|]. simpl.
  destruct (Z.ltb_spec t1 (t0 + ttl)).
  - rewrite !bool_decide_eq_true_2; eauto.
  - rewrite !bool_decide_eq_false_2; [done|lia|]. by intros [? ?].
Qed.

(** C7. Acquire is one set-if-absent with expiry and release one delete:
    on a key that is held and unexpired acquire answers [false] and leaves
    the server as it is; on a free key it answers [true]; once acquired at
    [t0] for [ttl], a second acquire before [t0 + ttl] answers [false] and
    one at or after [t0 + ttl] answers [true]; release frees the key
    whoever holds it, so the acquire that follows answers [true]. *)
Theorem C7_lock_acquire_release (c : cache.Client) (r : string) (ttl t0 t1 : Z) :
  0 < ttl → t0 ≤ t1 →
  (redis.held t0 c r = true →
     redis.AcquireLock false t0 c r ttl = (Ret false, c)) ∧
  (redis.held t0 c r = false →
     ∃ c1, redis.AcquireLock false t0 c r ttl = (Ret true, c1) ∧
       (t1 < t0 + ttl → redis.AcquireLock false t1 c1 r ttl = (Ret false, c1)) ∧
       (t0 + ttl ≤ t1 → (redis.AcquireLock false t1 c1 r ttl).1 = Ret true)) ∧
  (redis.ReleaseLock false c r).1 = Ret tt ∧
  (redis.AcquireLock false t1 (redis.ReleaseLock false c r).2 r ttl).1 = Ret true.
Proof.
  intros Httl Ht. split; [|split; [|split]].
  - intros Hh. apply AcquireLock_held; [lia|done].
  - intros Hf. eexists. split; [apply AcquireLock_free; [lia|done]|]. split.
    + intros Hlt. apply AcquireLock_held; [lia|].
      rewrite held_after_acquire by done. by apply bool_decide_eq_true_2.
    + intros Hge. rewrite AcquireLock_free; [done|lia|].
      rewrite held_after_acquire by done. apply bool_decide_eq_false_2. lia.
  - done.
  - rewrite AcquireLock_free; [done|lia|]. apply ReleaseLock_free.
Qed.

(** A lock taken at time 0 for five seconds is refused at 4999. *)
Lemma C7_witness :
  ∃ c1, redis.AcquireLock false 0 ∅ "room:lock:abcd0123" 5000 = (Ret true, c1) ∧
        redis.AcquireLock false 4999 c1 "room:lock:abcd0123" 5000 = (Ret false, c1).
Proof.
  destruct (C7_lock_acquire_release ∅ "room:lock:abcd0123" 5000 0 4999)
    as (_ & H & _); [lia|lia|].
  destruct (H eq_refl) as (c1 & Ha & Hb & _).
  exists c1. split; [exact Ha|apply Hb; lia].
Defined.

(** ** The locking prelude *)

Import utils model game.

(** The three ways through [locked]. *)
Lemma locked_inv {A : Type} flt now k ttl (body : World → result A * World) w :
  0 ≤ ttl →
  (flt LockAcquire = true ∧ locked flt now k ttl body w = (Error ErrCodeInternal, w)) ∨
  (flt LockAcquire = false ∧ redis.held now (rds w) k = true ∧
     locked flt now k ttl body w = (Error ErrCodeConflict, w)) ∨
  (flt LockAcquire = false ∧ redis.held now (rds w) k = false ∧
     ∃ c1, redis.AcquireLock false now (rds w) k ttl = (Ret true, c1) ∧
       redis.held now c1 k = true ∧
       let rb := body (mkWorld (store w) c1 (bus w)) in
       locked flt now k ttl body w =
         (rb.1, mkWorld (store rb.2)
                  (redis.ReleaseLock (flt LockRelease) (rds rb.2) k).2 (bus rb.2))).
Proof.
  intros Httl. unfold locked.
  destruct (flt LockAcquire) eqn:Hf.
  - left. split; [done|]. unfold redis.AcquireLock, cache.SetNX. done.
  - right. destruct (redis.held now (rds w) k) eqn:Hh.
    + left. do 2 (split; [done|]). by rewrite AcquireLock_held.
    + right. do 2 (split; [done|]). eexists. split; [by apply AcquireLock_free|].
      split.
      * apply held_true. rewrite peek_insert_eq.
        unfold cache.live, cache.deadline; simpl.
        destruct (Z.eqb_spec ttl 0); simpl; [by eexists|].
        destruct (Z.ltb_spec now (now + ttl)); [by eexists|lia].
      * rewrite AcquireLock_free by done. simpl.
        destruct (body _) as [r w1]. simpl.
        by destruct (redis.ReleaseLock _ _ _).
Qed.


(** ** The store *)

Lemma find_app_l {A} (f : A → bool) l1 l2 x :
  find f l1 = Some x → find f (l1 ++ l2) = Some x.
Proof.
  induction l1 as [|a l1 IH]; simpl; [done|]. destruct (f a); auto.
Qed.

Lemma find_app_r {A} (f : A → bool) l1 l2 :
  find f l1 = None → find f (l1 ++ l2) = find f l2.
Proof.
  induction l1 as [|a l1 IH]; simpl; [done|]. destruct (f a); [done|auto].
Qed.

Lemma find_none_iff {A} (f : A → bool) l :
  find f l = None ↔ ∀ x, x ∈ l → f x = false.
Proof.
  induction l as [|a l IH]; simpl.
  - split; [|done]. intros _ x Hx. by apply elem_of_nil in Hx.
  - destruct (f a) eqn:Ha.
    + split; [done|]. intros H. specialize (H a (list_elem_of_here _ _)). congruence.
    + rewrite IH. split.
      * intros H x [->|Hx]%elem_of_cons; auto.
      * intros H x Hx. apply H. by apply list_elem_of_further.
Qed.

Lemma find_some_elem {A} (f : A → bool) l x :
  find f l = Some x → x ∈ l ∧ f x = true.
Proof.
  induction l as [|a l IH]; simpl; [done|].
  destruct (f a) eqn:Ha.
  - intros [= ->]. split; [apply list_elem_of_here|done].
  - intros [? ?]%IH. split; [by apply list_elem_of_further|done].
Qed.

Lemma by_id_true id r : postgres.by_id id r = true ↔ ID r = id ∧ DeletedAt r = None.
Proof.
  unfold postgres.by_id, postgres.visible.
  rewrite andb_true_iff, !bool_decide_eq_true. done.
Qed.

Lemma by_code_true code r :
  postgres.by_code code r = true ↔ RoomCode r = code ∧ DeletedAt r = None.
Proof.
  unfold postgres.by_code, postgres.visible.
  rewrite andb_true_iff, !bool_decide_eq_true. done.
Qed.

(** Right after [save], a visible room is what a read by its id returns. *)
Lemma find_save_eq room rows :
  DeletedAt room = None →
  find (postgres.by_id (ID room)) (postgres.save room rows) = Some room.
Proof.
  intros Hv.
  assert (Hroom : postgres.by_id (ID room) room = true) by by apply by_id_true.
  induction rows as [|r rows IH]; simpl.
  - by rewrite Hroom.
  - case_bool_decide as Hid; simpl.
    + by rewrite Hroom.
    + replace (postgres.by_id (ID room) r) with false; [done|].
      symmetry. apply not_true_iff_false. rewrite by_id_true. by intros [? _].
Qed.

(** [save] does not show through a read by another id. *)
Lemma find_save_ne id room rows :
  ID room ≠ id →
  find (postgres.by_id id) (postgres.save room rows) = find (postgres.by_id id) rows.
Proof.
  intros Hne.
  assert (Hroom : postgres.by_id id room = false).
  { apply not_true_iff_false. rewrite by_id_true. by intros [? _]. }
  induction rows as [|r rows IH]; simpl.
  - by rewrite Hroom.
  - case_bool_decide as Hid; simpl.
    + rewrite Hroom.
      replace (postgres.by_id id r) with false; [done|].
      symmetry. apply not_true_iff_false. rewrite by_id_true. intros [? _]. congruence.
    + destruct (postgres.by_id id r); [done|apply IH].
Qed.

Lemma GetByID_visible f db id room :
  postgres.GetByID f db id = Ret (Some room) →
  room ∈ postgres.rooms db ∧ ID room = id ∧ DeletedAt room = None.
Proof.
  unfold postgres.GetByID. destruct f; [done|].
  intros [= [? [? ?]%by_id_true]%find_some_elem]. done.
Qed.

Lemma GetByRoomCode_visible f db code room :
  postgres.GetByRoomCode f db code = Ret (Some room) →
  room ∈ postgres.rooms db ∧ RoomCode room = code ∧ DeletedAt room = None.
Proof.
  unfold postgres.GetByRoomCode. destruct f; [done|].
  intros [= [? [? ?]%by_code_true]%find_some_elem]. done.
Qed.

Lemma Update_room_players f db room :
  postgres.room_players (postgres.Update f db room).2 = postgres.room_players db.
Proof. unfold postgres.Update. by destruct f. Qed.

Lemma Update_seq f db room :
  postgres.rooms_seq (postgres.Update f db room).2 = postgres.rooms_seq db.
Proof. unfold postgres.Update. by destruct f. Qed.

Lemma Delete_room_players f now db id :
  postgres.room_players (postgres.Delete f now db id).2 = postgres.room_players db.
Proof. unfold postgres.Delete. by destruct f. Qed.

Lemma Delete_seq f now db id :
  postgres.rooms_seq (postgres.Delete f now db id).2 = postgres.rooms_seq db.
Proof. unfold postgres.Delete. by destruct f. Qed.

Lemma of_room_user_true roomID userID p :
  postgres.of_room_user roomID userID p = true ↔ RoomID p = roomID ∧ UserID p = userID.
Proof.
  unfold postgres.of_room_user. by rewrite andb_true_iff, !bool_decide_eq_true.
Qed.

Lemma stamp_cases now roomID userID p :
  ((RoomID p = roomID ∧ UserID p = userID) ∧
     postgres.stamp now roomID userID p = withLeftAt (Some now) p) ∨
  (¬ (RoomID p = roomID ∧ UserID p = userID) ∧ postgres.stamp now roomID userID p = p).
Proof.
  unfold postgres.stamp. destruct (postgres.of_room_user roomID userID p) eqn:Hp.
  - left. split; [by apply of_room_user_true|done].
  - right. split; [|done]. apply not_true_iff_false in Hp.
    intros H. by apply Hp, of_room_user_true.
Qed.


(** ** StartGame on a room that is not waiting *)

Lemma StartGame_locked_non_waiting flt now roomID w room :
  postgres.GetByID false (store w) roomID = Ret (Some room) →
  Status room ≠ RoomStatusWaiting →
  StartGame_locked flt now roomID w =
    (Error (if flt RoomGetByID then ErrCodeInternal else ErrCodeConflict), w).
Proof.
  intros Hget Hst. unfold StartGame_locked, postgres.GetByID in *.
  destruct (flt RoomGetByID); [done|].
  injection Hget as ->. by rewrite bool_decide_eq_true_2.
Qed.

(** C9. For a room whose status is not Waiting, StartGame leaves the
    store and the event channel exactly as they were under every fault
    plan (so the room keeps its status, start timestamp and every other
    field), and it answers Conflict whenever its lock request and its read
    of the room go through. *)
Theorem C9_StartGame_rejects_non_waiting flt now roomID w room :
  postgres.GetByID false (store w) roomID = Ret (Some room) →
  Status room ≠ RoomStatusWaiting →
  store (StartGame flt now roomID w).2 = store w ∧
  postgres.GetByID false (store (StartGame flt now roomID w).2) roomID = Ret (Some room) ∧
  bus (StartGame flt now roomID w).2 = bus w ∧
  (flt LockAcquire = false → flt RoomGetByID = false →
     (StartGame flt now roomID w).1 = Error ErrCodeConflict).
Proof.
  intros Hget Hst. unfold StartGame.
  destruct (locked_inv flt now (gameLock roomID) (10 * redis.Second)
              (StartGame_locked flt now roomID) w)
    as [[Hf ->]|[(Hf & Hh & ->)|(Hf & Hh & c1 & _ & _ & ->)]];
    [unfold redis.Second; lia|simpl..].
  - repeat split; try done. congruence.
  - repeat split; done.
  - rewrite (StartGame_locked_non_waiting _ _ _ _ room) by done. simpl.
    repeat split; try done. by intros _ ->.
Qed.

(** StartGame on a room that is Playing. *)
Lemma C9_witness :
  let room := mkRoom 1 "abcd0123" "r" 1 RoomStatusPlaying 2 1 "g" "{}"
                (Some 5) None None None in
  let w := mkWorld (postgres.mkDB [room] [] 1 0) ∅ [] in
  store (StartGame no_faults 10 1 w).2 = store w ∧
  postgres.GetByID false (store (StartGame no_faults 10 1 w).2) 1 = Ret (Some room) ∧
  bus (StartGame no_faults 10 1 w).2 = bus w ∧
  (no_faults LockAcquire = false → no_faults RoomGetByID = false →
     (StartGame no_faults 10 1 w).1 = Error ErrCodeConflict).
Proof.
  intros room w.
  apply (C9_StartGame_rejects_non_waiting no_faults 10 1 w room).
  - reflexivity.
  - simpl. discriminate.
Defined.

(** ** The rendering of a room id in a lock name *)

(** The conversion [string(rune(roomID))] yields one code point, not the
    digits of the id: room 65 locks "room:lock:A", and the ids that are no
    code point all lock the same key. *)
Remark leaveLock_rendering :
  leaveLock 65 = "room:lock:A" ∧ leaveLock 55296 = leaveLock 57343.
Proof. split; reflexivity. Qed.

(** ** JoinRoom *)

(** What [JoinRoom_locked] answers when the reads go through. *)
Lemma JoinRoom_locked_NotFound s flt now userID roomCode w :
  flt RoomGetByRoomCode = false →
  postgres.GetByRoomCode false (store w) roomCode = Ret None →
  JoinRoom_locked s flt now userID roomCode w = (Error ErrCodeNotFound, w).
Proof. intros Hf Hget. unfold JoinRoom_locked. by rewrite Hf, Hget. Qed.

Lemma JoinRoom_locked_Conflict s flt now userID roomCode w room :
  flt RoomGetByRoomCode = false → flt PlayerGetByRoomIDAndUserID = false →
  postgres.GetByRoomCode false (store w) roomCode = Ret (Some room) →
  Status room ≠ RoomStatusWaiting ∨ MaxPlayers room ≤ CurrentPlayers room ∨
    is_Some (find (λ p, postgres.of_room_user (ID room) userID p && postgres.active p)
               (postgres.room_players (store w))) →
  JoinRoom_locked s flt now userID roomCode w = (Error ErrCodeConflict, w).
Proof.
  intros Hf1 Hf2 Hget Hcase. unfold JoinRoom_locked. rewrite Hf1, Hget, Hf2.
  case_bool_decide; [done|].
  destruct (Z.leb_spec (MaxPlayers room) (CurrentPlayers room)); [done|].
  destruct Hcase as [?|[?|[p Hp]]]; [done|lia|].
  unfold postgres.GetByRoomIDAndUserID. by rewrite Hp.
Qed.

Lemma JoinRoom_locked_Success_inv s flt now userID roomCode w r w' :
  JoinRoom_locked s flt now userID roomCode w = (Success r, w') →
  ∃ room,
    postgres.GetByRoomCode false (store w) roomCode = Ret (Some room) ∧
    Status room = RoomStatusWaiting ∧ CurrentPlayers room < MaxPlayers room ∧
    r = withCurrentPlayers (CurrentPlayers room + 1) room ∧
    postgres.room_players (store w') =
      postgres.room_players (store w) ++
      [mkRoomPlayer (postgres.room_players_seq (store w) + 1) (ID room) userID false
         (Z.of_nat (length (filter (postgres.active_in (ID room))
                              (postgres.room_players (store w)))))
         now None] ∧
    (flt RoomUpdate = false →
       postgres.GetByID false (store w') (ID room) = Ret (Some r)).
Proof.
  unfold JoinRoom_locked, postgres.GetByRoomCode.
  destruct (flt RoomGetByRoomCode); [done|].
  destruct (find _ _) as [room|] eqn:Hfind; [|done].
  case_bool_decide as Hst; [done|].
  destruct (Z.leb_spec (MaxPlayers room) (CurrentPlayers room)); [done|].
  unfold postgres.GetByRoomIDAndUserID.
  destruct (flt PlayerGetByRoomIDAndUserID); [done|].
  destruct (find _ (postgres.room_players _)); [done|].
  unfold postgres.GetByRoomID. destruct (flt PlayerGetByRoomID); [done|].
  unfold postgres.CreatePlayer. destruct (flt PlayerCreate); [done|].
  intros [= <- <-]. exists room. split; [done|].
  split; [destruct (decide (Status room = RoomStatusWaiting)); [done|by destruct Hst]|].
  split; [done|]. split; [done|]. simpl.
  split; [by rewrite Update_room_players|].
  intros ->. simpl. unfold postgres.GetByID. simpl.
  apply find_some_elem in Hfind as [_ [_ Hv]%by_code_true].
  pose proof (find_save_eq (withCurrentPlayers (CurrentPlayers room + 1) room)
                (postgres.rooms (store w))) as Hs.
  simpl in Hs. by rewrite Hs.
Qed.

Lemma JoinRoom_locked_Success s flt now userID roomCode w room :
  flt RoomGetByRoomCode = false → flt PlayerGetByRoomIDAndUserID = false →
  flt PlayerGetByRoomID = false → flt PlayerCreate = false →
  postgres.GetByRoomCode false (store w) roomCode = Ret (Some room) →
  Status room = RoomStatusWaiting → CurrentPlayers room < MaxPlayers room →
  postgres.GetByRoomIDAndUserID false (store w) (ID room) userID = Ret None →
  (JoinRoom_locked s flt now userID roomCode w).1 =
    Success (withCurrentPlayers (CurrentPlayers room + 1) room).
Proof.
  intros Hf1 Hf2 Hf3 Hf4 Hget Hst Hlt Hmem. unfold JoinRoom_locked.
  rewrite Hf1, Hget, Hf2, Hmem, Hf3, Hf4.
  rewrite bool_decide_eq_false_2 by (by intros ?).
  destruct (Z.leb_spec (MaxPlayers room) (CurrentPlayers room)); [lia|]. done.
Qed.

Lemma JoinRoom_locked_Success_rooms s flt now userID roomCode w r w' :
  JoinRoom_locked s flt now userID roomCode w = (Success r, w') →
  flt RoomUpdate = true →
  postgres.rooms (store w') = postgres.rooms (store w).
Proof.
  unfold JoinRoom_locked, postgres.GetByRoomCode.
  destruct (flt RoomGetByRoomCode); [done|].
  destruct (find _ _) as [room|] eqn:Hfind; [|done].
  case_bool_decide as Hst; [done|].
  destruct (Z.leb_spec (MaxPlayers room) (CurrentPlayers room)); [done|].
  unfold postgres.GetByRoomIDAndUserID.
  destruct (flt PlayerGetByRoomIDAndUserID); [done|].
  destruct (find _ (postgres.room_players _)); [done|].
  unfold postgres.GetByRoomID. destruct (flt PlayerGetByRoomID); [done|].
  unfold postgres.CreatePlayer. destruct (flt PlayerCreate); [done|].
  intros [= <- <-] ->. done.
Qed.

(** C4, as the code has it. With the lock request and the reads of the
    room and of the caller's membership going through: JoinRoom answers
    NotFound when the lock is free and no room has the code; it answers
    Conflict when the room is not Waiting, when occupancy has reached
    MaxPlayers, or when the caller has an active membership in the room;
    whenever it succeeds, the room it returns has occupancy one higher
    and one membership row was added whose seat is the number of active
    memberships of the room before the join; the room read back from the
    store is the returned one if the store update went through, and if
    that update failed the rooms of the store are as they were, the room
    with the occupancy it had; and JoinRoom does succeed for a Waiting
    room with a free place and a new member when the lock is free and
    the count and the insert of the membership go through. *)
Theorem C4_JoinRoom s flt now userID roomCode w :
  flt LockAcquire = false → flt RoomGetByRoomCode = false →
  flt PlayerGetByRoomIDAndUserID = false →
  let rw := JoinRoom s flt now userID roomCode w in
  (redis.held now (rds w) (joinLock roomCode) = false →
   postgres.GetByRoomCode false (store w) roomCode = Ret None →
   rw.1 = Error ErrCodeNotFound) ∧
  (∀ room,
     postgres.GetByRoomCode false (store w) roomCode = Ret (Some room) →
     Status room ≠ RoomStatusWaiting ∨ MaxPlayers room ≤ CurrentPlayers room ∨
       is_Some (find (λ p, postgres.of_room_user (ID room) userID p && postgres.active p)
                  (postgres.room_players (store w))) →
     rw.1 = Error ErrCodeConflict) ∧
  (∀ r, rw.1 = Success r →
     ∃ room,
       postgres.GetByRoomCode false (store w) roomCode = Ret (Some room) ∧
       r = withCurrentPlayers (CurrentPlayers room + 1) room ∧
       postgres.room_players (store rw.2) =
         postgres.room_players (store w) ++
         [mkRoomPlayer (postgres.room_players_seq (store w) + 1) (ID room) userID false
            (Z.of_nat (length (filter (postgres.active_in (ID room))
                                 (postgres.room_players (store w)))))
            now None] ∧
       (flt RoomUpdate = false →
          postgres.GetByID false (store rw.2) (ID room) = Ret (Some r)) ∧
       (flt RoomUpdate = true →
          postgres.rooms (store rw.2) = postgres.rooms (store w) ∧
          postgres.GetByRoomCode false (store rw.2) roomCode = Ret (Some room))) ∧
  (redis.held now (rds w) (joinLock roomCode) = false →
   flt PlayerGetByRoomID = false → flt PlayerCreate = false →
   ∀ room,
     postgres.GetByRoomCode false (store w) roomCode = Ret (Some room) →
     Status room = RoomStatusWaiting → CurrentPlayers room < MaxPlayers room →
     postgres.GetByRoomIDAndUserID false (store w) (ID room) userID = Ret None →
     rw.1 = Success (withCurrentPlayers (CurrentPlayers room + 1) room)).
Proof.
  intros Hf0 Hf1 Hf2 rw. subst rw. unfold JoinRoom.
  destruct (locked_inv flt now (joinLock roomCode) (5 * redis.Second)
              (JoinRoom_locked s flt now userID roomCode) w)
    as [[Hf _]|[(_ & Hh & ->)|(_ & Hh & c1 & _ & _ & ->)]];
    [unfold redis.Second; lia|congruence|simpl..].
  - repeat split; try done; congruence.
  - set (wl := mkWorld (store w) c1 (bus w)).
    split; [|split; [|split]].
    + intros _ Hget. by rewrite JoinRoom_locked_NotFound.
    + intros room Hget Hcase. by rewrite (JoinRoom_locked_Conflict _ _ _ _ _ _ room).
    + intros r Hr.
      destruct (JoinRoom_locked s flt now userID roomCode wl) as [r' w'] eqn:Hb.
      simpl in Hr. subst r'.
      pose proof (JoinRoom_locked_Success_rooms _ _ _ _ _ _ _ _ Hb) as Hrooms.
      apply JoinRoom_locked_Success_inv in Hb as (room & Hget & _ & _ & ? & ? & ?).
      exists room. simpl. split; [done|]. split; [done|]. split; [done|].
      split; [done|]. intros Hu. specialize (Hrooms Hu). simpl in Hrooms.
      split; [done|]. unfold postgres.GetByRoomCode in *. by rewrite Hrooms.
    + intros _ Hf3 Hf4 room Hget Hst Hlt Hmem.
      by apply JoinRoom_locked_Success.
Qed.

(** User 3 joins the sample room of one at time 20. *)
Lemma C4_witness :
  ∃ room,
    postgres.GetByRoomCode false (store sample.created) "abcd0123" = Ret (Some room) ∧
    (JoinRoom sample.service no_faults 20 3 "abcd0123" sample.created).1 =
      Success (withCurrentPlayers (CurrentPlayers room + 1) room).
Proof.
  eexists. split; [reflexivity|].
  apply (C4_JoinRoom sample.service no_faults 20 3 "abcd0123" sample.created);
    reflexivity.
Defined.

(** C4, as stated, fails: when the update of the room fails, JoinRoom of
    user 2 into the sample room of one succeeds and returns occupancy 2,
    the room has two open memberships, and the store still has the room
    with occupancy 1. *)
Lemma C4_counterexample :
  let rw := JoinRoom sample.service (only RoomUpdate) 10 2 "abcd0123"
              sample.created in
  (CurrentPlayers <$> match rw.1 with Success r => Some r | Error _ => None end)
    = Some 2 ∧
  active_count (store rw.2) 1 = 2 ∧
  (CurrentPlayers <$> find (postgres.by_id 1) (postgres.rooms (store rw.2))) = Some 1 ∧
  ¬ join_counts_up sample.service (only RoomUpdate) 10 2 "abcd0123" sample.created.
Proof.
  intros rw. split; [by vm_compute|]. split; [by vm_compute|].
  split; [by vm_compute|].
  unfold join_counts_up. intros H.
  destruct (H (mkRoom 1 "abcd0123" "lobby" 1 RoomStatusWaiting 2 2 "chess" "{}"
                 None None (Some 1800000) None)) as (room & room' & H1 & H2 & H3);
    [by vm_compute|].
  vm_compute in H1. vm_compute in H2.
  injection H1 as <-. injection H2 as <-. simpl in H3. lia.
Qed.

(** ** CreateRoom *)

Lemma seq_ok_no_next db :
  seq_ok db → ∀ r, r ∈ postgres.rooms db →
  postgres.by_id (postgres.rooms_seq db + 1) r = false.
Proof.
  intros Hok r Hr. apply not_true_iff_false. rewrite by_id_true.
  intros [Hid _]. specialize (Hok r Hr). lia.
Qed.

(** The three ways through CreateRoom. *)
Lemma CreateRoom_cases s flt now rnd ownerID req w roomCode :
  generateRoomCode false rnd = Ret roomCode →
  let db := store w in
  let row := created_row s now roomCode ownerID req db in
  let db1 := postgres.mkDB (postgres.rooms db ++ [row]) (postgres.room_players db)
               (postgres.rooms_seq db + 1) (postgres.room_players_seq db) in
  let seat := mkRoomPlayer (postgres.room_players_seq db + 1) (ID row) ownerID
                false 0 now None in
  let db2 := postgres.mkDB (postgres.rooms db1) (postgres.room_players db ++ [seat])
               (postgres.rooms_seq db1) (postgres.room_players_seq db + 1) in
  let room := withCurrentPlayers 1 row in
  ((flt RandRead = true ∨ flt RoomCreate = true ∨ ¬ code_unused roomCode db) ∧
     CreateRoom s flt now rnd ownerID req w = (Error ErrCodeInternal, w)) ∨
  (flt RandRead = false ∧ flt RoomCreate = false ∧ code_unused roomCode db ∧
     flt PlayerCreate = true ∧
     CreateRoom s flt now rnd ownerID req w =
       (Error ErrCodeInternal,
        mkWorld (postgres.Delete (flt RoomDelete) now db1 (ID row)).2 (rds w) (bus w))) ∨
  (flt RandRead = false ∧ flt RoomCreate = false ∧ code_unused roomCode db ∧
     flt PlayerCreate = false ∧
     CreateRoom s flt now rnd ownerID req w =
       (Success room,
        mkWorld (postgres.Update (flt RoomUpdate) db2 room).2
          (syncRoomToRedis s flt now (rds w) room) (bus w))).
Proof.
  intros Hcode db row db1 seat db2 room.
  unfold CreateRoom.
  destruct (flt RandRead) eqn:Hf0; [left; auto|].
  rewrite Hcode. unfold postgres.Create.
  destruct (flt RoomCreate) eqn:Hf1; [left; auto|].
  simpl.
  destruct (existsb _ (postgres.rooms (store w))) eqn:Hex.
  { left. split; [|done]. right; right. unfold code_unused, db. by rewrite Hex. }
  right. unfold postgres.CreatePlayer.
  destruct (flt PlayerCreate) eqn:Hf2; [left|right]; repeat (split; [done|]); done.
Qed.

Lemma Delete_created_row now db row id' :
  seq_ok db → ID row = (postgres.rooms_seq db + 1)%N → DeletedAt row = None →
  postgres.GetByID false
    (postgres.Delete false now
       (postgres.mkDB (postgres.rooms db ++ [row]) (postgres.room_players db)
          (postgres.rooms_seq db + 1) (postgres.room_players_seq db)) (ID row)).2 id'
  = postgres.GetByID false db id'.
Proof.
  intros Hok Hid Hv. unfold postgres.GetByID, postgres.Delete. simpl. f_equal.
  rewrite map_app. simpl.
  assert (Hrow : postgres.by_id (ID row) row = true) by by apply by_id_true.
  rewrite Hrow.
  assert (Hold : map (λ r, if postgres.by_id (ID row) r
                           then withDeletedAt (Some now) r else r) (postgres.rooms db)
                 = postgres.rooms db).
  { rewrite <- (map_id (postgres.rooms db)) at 2. apply map_ext_in.
    intros r Hr%list_elem_of_In. rewrite Hid.
    by rewrite (seq_ok_no_next db Hok r Hr). }
  rewrite Hold.
  destruct (find (postgres.by_id id') (postgres.rooms db)) as [x|] eqn:Hfind.
  - by apply find_app_l.
  - rewrite find_app_r by done. simpl.
    replace (postgres.by_id id' (withDeletedAt (Some now) row)) with false; [done|].
    symmetry. apply not_true_iff_false. rewrite by_id_true. by intros [_ ?].
Qed.

Lemma save_created_row db row room :
  seq_ok db → ID row = (postgres.rooms_seq db + 1)%N → ID room = ID row →
  postgres.save room (postgres.rooms db ++ [row]) = postgres.rooms db ++ [room].
Proof.
  intros Hok Hid Hroom.
  assert (H : ∀ r, r ∈ postgres.rooms db → ID r ≠ ID room).
  { intros r Hr. specialize (Hok r Hr). lia. }
  induction (postgres.rooms db) as [|r rows IH]; simpl.
  - by rewrite bool_decide_eq_true_2.
  - rewrite bool_decide_eq_false_2 by (apply H, list_elem_of_here).
    f_equal. apply IH. intros r' Hr'. apply H. by apply list_elem_of_further.
Qed.

Lemma find_created_row db row :
  seq_ok db → ID row = (postgres.rooms_seq db + 1)%N → DeletedAt row = None →
  find (postgres.by_id (ID row)) (postgres.rooms db ++ [row]) = Some row.
Proof.
  intros Hok Hid Hv. rewrite find_app_r.
  - simpl. replace (postgres.by_id (ID row) row) with true; [done|].
    symmetry. by apply by_id_true.
  - apply find_none_iff. intros r Hr. rewrite Hid. by apply seq_ok_no_next.
Qed.

Lemma HSet_mirror now c key data :
  (∀ e, cache.peek now c key = Some e → ∃ h, cache.ent_val e = cache.VHash h) →
  ∃ h exp, cache.peek now (cache.HSet false now c key data).2 key
           = Some (cache.mkEntry (cache.VHash h) exp) ∧ data ⊆ h.
Proof.
  intros Hty. unfold cache.HSet.
  destruct (cache.peek now c key) as [[v exp]|] eqn:Hpeek.
  - destruct (Hty _ eq_refl) as [h Hh]. simpl in Hh. subst v. simpl.
    exists (data ∪ h), exp. rewrite peek_insert_eq. split; [|apply map_union_subseteq_l].
    unfold cache.peek in Hpeek. destruct (c !! key) as [e|]; [|done].
    destruct (cache.live now e) eqn:Hl; [|done]. injection Hpeek as ->.
    unfold cache.live in *. simpl in *. by rewrite Hl.
  - simpl. exists data, None. by rewrite peek_insert_eq.
Qed.

(** C3, as the code has it. With the id sequence ahead of the rows:
    a successful CreateRoom returns a room with the next id that is
    Waiting with occupancy 1, has added the owner's membership at seat 0,
    and has left that room in the store, Waiting, with occupancy 1 if the
    occupancy update went through and occupancy 0 if it failed; it has
    mirrored the room to the cache if the cache write went through and
    the key is free or a hash, and has left the cache as it was if the
    cache write failed. A failed CreateRoom reports Internal and leaves
    cache and memberships as they were. When the membership insert fails
    after the room insert, CreateRoom fails in that way; every read of a
    room is then as it was before if the rollback delete went through,
    and if the rollback delete failed too the room inserted stays in the
    store, Waiting with occupancy 0. CreateRoom succeeds whenever the
    code is fresh and the two inserts go through. *)
Theorem C3_CreateRoom_outcomes s flt now rnd ownerID req w roomCode :
  seq_ok (store w) →
  generateRoomCode false rnd = Ret roomCode →
  let rw := CreateRoom s flt now rnd ownerID req w in
  let id := (postgres.rooms_seq (store w) + 1)%N in
  (∀ room, rw.1 = Success room →
     ID room = id ∧ OwnerID room = ownerID ∧
     Status room = RoomStatusWaiting ∧ CurrentPlayers room = 1 ∧
     postgres.room_players (store rw.2) =
       postgres.room_players (store w) ++
       [mkRoomPlayer (postgres.room_players_seq (store w) + 1) id ownerID false 0 now None] ∧
     postgres.GetByID false (store rw.2) id
       = Ret (Some (if flt RoomUpdate then withCurrentPlayers 0 room else room)) ∧
     (flt CacheSetRoomState = false →
      (∀ e, cache.peek now (rds w) (redis.roomKey id) = Some e →
            ∃ h, cache.ent_val e = cache.VHash h) →
      mirrored now (rds rw.2) room) ∧
     (flt CacheSetRoomState = true → rds rw.2 = rds w)) ∧
  (∀ code, rw.1 = Error code →
     code = ErrCodeInternal ∧ rds rw.2 = rds w ∧
     postgres.room_players (store rw.2) = postgres.room_players (store w) ∧
     (flt RoomDelete = false →
      ∀ id', postgres.GetByID false (store rw.2) id' = postgres.GetByID false (store w) id')) ∧
  (flt RandRead = false → flt RoomCreate = false → code_unused roomCode (store w) →
   flt PlayerCreate = true →
   rw.1 = Error ErrCodeInternal ∧
   (flt RoomDelete = true →
    postgres.GetByID false (store rw.2) id
      = Ret (Some (created_row s now roomCode ownerID req (store w))) ∧
    Status (created_row s now roomCode ownerID req (store w)) = RoomStatusWaiting ∧
    CurrentPlayers (created_row s now roomCode ownerID req (store w)) = 0)) ∧
  (flt RandRead = false → flt RoomCreate = false → code_unused roomCode (store w) →
   flt PlayerCreate = false → ∃ room, rw.1 = Success room).
Proof.
  intros Hok Hcode rw id. subst rw.
  pose proof (CreateRoom_cases s flt now rnd ownerID req w roomCode Hcode) as Hc.
  simpl in Hc.
  set (row := created_row s now roomCode ownerID req (store w)) in *.
  assert (Hrid : ID row = id) by done.
  assert (Hrv : DeletedAt row = None).
  { unfold row, created_row. simpl. by destruct (maxPlayers s =? 0). }
  assert (Hrst : Status row = RoomStatusWaiting).
  { unfold row, created_row. simpl. by destruct (maxPlayers s =? 0). }
  assert (Hrcp : CurrentPlayers row = 0).
  { unfold row, created_row. simpl. by destruct (maxPlayers s =? 0). }
  assert (Hrback : withCurrentPlayers 0 (withCurrentPlayers 1 row) = row).
  { unfold row, created_row. simpl. by destruct (maxPlayers s =? 0). }
  destruct Hc as [[Hearly ->]|[(Hf0 & Hf1 & Hun & Hf2 & ->)|(Hf0 & Hf1 & Hun & Hf2 & ->)]];
    simpl.
  - split; [done|]. split; [by intros code [= <-]|].
    split; [|destruct Hearly as [?|[?|?]]; intros; congruence].
    destruct Hearly as [?|[?|?]]; intros; congruence.
  - split; [done|]. split; [|split; [|intros; congruence]].
    + intros code [= <-]. split; [done|]. split; [done|].
      split; [by rewrite Delete_room_players|].
      intros ->. intros id'. by apply Delete_created_row.
    + intros _ _ _ _. split; [done|]. intros ->. split; [|done].
      unfold postgres.GetByID, postgres.Delete. cbn [snd postgres.rooms].
      rewrite <- Hrid. f_equal. by apply find_created_row.
  - split; [|split; [done|split; [intros; congruence|eauto]]].
    intros room [= <-]. split; [done|].
    split; [unfold row, created_row; simpl; by destruct (maxPlayers s =? 0)|].
    split; [done|].
    split; [done|]. split; [by rewrite Update_room_players|].
    split; [|split].
    + rewrite Hrback. unfold postgres.GetByID, postgres.Update.
      destruct (flt RoomUpdate); simpl.
      * rewrite <- Hrid. f_equal. by apply find_created_row.
      * rewrite save_created_row by done. f_equal.
        apply (find_created_row (store w) (withCurrentPlayers 1 row)); done.
    + intros Hf Hty. unfold mirrored, syncRoomToRedis, redis.SetRoomState.
      rewrite Hf. simpl. by apply HSet_mirror.
    + intros Hf. unfold syncRoomToRedis, redis.SetRoomState, cache.HSet. by rewrite Hf.
Qed.

(** CreateRoom on the empty sample store, the membership insert failing. *)
Lemma C3_witness :
  (CreateRoom sample.service (only PlayerCreate) 0 (171, 205, 1, 35)%N 1
     sample.request sample.empty).1 = Error ErrCodeInternal.
Proof.
  apply (C3_CreateRoom_outcomes sample.service (only PlayerCreate) 0
           (171, 205, 1, 35)%N 1 sample.request sample.empty "abcd0123");
    try reflexivity.
  intros r Hr. by apply elem_of_nil in Hr.
Defined.

(** C3, as stated, fails: with the cache write failing, CreateRoom on the
    empty sample store succeeds and keeps the room, and nothing is
    mirrored; and with the membership insert and the rollback delete both
    failing, CreateRoom fails and the room it inserted stays readable. *)
Lemma C3_counterexample :
  ¬ all_or_nothing sample.service (only CacheSetRoomState) 0 (171, 205, 1, 35)%N 1
      sample.request sample.empty ∧
  ¬ all_or_nothing sample.service (either PlayerCreate RoomDelete) 0
      (171, 205, 1, 35)%N 1 sample.request sample.empty.
Proof.
  split.
  - unfold all_or_nothing. simpl.
    intros (_ & _ & _ & _ & h & exp & Hpeek & _).
    vm_compute in Hpeek. discriminate.
  - unfold all_or_nothing. intros H.
    assert (Herr : (CreateRoom sample.service (either PlayerCreate RoomDelete) 0
                      (171, 205, 1, 35)%N 1 sample.request sample.empty).1
                   = Error ErrCodeInternal) by (by vm_compute).
    cbv zeta in H. rewrite Herr in H. specialize (H 1%N).
    vm_compute in H. discriminate.
Qed.

(** ** The room that the last member leaves *)

Lemma retired_ext id db db' :
  postgres.rooms db' = postgres.rooms db →
  postgres.rooms_seq db' = postgres.rooms_seq db →
  retired id db → retired id db'.
Proof.
  unfold retired, seq_ok, gone. intros -> ->. done.
Qed.

Lemma elem_of_save r room rows :
  r ∈ postgres.save room rows → r = room ∨ r ∈ rows.
Proof.
  induction rows as [|a rows IH]; simpl.
  - intros ->%list_elem_of_singleton. by left.
  - case_bool_decide.
    + intros [->|?]%elem_of_cons; [by left|right; by apply list_elem_of_further].
    + intros [->|?]%elem_of_cons; [right; apply list_elem_of_here|].
      destruct IH as [?|?]; [done|by left|right; by apply list_elem_of_further].
Qed.

Lemma seq_ok_Update f db room :
  seq_ok db → (ID room ≤ postgres.rooms_seq db)%N →
  seq_ok (postgres.Update f db room).2.
Proof.
  intros Hok Hid. unfold postgres.Update. destruct f; [done|].
  intros r [->|Hr]%elem_of_save; simpl; [done|by apply Hok].
Qed.

Lemma retired_Update id f db room :
  retired id db → (ID room ≤ postgres.rooms_seq db)%N → ID room ≠ id →
  retired id (postgres.Update f db room).2.
Proof.
  intros (Hok & Hle & Hg) Hid Hne. split; [by apply seq_ok_Update|].
  rewrite Update_seq. split; [done|].
  unfold postgres.Update. destruct f; [done|].
  intros r [->|Hr]%elem_of_save; simpl; [done|by apply Hg].
Qed.

Lemma elem_of_Delete_rows now i r rows :
  r ∈ map (λ r, if postgres.by_id i r then withDeletedAt (Some now) r else r) rows →
  ∃ r0, r0 ∈ rows ∧ ID r = ID r0 ∧
        (r = r0 ∧ postgres.by_id i r0 = false ∨
         DeletedAt r ≠ None ∧ postgres.by_id i r0 = true).
Proof.
  intros [r0 [-> Hr0]]%list_elem_of_fmap. exists r0. split; [done|].
  destruct (postgres.by_id i r0); simpl; [|by auto].
  split; [done|]. right. done.
Qed.

Lemma seq_ok_Delete f now db i :
  seq_ok db → seq_ok (postgres.Delete f now db i).2.
Proof.
  intros Hok. unfold postgres.Delete. destruct f; [done|].
  intros r (r0 & Hr0 & Hid & _)%elem_of_Delete_rows. simpl. rewrite Hid. by apply Hok.
Qed.

Lemma retired_Delete id f now db i :
  retired id db → retired id (postgres.Delete f now db i).2.
Proof.
  intros (Hok & Hle & Hg). split; [by apply seq_ok_Delete|].
  rewrite Delete_seq. split; [done|].
  unfold postgres.Delete. destruct f; [done|].
  intros r (r0 & Hr0 & Hid & [[-> _]|[Hd _]])%elem_of_Delete_rows ?; [|done].
  by apply Hg.
Qed.

(** After the delete of [id] nothing is left to see under it. *)
Lemma gone_Delete now db id :
  gone id (postgres.Delete false now db id).2.
Proof.
  unfold postgres.Delete. simpl.
  intros r (r0 & Hr0 & Hid & [[-> Hb]|[Hd _]])%elem_of_Delete_rows Hr; [|done].
  intros Hv. apply not_true_iff_false in Hb. apply Hb. by apply by_id_true.
Qed.

Lemma gone_GetByID id db :
  gone id db → postgres.GetByID false db id = Ret None.
Proof.
  intros Hg. unfold postgres.GetByID. f_equal. apply find_none_iff.
  intros r Hr. apply not_true_iff_false. rewrite by_id_true.
  intros [Hid Hv]. by apply (Hg r Hr Hid).
Qed.

(** A visible row is not the retired one, and its id has been handed out. *)
Lemma retired_visible id db room :
  retired id db → room ∈ postgres.rooms db → DeletedAt room = None →
  (ID room ≤ postgres.rooms_seq db)%N ∧ ID room ≠ id.
Proof.
  intros (Hok & _ & Hg) Hr Hv. split; [by apply Hok|].
  intros Hid. by apply (Hg room Hr Hid).
Qed.

Lemma retired_Create id f db room :
  retired id db → retired id (postgres.Create f db room).2.
Proof.
  intros (Hok & Hle & Hg). unfold postgres.Create.
  destruct f; [done|]. destruct (existsb _ _); [done|]. simpl.
  split; [|split].
  - intros r [Hr| ->%list_elem_of_singleton]%elem_of_app; simpl.
    + specialize (Hok r Hr). lia.
    + destruct (MaxPlayers room =? 0); simpl; lia.
  - simpl. lia.
  - intros r [Hr| ->%list_elem_of_singleton]%elem_of_app Hid; simpl; [by apply Hg|].
    destruct (MaxPlayers room =? 0); simpl in Hid; lia.
Qed.

Lemma Create_inv f db room row db' :
  postgres.Create f db room = (Ret row, db') →
  ID row = (postgres.rooms_seq db + 1)%N ∧
  postgres.rooms_seq db' = (postgres.rooms_seq db + 1)%N.
Proof.
  unfold postgres.Create. destruct f; [done|]. destruct (existsb _ _); [done|].
  intros [= <- <-]. simpl. by destruct (MaxPlayers room =? 0).
Qed.

Lemma retired_CreatePlayer id f db p :
  retired id db → retired id (postgres.CreatePlayer f db p).2.
Proof. unfold postgres.CreatePlayer. destruct f; [done|]. by apply retired_ext. Qed.

Lemma retired_LeaveRoom id f now db roomID userID :
  retired id db → retired id (postgres.LeaveRoom f now db roomID userID).2.
Proof. unfold postgres.LeaveRoom. destruct f; [done|]. by apply retired_ext. Qed.

(** An operation under the lock keeps what its body keeps of the store. *)
Lemma locked_store_inv {A : Type} (P : postgres.DB → Prop) flt now k ttl
    (body : World → result A * World) w :
  0 ≤ ttl → P (store w) →
  (∀ w0, store w0 = store w → P (store (body w0).2)) →
  P (store (locked flt now k ttl body w).2).
Proof.
  intros Httl HP Hb.
  destruct (locked_inv flt now k ttl body w Httl)
    as [[_ ->]|[(_ & _ & ->)|(_ & _ & c1 & _ & _ & ->)]]; simpl; auto.
Qed.

Lemma retired_CreateRoom id s flt now rnd ownerID req w :
  retired id (store w) →
  retired id (store (CreateRoom s flt now rnd ownerID req w).2).
Proof.
  intros Hr. unfold CreateRoom.
  destruct (generateRoomCode _ _) as [code|]; [|done].
  destruct (postgres.Create _ _ _) as [[row|] db1] eqn:Hc; [|done].
  pose proof (retired_Create id (flt RoomCreate) (store w)
    (mkRoom 0 code (req_Name req) ownerID RoomStatusWaiting (maxPlayers s) 0
       (req_GameType req) (req_Settings req) None None
       (Some (now + defaultTimeout s)) None) Hr) as Hr1.
  rewrite Hc in Hr1. simpl in Hr1.
  apply Create_inv in Hc as [Hid Hseq].
  destruct (postgres.CreatePlayer _ _ _) as [[p|] db2] eqn:Hp; simpl.
  - apply retired_Update.
    + pose proof (retired_CreatePlayer id (flt PlayerCreate) db1
        (mkRoomPlayer 0 (ID row) ownerID false 0 now None) Hr1) as H.
      by rewrite Hp in H.
    + unfold postgres.CreatePlayer in Hp. destruct (flt PlayerCreate); [done|].
      injection Hp as _ <-. simpl. lia.
    + destruct Hr as (_ & Hle & _). simpl. lia.
  - by apply retired_Delete.
Qed.

Lemma retired_JoinRoom id s flt now userID roomCode w :
  retired id (store w) →
  retired id (store (JoinRoom s flt now userID roomCode w).2).
Proof.
  intros Hr. unfold JoinRoom.
  apply locked_store_inv; [unfold redis.Second; lia|done|].
  intros w0 Hw0. unfold JoinRoom_locked. rewrite Hw0.
  destruct (postgres.GetByRoomCode _ _ _) as [[room|]|] eqn:Hget; simpl; try (simpl; congruence).
  destruct (GetByRoomCode_visible _ _ _ _ Hget) as (Hin & _ & Hv).
  destruct (retired_visible id _ room Hr Hin Hv) as [Hle Hne].
  destruct (bool_decide _); [simpl; congruence|].
  destruct (_ <=? _); [simpl; congruence|].
  destruct (postgres.GetByRoomIDAndUserID _ _ _ _) as [[p|]|]; try (simpl; congruence).
  destruct (postgres.GetByRoomID _ _ _) as [players|]; [|simpl; congruence].
  destruct (postgres.CreatePlayer _ _ _) as [[p|] db1] eqn:Hp; [|simpl; congruence].
  simpl.
  pose proof (retired_CreatePlayer id (flt PlayerCreate) (store w)
    (mkRoomPlayer 0 (ID room) userID false (Z.of_nat (length players)) now None) Hr) as H.
  rewrite Hp in H. simpl in H.
  apply retired_Update; [done| |done].
  unfold postgres.CreatePlayer in Hp. destruct (flt PlayerCreate); [done|].
  by injection Hp as _ <-.
Qed.

Lemma retired_LeaveRoom_op id s flt now userID roomID w :
  retired id (store w) →
  retired id (store (LeaveRoom s flt now userID roomID w).2).
Proof.
  intros Hr. unfold LeaveRoom.
  apply locked_store_inv; [unfold redis.Second; lia|done|].
  intros w0 Hw0. unfold LeaveRoom_locked. rewrite Hw0.
  destruct (postgres.GetByID _ _ _) as [[room|]|] eqn:Hget; simpl; try (simpl; congruence).
  destruct (GetByID_visible _ _ _ _ Hget) as (Hin & _ & Hv).
  destruct (retired_visible id _ room Hr Hin Hv) as [Hle Hne].
  destruct (postgres.LeaveRoom _ _ _ _ _) as [[u|] db1] eqn:Hl; [|simpl; congruence].
  pose proof (retired_LeaveRoom id (flt PlayerLeaveRoom) now (store w) roomID userID Hr) as H.
  rewrite Hl in H. simpl in H.
  assert (Hseq : postgres.rooms_seq db1 = postgres.rooms_seq (store w)).
  { unfold postgres.LeaveRoom in Hl. destruct (flt PlayerLeaveRoom); [done|].
    by inversion Hl. }
  destruct (0 <? CurrentPlayers room).
  - destruct (_ =? 0); simpl.
    + apply retired_Delete, retired_Update; [done|simpl; by rewrite Hseq|done].
    + apply retired_Update; [done|simpl; by rewrite Hseq|done].
  - destruct (_ =? 0); simpl; [by apply retired_Delete|done].
Qed.

Lemma retired_StartGame id flt now roomID w :
  retired id (store w) →
  retired id (store (StartGame flt now roomID w).2).
Proof.
  intros Hr. unfold StartGame.
  apply locked_store_inv; [unfold redis.Second; lia|done|].
  intros w0 Hw0. unfold StartGame_locked. rewrite Hw0.
  destruct (postgres.GetByID _ _ _) as [[room|]|] eqn:Hget; simpl; try (simpl; congruence).
  destruct (GetByID_visible _ _ _ _ Hget) as (Hin & _ & Hv).
  destruct (retired_visible id _ room Hr Hin Hv) as [Hle Hne].
  destruct (bool_decide _); [simpl; congruence|].
  pose proof (retired_Update id (flt RoomUpdate) (store w)
    (withStartedAt (Some now) (withStatus RoomStatusPlaying room)) Hr Hle Hne) as H.
  destruct (postgres.Update _ _ _) as [[u|] db1]; simpl in *; [done|congruence].
Qed.

Lemma retired_EndGame id flt now roomID results w :
  retired id (store w) →
  retired id (store (EndGame flt now roomID results w).2).
Proof.
  intros Hr. unfold EndGame.
  apply locked_store_inv; [unfold redis.Second; lia|done|].
  intros w0 Hw0. unfold EndGame_locked. rewrite Hw0.
  destruct (postgres.GetByID _ _ _) as [[room|]|] eqn:Hget; simpl; try (simpl; congruence).
  destruct (GetByID_visible _ _ _ _ Hget) as (Hin & _ & Hv).
  destruct (retired_visible id _ room Hr Hin Hv) as [Hle Hne].
  pose proof (retired_Update id (flt RoomUpdate) (store w)
    (withEndedAt (Some now) (withStatus RoomStatusFinished room)) Hr Hle Hne) as H.
  destruct (postgres.Update _ _ _) as [[u|] db1]; simpl in *; [done|congruence].
Qed.

(** No operation brings a retired room back. *)
Lemma retired_step id op w :
  retired id (store w) → retired id (store (step op w)).
Proof.
  destruct op; simpl.
  - apply retired_CreateRoom.
  - apply retired_JoinRoom.
  - apply retired_LeaveRoom_op.
  - apply retired_StartGame.
  - apply retired_EndGame.
Qed.

Lemma retired_run id ops w :
  retired id (store w) → retired id (store (run ops w)).
Proof.
  revert w. induction ops as [|op ops IH]; intros w Hr; simpl; [done|].
  apply IH. by apply retired_step.
Qed.

Lemma elem_of_save_self room rows : room ∈ postgres.save room rows.
Proof.
  induction rows as [|a rows IH]; simpl.
  - apply list_elem_of_here.
  - case_bool_decide; [apply list_elem_of_here|by apply list_elem_of_further].
Qed.

Lemma LeaveRoom_locked_last s flt now userID roomID w room :
  flt RoomGetByID = false → flt PlayerLeaveRoom = false →
  postgres.GetByID false (store w) roomID = Ret (Some room) →
  CurrentPlayers room = 1 →
  LeaveRoom_locked s flt now userID roomID w =
    (Success tt,
     mkWorld
       (postgres.Delete (flt RoomDelete) now
          (postgres.Update (flt RoomUpdate)
             (postgres.LeaveRoom false now (store w) roomID userID).2
             (withCurrentPlayers 0 room)).2 roomID).2
       (redis.DeleteRoom (flt CacheDeleteRoom) (rds w) roomID).2
       (bus w)).
Proof.
  intros Hf1 Hf2 Hget Hocc. unfold LeaveRoom_locked.
  rewrite Hf1, Hget, Hf2. simpl. rewrite Hocc. done.
Qed.

Lemma ReleaseLock_keeps_none f c k key :
  c !! key = None → (redis.ReleaseLock f c k).2 !! key = None.
Proof.
  intros H. unfold redis.ReleaseLock, cache.Del. destruct f; [done|]. simpl.
  rewrite lookup_delete. by case_decide.
Qed.

(** ** Occupancy and memberships *)

Lemma count_app roomID (l : list RoomPlayer) p :
  length (filter (postgres.active_in roomID) (l ++ [p])) =
  (length (filter (postgres.active_in roomID) l) +
   (if decide (postgres.active_in roomID p) then 1 else 0))%nat.
Proof.
  rewrite filter_app, length_app. f_equal.
  rewrite filter_cons, filter_nil. by case_decide.
Qed.

Lemma member_app roomID userID (l : list RoomPlayer) p :
  length (filter (member roomID userID) (l ++ [p])) =
  (length (filter (member roomID userID) l) +
   (if decide (member roomID userID p) then 1 else 0))%nat.
Proof.
  rewrite filter_app, length_app. f_equal.
  rewrite filter_cons, filter_nil. by case_decide.
Qed.

(** Closing the memberships of a user in a room leaves the other rooms'
    active memberships as they were. *)
Lemma count_stamp_other now roomID userID r (l : list RoomPlayer) :
  r ≠ roomID →
  length (filter (postgres.active_in r) (map (postgres.stamp now roomID userID) l)) =
  length (filter (postgres.active_in r) l).
Proof.
  intros Hne. induction l as [|p l IH]; [done|]. simpl.
  destruct (stamp_cases now roomID userID p) as [[[Hr _] ->]|[_ ->]].
  - rewrite !filter_cons.
    rewrite !decide_False; [done|..]; unfold postgres.active_in; simpl; intros [? _]; congruence.
  - rewrite !filter_cons.
    destruct (decide (postgres.active_in r p)); simpl; by rewrite IH.
Qed.

(** In the room itself exactly the user's active memberships go. *)
Lemma count_stamp_room now roomID userID (l : list RoomPlayer) :
  (length (filter (postgres.active_in roomID) (map (postgres.stamp now roomID userID) l)) +
   length (filter (member roomID userID) l))%nat =
  length (filter (postgres.active_in roomID) l).
Proof.
  induction l as [|p l IH]; [done|]. simpl.
  destruct (stamp_cases now roomID userID p) as [[[Hr Hu] ->]|[Hp ->]].
  - rewrite !filter_cons.
    rewrite (decide_False (P := postgres.active_in roomID (withLeftAt (Some now) p)))
      by (by intros [_ ?]).
    destruct (decide (member roomID userID p)) as [Hm|Hm];
      destruct (decide (postgres.active_in roomID p)) as [Ha|Ha]; simpl.
    + lia.
    + destruct Ha. destruct Hm as (? & ? & ?). by split.
    + destruct Hm. destruct Ha. by repeat split.
    + lia.
  - rewrite !filter_cons.
    rewrite (decide_False (P := member roomID userID p)).
    + destruct (decide (postgres.active_in roomID p)); simpl; lia.
    + intros (Hr & Hu & _). by apply Hp.
Qed.

Lemma member_stamp_le now roomID userID r u (l : list RoomPlayer) :
  (length (filter (member r u) (map (postgres.stamp now roomID userID) l)) ≤
   length (filter (member r u) l))%nat.
Proof.
  induction l as [|p l IH]; [done|]. simpl.
  destruct (stamp_cases now roomID userID p) as [[_ ->]|[_ ->]].
  - rewrite !filter_cons.
    rewrite (decide_False (P := member r u (withLeftAt (Some now) p)))
      by (by intros (_ & _ & ?)).
    destruct (decide (member r u p)); simpl; lia.
  - rewrite !filter_cons.
    destruct (decide (member r u p)); simpl; lia.
Qed.

(** What the membership read of JoinRoom says about the count. *)
Lemma find_member_None roomID userID (l : list RoomPlayer) :
  find (λ p, postgres.of_room_user roomID userID p && postgres.active p) l = None →
  length (filter (member roomID userID) l) = 0%nat.
Proof.
  rewrite find_none_iff. intros H.
  induction l as [|p l IH]; [done|].
  rewrite filter_cons, decide_False.
  - apply IH. intros x Hx. apply H. by apply list_elem_of_further.
  - intros (Hr & Hu & Hl).
    specialize (H p (list_elem_of_here _ _)).
    apply not_true_iff_false in H. apply H.
    apply andb_true_iff. split; [by apply of_room_user_true|].
    unfold postgres.active. by apply bool_decide_eq_true.
Qed.

Lemma find_member_Some roomID userID (l : list RoomPlayer) p :
  find (λ p, postgres.of_room_user roomID userID p && postgres.active p) l = Some p →
  (1 ≤ length (filter (member roomID userID) l))%nat.
Proof.
  intros [Hin Hp]%find_some_elem.
  apply andb_true_iff in Hp as [[Hr Hu]%of_room_user_true Ha].
  unfold postgres.active in Ha. apply bool_decide_eq_true in Ha.
  assert (Hm : p ∈ filter (member roomID userID) l).
  { apply list_elem_of_filter. split; [|done]. by repeat split. }
  destruct (filter (member roomID userID) l); [by apply elem_of_nil in Hm|simpl; lia].
Qed.

(** [save] of a row whose id is in the table keeps the ids. *)
Lemma save_ids room rows :
  ID room ∈ (ID <$> rows) → ID <$> postgres.save room rows = ID <$> rows.
Proof.
  induction rows as [|r rows IH]; simpl.
  - intros H. by apply elem_of_nil in H.
  - case_bool_decide as Hid; simpl.
    + intros _. by rewrite Hid.
    + intros [?|?]%elem_of_cons; [congruence|]. f_equal. by apply IH.
Qed.

(** With unique ids, the rows after [save] are the saved one and those of
    other ids. *)
Lemma elem_of_save_unique r room rows :
  NoDup (ID <$> rows) → ID room ∈ (ID <$> rows) →
  r ∈ postgres.save room rows → r = room ∨ (r ∈ rows ∧ ID r ≠ ID room).
Proof.
  induction rows as [|a rows IH]; simpl.
  - intros _ H. by apply elem_of_nil in H.
  - intros [Ha Hnd]%NoDup_cons Hin.
    case_bool_decide as Hid.
    + intros [->|Hr]%elem_of_cons; [by left|]. right.
      split; [by apply list_elem_of_further|].
      intros Heq. apply Ha. rewrite Hid, <- Heq. by apply list_elem_of_fmap_2.
    + apply elem_of_cons in Hin as [?|Hin]; [congruence|].
      intros [->|Hr]%elem_of_cons.
      * right. split; [apply list_elem_of_here|done].
      * destruct (IH Hnd Hin Hr) as [?|[? ?]]; [by left|right].
        split; [by apply list_elem_of_further|done].
Qed.

Lemma count_none roomID (l : list RoomPlayer) :
  (∀ p, p ∈ l → RoomID p ≠ roomID) →
  length (filter (postgres.active_in roomID) l) = 0%nat.
Proof.
  intros H. induction l as [|p l IH]; [done|].
  rewrite filter_cons, decide_False.
  - apply IH. intros x Hx. apply H. by apply list_elem_of_further.
  - intros [Hr _]. by apply (H p (list_elem_of_here _ _)).
Qed.

Lemma member_none roomID userID (l : list RoomPlayer) :
  (∀ p, p ∈ l → RoomID p ≠ roomID) →
  length (filter (member roomID userID) l) = 0%nat.
Proof.
  intros H. induction l as [|p l IH]; [done|].
  rewrite filter_cons, decide_False.
  - apply IH. intros x Hx. apply H. by apply list_elem_of_further.
  - intros [Hr _]. by apply (H p (list_elem_of_here _ _)).
Qed.

(** Rewriting one room's row together with the membership table keeps
    the store sound when the other rooms' memberships stay and the new
    counter is the new number of active memberships. *)
Lemma sound_rewrite db players' pseq' room room' :
  sound db →
  room ∈ postgres.rooms db → ID room' = ID room →
  (∀ p, p ∈ players' → (RoomID p ≤ postgres.rooms_seq db)%N) →
  (∀ r u, (length (filter (member r u) players') ≤ 1)%nat) →
  (∀ r, r ≠ ID room →
     length (filter (postgres.active_in r) players') =
     length (filter (postgres.active_in r) (postgres.room_players db))) →
  (DeletedAt room' = None →
     CurrentPlayers room' = Z.of_nat (length (filter (postgres.active_in (ID room)) players'))) →
  sound (postgres.mkDB (postgres.save room' (postgres.rooms db)) players'
           (postgres.rooms_seq db) pseq').
Proof.
  intros (Hok & Hnd & Hpl & Hsingle & Hocc) Hin Hid Hpl' Hsingle' Hother Hroom.
  assert (Hids : ID room' ∈ ID <$> postgres.rooms db).
  { rewrite Hid. by apply list_elem_of_fmap_2. }
  split; [|split; [|split; [|split]]]; simpl.
  - intros r [->|Hr]%elem_of_save; simpl; [rewrite Hid|]; by apply Hok.
  - by rewrite save_ids.
  - done.
  - done.
  - intros r Hr Hv. simpl in *. unfold active_count. simpl.
    destruct (elem_of_save_unique r room' _ Hnd Hids Hr) as [->|[Hr0 Hne]].
    + rewrite Hid. by apply Hroom.
    + rewrite Hother by congruence. by apply Hocc.
Qed.

Lemma Delete_ids now id (rows : list Room) :
  ID <$> map (λ r, if postgres.by_id id r then withDeletedAt (Some now) r else r) rows
  = ID <$> rows.
Proof.
  induction rows as [|r rows IH]; csimpl; [done|].
  f_equal; [by destruct (postgres.by_id id r)|done].
Qed.

Lemma sound_Delete f now db id :
  sound db → sound (postgres.Delete f now db id).2.
Proof.
  intros (Hok & Hnd & Hpl & Hsingle & Hocc).
  split; [by apply seq_ok_Delete|].
  unfold postgres.Delete. destruct f; [done|]. simpl.
  split; [|split; [done|split; [done|]]].
  - replace (ID <$> map _ (postgres.rooms db)) with (ID <$> postgres.rooms db); [done|].
    symmetry. apply Delete_ids.
  - intros r (r0 & Hr0 & Hid & [[-> _]|[Hd _]])%elem_of_Delete_rows Hv; [|done].
    by apply Hocc.
Qed.

(** Inserting a room with counter 0 keeps the store sound: no membership
    points at the new id yet. *)
Lemma sound_Create f db room :
  sound db → CurrentPlayers room = 0 → sound (postgres.Create f db room).2.
Proof.
  intros (Hok & Hnd & Hpl & Hsingle & Hocc) Hzero. unfold postgres.Create.
  destruct f; [done|]. destruct (existsb _ _); [done|]. simpl.
  set (row := withID _ _).
  assert (Hid : ID row = (postgres.rooms_seq db + 1)%N) by done.
  assert (Hcnt : CurrentPlayers row = 0).
  { unfold row. simpl. by destruct (MaxPlayers room =? 0). }
  split; [|split; [|split; [|split]]]; simpl.
  - intros r [Hr| ->%list_elem_of_singleton]%elem_of_app; simpl.
    + specialize (Hok r Hr). lia.
    + lia.
  - rewrite fmap_app. apply NoDup_app. split; [done|]. split.
    + intros i [r [-> Hr]]%list_elem_of_fmap [= Heq]%list_elem_of_singleton.
      specialize (Hok r Hr). lia.
    + apply NoDup_singleton.
  - intros p Hp. specialize (Hpl p Hp). lia.
  - done.
  - intros r [Hr| ->%list_elem_of_singleton]%elem_of_app Hv.
    + by apply Hocc.
    + rewrite Hcnt. unfold active_count. simpl. rewrite count_none; [done|].
      intros p Hp. specialize (Hpl p Hp). lia.
Qed.

Lemma sound_ext db db' :
  postgres.rooms db' = postgres.rooms db →
  postgres.room_players db' = postgres.room_players db →
  postgres.rooms_seq db' = postgres.rooms_seq db →
  sound db → sound db'.
Proof.
  unfold sound, seq_ok, occupancy_matches, active_count, member_count.
  intros -> -> ->. done.
Qed.

Lemma RoomID_stamp now roomID userID p :
  RoomID (postgres.stamp now roomID userID p) = RoomID p.
Proof. unfold postgres.stamp. by destruct (postgres.of_room_user _ _ _). Qed.

(** StartGame and EndGame keep the store sound, whatever fails. *)
Lemma sound_StartGame flt now roomID w :
  sound (store w) → sound (store (StartGame flt now roomID w).2).
Proof.
  intros Hs. unfold StartGame.
  apply locked_store_inv; [unfold redis.Second; lia|done|].
  intros w0 Hw0. unfold StartGame_locked. rewrite Hw0.
  destruct (postgres.GetByID _ _ _) as [[room|]|] eqn:Hget; try (simpl; congruence).
  destruct (GetByID_visible _ _ _ _ Hget) as (Hin & _ & Hv).
  destruct (bool_decide _); [simpl; congruence|].
  unfold postgres.Update. destruct (flt RoomUpdate); [simpl; congruence|]. simpl.
  pose proof Hs as (_ & _ & Hpl & Hsingle & Hocc).
  apply (sound_rewrite (store w) _ _ room); try done.
  intros _. simpl. by apply Hocc.
Qed.

Lemma sound_EndGame flt now roomID results w :
  sound (store w) → sound (store (EndGame flt now roomID results w).2).
Proof.
  intros Hs. unfold EndGame.
  apply locked_store_inv; [unfold redis.Second; lia|done|].
  intros w0 Hw0. unfold EndGame_locked. rewrite Hw0.
  destruct (postgres.GetByID _ _ _) as [[room|]|] eqn:Hget; try (simpl; congruence).
  destruct (GetByID_visible _ _ _ _ Hget) as (Hin & _ & Hv).
  unfold postgres.Update. destruct (flt RoomUpdate); [simpl; congruence|]. simpl.
  pose proof Hs as (_ & _ & Hpl & Hsingle & Hocc).
  apply (sound_rewrite (store w) _ _ room); try done.
  intros _. simpl. by apply Hocc.
Qed.

(** JoinRoom keeps the store sound when its update of the room goes
    through. *)
Lemma sound_JoinRoom s flt now userID roomCode w :
  sound (store w) → flt RoomUpdate = false →
  sound (store (JoinRoom s flt now userID roomCode w).2).
Proof.
  intros Hs Hupd. unfold JoinRoom.
  apply locked_store_inv; [unfold redis.Second; lia|done|].
  intros w0 Hw0. unfold JoinRoom_locked. rewrite Hw0.
  destruct (postgres.GetByRoomCode _ _ _) as [[room|]|] eqn:Hget; try (simpl; congruence).
  destruct (GetByRoomCode_visible _ _ _ _ Hget) as (Hin & _ & Hv).
  destruct (bool_decide _); [simpl; congruence|].
  destruct (_ <=? _); [simpl; congruence|].
  unfold postgres.GetByRoomIDAndUserID.
  destruct (flt PlayerGetByRoomIDAndUserID); [simpl; congruence|].
  destruct (find _ (postgres.room_players _)) as [p|] eqn:Hmem; [simpl; congruence|].
  apply find_member_None in Hmem.
  unfold postgres.GetByRoomID. destruct (flt PlayerGetByRoomID); [simpl; congruence|].
  unfold postgres.CreatePlayer. destruct (flt PlayerCreate); [simpl; congruence|].
  unfold postgres.Update. rewrite Hupd. simpl.
  pose proof Hs as (Hok & _ & Hpl & Hsingle & Hocc).
  apply (sound_rewrite (store w) _ _ room); try done.
  - intros p [Hp| ->%list_elem_of_singleton]%elem_of_app; [by apply Hpl|].
    simpl. by apply Hok.
  - intros r u. rewrite member_app. case_decide as Hm;
      [|specialize (Hsingle r u); unfold member_count in Hsingle; lia].
    destruct Hm as (Hr & Hu & _). simpl in Hr, Hu. subst r u. by rewrite Hmem.
  - intros r Hne. rewrite count_app, decide_False; [lia|].
    intros [Hr _]. simpl in Hr. congruence.
  - intros _. simpl. rewrite count_app, decide_True by done.
    rewrite (Hocc room Hin Hv). unfold active_count. lia.
Qed.

(** LeaveRoom keeps the store sound when the caller has an active
    membership in the room and the update of the room goes through. *)
Lemma sound_LeaveRoom s flt now userID roomID w :
  sound (store w) → flt RoomUpdate = false →
  (1 ≤ member_count (store w) roomID userID)%nat →
  sound (store (LeaveRoom s flt now userID roomID w).2).
Proof.
  intros Hs Hupd Hmem. unfold LeaveRoom.
  apply locked_store_inv; [unfold redis.Second; lia|done|].
  intros w0 Hw0. unfold LeaveRoom_locked. rewrite Hw0.
  destruct (postgres.GetByID _ _ _) as [[room|]|] eqn:Hget; try (simpl; congruence).
  destruct (GetByID_visible _ _ _ _ Hget) as (Hin & Hid & Hv).
  unfold postgres.LeaveRoom. destruct (flt PlayerLeaveRoom); [simpl; congruence|].
  pose proof Hs as (Hok & _ & Hpl & Hsingle & Hocc).
  pose proof (count_stamp_room now roomID userID (postgres.room_players (store w))) as Hcnt.
  assert (Hone : length (filter (member roomID userID) (postgres.room_players (store w))) = 1%nat).
  { specialize (Hsingle roomID userID). unfold member_count in *. lia. }
  assert (Hc : CurrentPlayers room =
               Z.of_nat (length (filter (postgres.active_in roomID)
                                   (map (postgres.stamp now roomID userID)
                                      (postgres.room_players (store w))))) + 1).
  { rewrite (Hocc room Hin Hv). unfold active_count. rewrite Hid. lia. }
  destruct (Z.ltb_spec 0 (CurrentPlayers room)); [|lia].
  unfold postgres.Update. rewrite Hupd. cbn [snd fst].
  assert (Hfinal : sound
    (postgres.mkDB
       (postgres.save (withCurrentPlayers (CurrentPlayers room - 1) room)
          (postgres.rooms (store w)))
       (map (postgres.stamp now roomID userID) (postgres.room_players (store w)))
       (postgres.rooms_seq (store w)) (postgres.room_players_seq (store w)))).
  { apply (sound_rewrite (store w) _ _ room); try done.
    - intros p [p0 [-> Hp0]]%list_elem_of_fmap. rewrite RoomID_stamp. by apply Hpl.
    - intros r u. etrans; [apply member_stamp_le|apply Hsingle].
    - intros r Hne. apply count_stamp_other. congruence.
    - intros _. simpl. rewrite Hid. lia. }
  destruct (_ =? 0); cbn [snd fst store]; [by apply sound_Delete|done].
Qed.

(** CreateRoom keeps the store sound when its update of the room goes
    through. *)
Lemma sound_CreateRoom s flt now rnd ownerID req w :
  sound (store w) → flt RoomUpdate = false →
  sound (store (CreateRoom s flt now rnd ownerID req w).2).
Proof.
  intros Hs Hupd. unfold CreateRoom.
  destruct (generateRoomCode _ _) as [code|]; [|done].
  set (room0 := mkRoom 0 code _ _ _ _ _ _ _ _ _ _ _).
  pose proof (sound_Create (flt RoomCreate) (store w) room0 Hs eq_refl) as Hs1.
  destruct (postgres.Create _ _ _) as [[row|] db1] eqn:Hc; [|done].
  simpl in Hs1.
  assert (Hrow : row ∈ postgres.rooms db1 ∧ CurrentPlayers row = 0 ∧
                 ∀ p, p ∈ postgres.room_players db1 → RoomID p ≠ ID row).
  { unfold postgres.Create in Hc. destruct (flt RoomCreate); [done|].
    destruct (existsb _ _); [done|]. injection Hc as <- <-. simpl.
    split; [apply elem_of_app; right; apply list_elem_of_here|].
    split; [by destruct (maxPlayers s =? 0)|].
    intros p Hp. destruct Hs as (_ & _ & Hpl & _). specialize (Hpl p Hp).
    destruct (maxPlayers s =? 0); simpl; lia. }
  destruct Hrow as (Hin & Hzero & Hnone).
  unfold postgres.CreatePlayer. destruct (flt PlayerCreate); cbn [fst snd store].
  { by apply sound_Delete. }
  unfold postgres.Update. rewrite Hupd. cbn [fst snd postgres.rooms
    postgres.room_players postgres.rooms_seq postgres.room_players_seq].
  pose proof Hs1 as (Hok & _ & Hpl & Hsingle & Hocc).
  apply (sound_rewrite db1 _ _ row); try done.
  - intros p [Hp| ->%list_elem_of_singleton]%elem_of_app; [by apply Hpl|].
    simpl. by apply Hok.
  - intros r u. rewrite member_app. case_decide as Hm;
      [|specialize (Hsingle r u); unfold member_count in Hsingle; lia].
    destruct Hm as (Hr & _ & _). simpl in Hr. subst r.
    rewrite member_none by done. lia.
  - intros r Hne. rewrite count_app, decide_False; [lia|].
    intros [Hr _]. simpl in Hr. congruence.
  - intros _. simpl. rewrite count_app, decide_True by done.
    rewrite count_none by done. lia.
Qed.

Lemma sound_empty : sound (store sample.empty).
Proof.
  split; [|split; [|split; [|split]]]; simpl.
  - intros r Hr. by apply elem_of_nil in Hr.
  - apply NoDup_nil_2.
  - intros p Hp. by apply elem_of_nil in Hp.
  - intros r u. unfold member_count. simpl. lia.
  - intros r Hr. by apply elem_of_nil in Hr.
Qed.

(** Every regular call keeps the store sound, and with it the equality
    of each visible room's counter and the number of its active
    memberships. *)
Lemma sound_step op w :
  sound (store w) → regular op w → sound (store (step op w)).
Proof.
  destruct op; simpl; intros Hs Hreg.
  - by apply sound_CreateRoom.
  - by apply sound_JoinRoom.
  - destruct Hreg. by apply sound_LeaveRoom.
  - by apply sound_StartGame.
  - by apply sound_EndGame.
Qed.

(** C1 at its failing input. In the sample room with members 1 and 2 the
    counter matches; user 3, who is no member, calls LeaveRoom; the call
    succeeds, no membership is closed, and the counter of the room drops
    to 1 while two memberships are active. *)
Theorem C1_LeaveRoom_by_non_member_breaks_occupancy :
  let w := sample.joined in
  let rw := LeaveRoom sample.service no_faults 30 3 1 w in
  occupancy_matches (store w) ∧
  active_count (store w) 1 = 2 ∧
  postgres.GetByRoomIDAndUserID false (store w) 1 3 = Ret None ∧
  rw.1 = Success tt ∧
  active_count (store rw.2) 1 = 2 ∧
  (CurrentPlayers <$> find (postgres.by_id 1) (postgres.rooms (store rw.2))) = Some 1 ∧
  ¬ occupancy_matches (store rw.2).
Proof.
  intros w rw. split; [|repeat split].
  - intros room [->|Hr%elem_of_nil]%elem_of_cons; [|done]. reflexivity.
  - intros H.
    specialize (H (mkRoom 1 "abcd0123" "lobby" 1 RoomStatusWaiting 2 1 "chess" "{}"
                     None None (Some 1800000) None)).
    assert (Hc : (1 : Z) = 2); [|discriminate Hc].
    apply H; [|reflexivity]. vm_compute. apply list_elem_of_here.
Qed.

(** ** The status of a room *)

(** EndGame does not look at the status: whatever it is, the room is
    Finished afterwards. *)
Lemma EndGame_any_status flt now roomID results w room :
  flt LockAcquire = false → flt RoomGetByID = false → flt RoomUpdate = false →
  redis.held now (rds w) (gameLock roomID) = false →
  postgres.GetByID false (store w) roomID = Ret (Some room) →
  (EndGame flt now roomID results w).1 = Success tt ∧
  postgres.GetByID false (store (EndGame flt now roomID results w).2) roomID =
    Ret (Some (withEndedAt (Some now) (withStatus RoomStatusFinished room))).
Proof.
  intros Hf0 Hf1 Hf2 Hfree Hget. unfold EndGame.
  destruct (locked_inv flt now (gameLock roomID) (10 * redis.Second)
              (EndGame_locked flt now roomID results) w)
    as [[Hf _]|[(_ & Hh & _)|(_ & _ & c1 & _ & _ & ->)]];
    [unfold redis.Second; lia|congruence..|].
  destruct (GetByID_visible _ _ _ _ Hget) as (_ & Hid & Hv).
  unfold EndGame_locked. cbn [store]. rewrite Hf1, Hget.
  unfold postgres.Update. rewrite Hf2. cbn [fst snd store]. split; [done|].
  unfold postgres.GetByID. cbn [postgres.rooms]. f_equal. rewrite <- Hid.
  by apply (find_save_eq (withEndedAt (Some now) (withStatus RoomStatusFinished room))).
Qed.

(** C5 at its failing input. EndGame has no check of the status: called
    on the cancelled sample room it succeeds and the room is Finished,
    which is no allowed move; called on the freshly created room, still
    Waiting, it makes it Finished as well. *)
Theorem C5_EndGame_leaves_terminal_status :
  (Status <$> find (postgres.by_id 1) (postgres.rooms (store sample.cancelled)))
    = Some RoomStatusCancelled ∧
  (EndGame no_faults 60 1 ∅ sample.cancelled).1 = Success tt ∧
  (Status <$> find (postgres.by_id 1)
                (postgres.rooms (store (EndGame no_faults 60 1 ∅ sample.cancelled).2)))
    = Some RoomStatusFinished ∧
  ¬ forward RoomStatusCancelled RoomStatusFinished ∧
  (Status <$> find (postgres.by_id 1) (postgres.rooms (store sample.created)))
    = Some RoomStatusWaiting ∧
  (Status <$> find (postgres.by_id 1)
                (postgres.rooms (store (EndGame no_faults 60 1 ∅ sample.created).2)))
    = Some RoomStatusFinished ∧
  ¬ forward RoomStatusWaiting RoomStatusFinished.
Proof.
  repeat split; intros H; inversion H.
Qed.

(** *** What the other operations do to the status *)

(** With unique ids, a visible row is what a read by its id returns. *)
Lemma find_unique rows room :
  NoDup (ID <$> rows) → room ∈ rows → DeletedAt room = None →
  find (postgres.by_id (ID room)) rows = Some room.
Proof.
  intros Hnd Hin Hv. induction rows as [|a rows IH]; [by apply elem_of_nil in Hin|].
  csimpl in Hnd. apply NoDup_cons in Hnd as [Ha Hnd]. simpl.
  apply elem_of_cons in Hin as [<-|Hin].
  - replace (postgres.by_id (ID room) room) with true; [done|].
    symmetry. by apply by_id_true.
  - replace (postgres.by_id (ID room) a) with false; [by apply IH|].
    symmetry. apply not_true_iff_false. rewrite by_id_true. intros [Hid _].
    apply Ha. rewrite Hid. by apply list_elem_of_fmap_2.
Qed.

Lemma find_save_cases id room' rows r' :
  DeletedAt room' = None →
  find (postgres.by_id id) (postgres.save room' rows) = Some r' →
  (ID room' = id ∧ r' = room') ∨
  (ID room' ≠ id ∧ find (postgres.by_id id) rows = Some r').
Proof.
  intros Hv. destruct (decide (ID room' = id)) as [<-|Hne].
  - rewrite find_save_eq by done. intros [= <-]. by left.
  - rewrite find_save_ne by done. by right.
Qed.

Lemma find_Delete_inv now id0 id rows r' :
  NoDup (ID <$> rows) →
  find (postgres.by_id id)
    (map (λ r, if postgres.by_id id0 r then withDeletedAt (Some now) r else r) rows)
  = Some r' →
  find (postgres.by_id id) rows = Some r'.
Proof.
  intros Hnd [Hin [Hid Hv]%by_id_true]%find_some_elem.
  apply elem_of_Delete_rows in Hin as (r0 & Hr0 & _ & [[-> _]|[Hd _]]); [|done].
  rewrite <- Hid. by apply find_unique.
Qed.

Lemma status_related_refl Q db :
  (∀ st, Q st st) → status_related Q db db.
Proof. intros HQ id r r' -> [= <-]. apply HQ. Qed.

Lemma status_save Q db room room' players' pseq' :
  (∀ st, Q st st) →
  NoDup (ID <$> postgres.rooms db) →
  room ∈ postgres.rooms db → DeletedAt room = None →
  ID room' = ID room → DeletedAt room' = None →
  Q (Status room) (Status room') →
  status_related Q db
    (postgres.mkDB (postgres.save room' (postgres.rooms db)) players'
       (postgres.rooms_seq db) pseq').
Proof.
  intros HQ Hnd Hin Hv Hid Hv' Hst id r r' Hr Hr'. simpl in Hr'.
  destruct (find_save_cases _ _ _ _ Hv' Hr') as [[<- ->]|[_ Hr'']].
  - rewrite Hid, (find_unique _ room) in Hr by done. by injection Hr as <-.
  - rewrite Hr in Hr''. injection Hr'' as <-. apply HQ.
Qed.

Lemma status_Delete Q db0 db f now id :
  NoDup (ID <$> postgres.rooms db) →
  status_related Q db0 db → status_related Q db0 (postgres.Delete f now db id).2.
Proof.
  intros Hnd Hrel. unfold postgres.Delete. destruct f; [done|].
  intros i r r' Hr Hr'. simpl in Hr'. apply find_Delete_inv in Hr'; [|done].
  by apply (Hrel i).
Qed.

Lemma status_StartGame flt now roomID w :
  sound (store w) →
  status_related forward (store w) (store (StartGame flt now roomID w).2).
Proof.
  intros (_ & Hnd & _). unfold StartGame.
  apply locked_store_inv;
    [unfold redis.Second; lia|apply status_related_refl, forward_stay|].
  intros w0 Hw0. unfold StartGame_locked. rewrite Hw0.
  assert (Hsame : status_related forward (store w) (store w0)).
  { rewrite Hw0. apply status_related_refl, forward_stay. }
  destruct (postgres.GetByID _ _ _) as [[room|]|] eqn:Hget; try done.
  destruct (GetByID_visible _ _ _ _ Hget) as (Hin & _ & Hv).
  case_bool_decide as Hst; [done|].
  unfold postgres.Update. destruct (flt RoomUpdate); [done|]. simpl.
  apply (status_save forward (store w) room); try done; [apply forward_stay|].
  simpl. destruct (decide (Status room = RoomStatusWaiting)) as [->|?];
    [apply forward_start|by destruct Hst].
Qed.

Lemma status_JoinRoom s flt now userID roomCode w :
  sound (store w) →
  status_related eq (store w) (store (JoinRoom s flt now userID roomCode w).2).
Proof.
  intros (_ & Hnd & _). unfold JoinRoom.
  apply locked_store_inv; [unfold redis.Second; lia|by apply status_related_refl|].
  intros w0 Hw0. unfold JoinRoom_locked. rewrite Hw0.
  assert (Hsame : status_related eq (store w) (store w0)).
  { rewrite Hw0. by apply status_related_refl. }
  destruct (postgres.GetByRoomCode _ _ _) as [[room|]|] eqn:Hget; try done.
  destruct (GetByRoomCode_visible _ _ _ _ Hget) as (Hin & _ & Hv).
  destruct (bool_decide _); [done|]. destruct (_ <=? _); [done|].
  destruct (postgres.GetByRoomIDAndUserID _ _ _ _) as [[p|]|]; try done.
  destruct (postgres.GetByRoomID _ _ _) as [players|]; [|done].
  unfold postgres.CreatePlayer. destruct (flt PlayerCreate); [done|].
  unfold postgres.Update. destruct (flt RoomUpdate); simpl.
  - intros id r r' Hr Hr'. simpl in Hr'. congruence.
  - by apply (status_save eq (store w) room).
Qed.

Lemma status_LeaveRoom s flt now userID roomID w :
  sound (store w) →
  status_related eq (store w) (store (LeaveRoom s flt now userID roomID w).2).
Proof.
  intros (_ & Hnd & _). unfold LeaveRoom.
  apply locked_store_inv; [unfold redis.Second; lia|by apply status_related_refl|].
  intros w0 Hw0. unfold LeaveRoom_locked. rewrite Hw0.
  assert (Hsame : status_related eq (store w) (store w0)).
  { rewrite Hw0. by apply status_related_refl. }
  destruct (postgres.GetByID _ _ _) as [[room|]|] eqn:Hget; try done.
  destruct (GetByID_visible _ _ _ _ Hget) as (Hin & _ & Hv).
  unfold postgres.LeaveRoom. destruct (flt PlayerLeaveRoom); [done|].
  set (players' := map _ _).
  assert (Hkeep : status_related eq (store w)
            (postgres.mkDB (postgres.rooms (store w)) players'
               (postgres.rooms_seq (store w)) (postgres.room_players_seq (store w)))).
  { intros id r r' Hr Hr'. simpl in Hr'. congruence. }
  assert (Hupd : ∀ room', ID room' = ID room → DeletedAt room' = None →
            Status room' = Status room →
            status_related eq (store w)
              (postgres.Update (flt RoomUpdate)
                 (postgres.mkDB (postgres.rooms (store w)) players'
                    (postgres.rooms_seq (store w)) (postgres.room_players_seq (store w)))
                 room').2 ∧
            NoDup (ID <$> postgres.rooms
              (postgres.Update (flt RoomUpdate)
                 (postgres.mkDB (postgres.rooms (store w)) players'
                    (postgres.rooms_seq (store w)) (postgres.room_players_seq (store w)))
                 room').2)).
  { intros room' Hid Hv' Hst. unfold postgres.Update.
    destruct (flt RoomUpdate); simpl; [done|]. split.
    - by apply (status_save eq (store w) room).
    - rewrite save_ids; [done|]. rewrite Hid. by apply list_elem_of_fmap_2. }
  cbn [snd fst].
  destruct (0 <? CurrentPlayers room).
  - destruct (Hupd (withCurrentPlayers (CurrentPlayers room - 1) room)) as [H1 H2];
      [done..|].
    destruct (_ =? 0); cbn [snd fst store]; [by apply status_Delete|done].
  - destruct (_ =? 0); cbn [snd fst store]; [by apply status_Delete|done].
Qed.

Lemma status_CreateRoom s flt now rnd ownerID req w :
  sound (store w) →
  status_related eq (store w) (store (CreateRoom s flt now rnd ownerID req w).2).
Proof.
  intros Hs. unfold CreateRoom.
  destruct (generateRoomCode _ _) as [code|]; [|by apply status_related_refl].
  set (room0 := mkRoom 0 code _ _ _ _ _ _ _ _ _ _ _).
  pose proof (sound_Create (flt RoomCreate) (store w) room0 Hs eq_refl) as Hs1.
  destruct (postgres.Create _ _ _) as [[row|] db1] eqn:Hc;
    [|by apply status_related_refl].
  simpl in Hs1.
  assert (Hrow : postgres.rooms db1 = postgres.rooms (store w) ++ [row] ∧
                 ID row = (postgres.rooms_seq (store w) + 1)%N ∧
                 DeletedAt row = None).
  { unfold postgres.Create in Hc. destruct (flt RoomCreate); [done|].
    destruct (existsb _ _); [done|]. injection Hc as <- <-. simpl.
    by destruct (maxPlayers s =? 0). }
  destruct Hrow as (Hrows & Hid & Hv).
  assert (H01 : status_related eq (store w) db1).
  { intros id r r' Hr Hr'. rewrite Hrows, (find_app_l _ _ _ _ Hr) in Hr'. congruence. }
  pose proof Hs1 as (_ & Hnd1 & _).
  unfold postgres.CreatePlayer. destruct (flt PlayerCreate); cbn [fst snd store].
  { by apply status_Delete. }
  unfold postgres.Update. destruct (flt RoomUpdate); cbn [fst snd postgres.rooms]; [done|].
  intros id r r' Hr Hr'. simpl in Hr'.
  destruct (find_save_cases id (withCurrentPlayers 1 row) _ r' Hv Hr')
    as [[Hid' _]|[_ Hr'']]; [|by apply (H01 id)].
  simpl in Hid'. apply find_some_elem in Hr as [Hin [Hrid _]%by_id_true].
  destruct Hs as (Hok & _). specialize (Hok r Hin). lia.
Qed.

(** Every operation but EndGame moves the status of a room forward or
    leaves it: StartGame takes Waiting to Playing, the others keep it. *)
Lemma status_forward_but_EndGame op w :
  sound (store w) →
  match op with OpEndGame _ _ _ _ => False | _ => True end →
  status_related forward (store w) (store (step op w)).
Proof.
  intros Hs Hop.
  assert (Heq : ∀ db, status_related eq (store w) db → status_related forward (store w) db).
  { intros db H id r r' Hr Hr'. rewrite (H id r r' Hr Hr'). apply forward_stay. }
  destruct op; simpl; try done.
  - by apply Heq, status_CreateRoom.
  - by apply Heq, status_JoinRoom.
  - by apply Heq, status_LeaveRoom.
  - by apply status_StartGame.
Qed.

(** ** The expiry of the cache mirror *)

(** [SetRoomState] on a key that is absent leaves an entry without expiry,
    whatever [expiration] it is given. *)
Lemma SetRoomState_no_expiry now c roomID data expiration :
  cache.peek now c (redis.roomKey roomID) = None →
  (redis.SetRoomState false now c roomID data expiration).2 !! redis.roomKey roomID
  = Some (cache.mkEntry (cache.VHash data) None).
Proof.
  intros Hp. unfold redis.SetRoomState, cache.HSet. rewrite Hp. simpl.
  apply lookup_insert_eq.
Qed.

(** [SetRoomState] on a hash that is there keeps the expiry it has. *)
Lemma SetRoomState_keeps_expiry now c roomID data expiration h exp :
  cache.peek now c (redis.roomKey roomID) = Some (cache.mkEntry (cache.VHash h) exp) →
  (redis.SetRoomState false now c roomID data expiration).2 !! redis.roomKey roomID
  = Some (cache.mkEntry (cache.VHash (data ∪ h)) exp).
Proof.
  intros Hp. unfold redis.SetRoomState, cache.HSet. rewrite Hp. simpl.
  apply lookup_insert_eq.
Qed.

(** C10 at its failing input. The sample room is created at time 0 with
    a timeout of 1800000 ms; its mirror under "room:1" carries no expiry
    and is there at every later instant, the timeout long past included;
    the same holds after JoinRoom and StartGame have mirrored again. *)
Theorem C10_mirror_never_expires :
  defaultTimeout sample.service = 1800000 ∧
  (cache.ent_exp <$> rds sample.created !! redis.roomKey 1) = Some None ∧
  (∀ t, is_Some (cache.peek t (rds sample.created) (redis.roomKey 1))) ∧
  (cache.ent_exp <$> rds sample.joined !! redis.roomKey 1) = Some None ∧
  (cache.ent_exp <$> rds (StartGame no_faults 20 1 sample.joined).2 !! redis.roomKey 1)
    = Some None.
Proof.
  split; [reflexivity|]. split; [reflexivity|]. split; [|split; reflexivity].
  intros t. unfold cache.peek.
  destruct (rds sample.created !! redis.roomKey 1) as [e|] eqn:He; [|discriminate].
  assert (Hexp : cache.ent_exp e = None).
  { assert (H : cache.ent_exp <$> rds sample.created !! redis.roomKey 1 = Some None)
      by reflexivity.
    rewrite He in H. by injection H. }
  unfold cache.live. rewrite Hexp. by eexists.
Qed.

(** ** The connection hub *)

Section hub.
Import websocket.

Lemma hub_ok_NewHub : hub_ok NewHub.
Proof.
  split.
  - intros u c H. simpl in H. by rewrite lookup_empty in H.
  - intros u1 u2 c1 c2 H. simpl in H. by rewrite lookup_empty in H.
Qed.

(** [deliver] on a registered client of a hub in order. *)
Lemma deliver_open message client h ch :
  chans h !! Send client = Some ch → closed ch = false →
  deliver message client h =
    Ok (mkHub (if kept ch then clients h else delete (UserID client) (clients h))
          (<[Send client := after_send message ch]> (chans h))).
Proof.
  intros Hch Hopen. unfold deliver, try_send, close, after_send, kept.
  rewrite Hch, Hopen. by destruct (_ <? _)%nat.
Qed.

Lemma broadcast_fold message h m :
  hub_ok h → m ⊆ clients h →
  broadcast_upto message h m
    (map_fold (λ _ client acc,
                 match acc with
                 | Ok h' => deliver message client h'
                 | Panic => Panic
                 end) (Ok h) m).
Proof.
  intros [Hreg Hinj]. revert m.
  apply (map_fold_weak_ind (λ r m, m ⊆ clients h → broadcast_upto message h m r)).
  - intros _. exists h. split; [done|]. split; [done|]. split.
    + intros u c ch H. by rewrite lookup_empty in H.
    + intros u. by rewrite lookup_empty.
  - intros i x m r Hi IH Hsub.
    assert (Hm : m ⊆ clients h).
    { etrans; [by apply insert_subseteq|done]. }
    destruct (IH Hm) as (h0 & -> & Ha & Hb & Hc).
    assert (Hx : clients h !! i = Some x).
    { apply (lookup_weaken (<[i:=x]> m)); [apply lookup_insert_eq|exact Hsub]. }
    destruct (Hreg i x Hx) as [Hid (ch & Hch & Hopen)].
    assert (Hfresh : ∀ u c, m !! u = Some c → Send c ≠ Send x).
    { intros u c Hu Heq.
      assert (u = i); [|congruence].
      eapply Hinj; [|exact Hx|done]. by apply (lookup_weaken m). }
    assert (Hch0 : chans h0 !! Send x = Some ch) by (by rewrite Ha).
    rewrite (deliver_open message x h0 ch Hch0 Hopen).
    eexists. split; [done|]. simpl. split; [|split].
    + intros a Hout.
      assert (Send x ≠ a) by (eapply Hout; apply lookup_insert_eq).
      rewrite lookup_insert_ne by done. apply Ha.
      intros u c Hu. apply (Hout u c).
      rewrite lookup_insert_ne; [done|]. intros ->. congruence.
    + intros u c ch' Hu Hch'.
      destruct (decide (i = u)) as [->|Hne].
      * rewrite lookup_insert_eq in Hu. injection Hu as <-.
        rewrite lookup_insert_eq. congruence.
      * rewrite lookup_insert_ne in Hu by done.
        rewrite lookup_insert_ne by (intros Heq; by apply (Hfresh u c Hu)).
        by eapply Hb.
    + intros u. destruct (decide (i = u)) as [->|Hne].
      * rewrite lookup_insert_eq, Hch.
        destruct (kept ch).
        -- rewrite Hc, Hi. done.
        -- rewrite Hid. apply lookup_delete_eq.
      * rewrite lookup_insert_ne by done.
        assert (Hcu : (if kept ch then clients h0 else delete (UserID x) (clients h0)) !! u
                      = clients h0 !! u).
        { destruct (kept ch); [done|]. rewrite Hid. by apply lookup_delete_ne. }
        rewrite Hcu. apply Hc.
Qed.

(** What the broadcast case does to a hub in order. *)
Lemma broadcast_spec message h :
  hub_ok h →
  ∃ h', broadcast message h = Ok h' ∧
    ∀ u c ch, clients h !! u = Some c → chans h !! Send c = Some ch →
      chans h' !! Send c = Some (after_send message ch) ∧
      clients h' !! u = if kept ch then Some c else None.
Proof.
  intros Hok.
  destruct (broadcast_fold message h (clients h) Hok) as (h' & Hr & _ & Hb & Hc); [done|].
  exists h'. split; [done|]. intros u c ch Hu Hch. split; [by eapply Hb|].
  by rewrite Hc, Hu, Hch.
Qed.

(** A new connection keeps the hub in order: its channel is fresh. *)
Lemma hub_ok_HandleWebSocket userID username h :
  hub_ok h →
  ∃ h', (HandleWebSocket userID username h).2 = Ok h' ∧ hub_ok h'.
Proof.
  intros [Hreg Hinj]. unfold HandleWebSocket, register. simpl.
  eexists. split; [done|].
  set (a := fresh (dom (chans h))).
  assert (Ha : a ∉ dom (chans h)) by apply is_fresh.
  assert (Hold : ∀ u c, clients h !! u = Some c → Send c ≠ a).
  { intros u c Hu Heq. apply Ha. rewrite <- Heq.
    destruct (Hreg u c Hu) as [_ (ch & Hch & _)]. by apply elem_of_dom. }
  split; simpl.
  - intros u c. destruct (decide (userID = u)) as [<-|Hne].
    + rewrite lookup_insert_eq. intros [= <-]. simpl. split; [done|].
      eexists. by rewrite lookup_insert_eq.
    + rewrite lookup_insert_ne by done. intros Hu.
      destruct (Hreg u c Hu) as [? (ch & Hch & ?)]. split; [done|].
      exists ch. split; [|done]. rewrite lookup_insert_ne; [done|].
      intros Heq. by apply (Hold u c Hu).
  - intros u1 u2 c1 c2.
    destruct (decide (userID = u1)) as [<-|H1]; destruct (decide (userID = u2)) as [<-|H2];
      rewrite ?lookup_insert_eq, ?lookup_insert_ne by done; try done.
    + intros [= <-] Hu2 Heq. simpl in Heq. by destruct (Hold u2 c2 Hu2).
    + intros Hu1 [= <-] Heq. simpl in Heq. by destruct (Hold u1 c1 Hu1).
    + apply Hinj.
Qed.

(** The broadcast case keeps the hub in order. *)
Lemma hub_ok_broadcast message h :
  hub_ok h → ∃ h', broadcast message h = Ok h' ∧ hub_ok h'.
Proof.
  intros Hok.
  destruct (broadcast_fold message h (clients h) Hok) as (h' & Hr & _ & Hb & Hc); [done|].
  exists h'. split; [done|]. destruct Hok as [Hreg Hinj].
  assert (Hsub : ∀ u c, clients h' !! u = Some c →
            clients h !! u = Some c ∧
            ∃ ch, chans h !! Send c = Some ch ∧ kept ch = true).
  { intros u c. rewrite Hc. destruct (clients h !! u) as [c0|] eqn:Hu; [|done].
    destruct (Hreg u c0 Hu) as [_ (ch & Hch & _)]. rewrite Hch.
    destruct (kept ch) eqn:Hk; [|done]. intros [= <-]. eauto. }
  split.
  - intros u c Hu'. destruct (Hsub u c Hu') as [Hu (ch & Hch & Hk)].
    destruct (Hreg u c Hu) as [Hid _]. split; [done|].
    exists (after_send message ch). split; [by eapply Hb|].
    unfold after_send. unfold kept in Hk. by rewrite Hk.
  - intros u1 u2 c1 c2 H1 H2.
    destruct (Hsub u1 c1 H1) as [? _]. destruct (Hsub u2 c2 H2) as [? _].
    by eapply Hinj.
Qed.

(** A targeted send keeps the hub in order. *)
Lemma hub_ok_SendToUser userID data h h' :
  hub_ok h → SendToUser userID data h = Ok h' → hub_ok h'.
Proof.
  intros [Hreg Hinj]. unfold SendToUser.
  destruct (clients h !! userID) as [client|] eqn:Hu; [|by intros [= <-]].
  destruct data as [data|]; [|by intros [= <-]].
  destruct (Hreg userID client Hu) as [Hid (ch & Hch & Hopen)].
  unfold try_send, close. rewrite Hch, Hopen.
  destruct (_ <? _)%nat; intros [= <-]; split; simpl.
  - intros u c Hc. destruct (Hreg u c Hc) as [? (ch' & Hch' & ?)]. split; [done|].
    destruct (decide (Send client = Send c)) as [Heq|Hne].
    + rewrite Heq, lookup_insert_eq. eauto.
    + rewrite lookup_insert_ne by done. eauto.
  - done.
  - intros u c [Hne Hc]%lookup_delete_Some.
    destruct (Hreg u c Hc) as [? (ch' & Hch' & ?)]. split; [done|].
    exists ch'. split; [|done]. rewrite lookup_insert_ne; [done|].
    intros Heq. apply Hne. by eapply Hinj.
  - intros u1 u2 c1 c2 [_ H1]%lookup_delete_Some [_ H2]%lookup_delete_Some.
    by eapply Hinj.
Qed.

(** C8. Registering two connections of one identity leaves that
    identity's entry of the registry pointing at the second, the other
    entries and every channel as they were, so the first connection's
    queue is not closed; a targeted send to a registered connection whose
    queue is open and full returns at once with the connection's queue
    closed and its entry removed; and a broadcast over a hub in order
    returns with every connection whose queue was full closed and
    removed. *)
Theorem C8_hub_last_wins_and_full_queue_evicts (h : Hub) :
  (∀ c1 c2, UserID c1 = UserID c2 →
     ∃ h', Run [Register c1; Register c2] h = Ok h' ∧
       clients h' !! UserID c1 = Some c2 ∧
       dom (clients h') = {[UserID c1]} ∪ dom (clients h) ∧
       (∀ u, u ≠ UserID c1 → clients h' !! u = clients h !! u) ∧
       chans h' = chans h) ∧
  (∀ u c ch data,
     clients h !! u = Some c → chans h !! Send c = Some ch →
     closed ch = false → (capacity ≤ length (buf ch))%nat →
     ∃ h', SendToUser u (Ret data) h = Ok h' ∧
       clients h' !! u = None ∧
       chans h' !! Send c = Some (mkChan (buf ch) true) ∧
       (∀ u', u' ≠ u → clients h' !! u' = clients h !! u')) ∧
  (hub_ok h → ∀ message,
     ∃ h', Run [Broadcast message] h = Ok h' ∧
       ∀ u c ch,
         clients h !! u = Some c → chans h !! Send c = Some ch →
         (capacity ≤ length (buf ch))%nat →
         clients h' !! u = None ∧
         chans h' !! Send c = Some (mkChan (buf ch) true)).
Proof.
  split; [|split].
  - intros c1 c2 Heq. simpl. unfold register. simpl. eexists. split; [done|]. simpl.
    rewrite <- Heq. split; [apply lookup_insert_eq|]. split; [|split; [|done]].
    + by rewrite insert_insert_eq, dom_insert_L.
    + intros u Hu. by rewrite !lookup_insert_ne.
  - intros u c ch data Hu Hch Hopen Hfull. unfold SendToUser, try_send, close.
    rewrite Hu, Hch, Hopen.
    destruct (Nat.ltb_spec (length (buf ch)) capacity) as [Hlt|_]; [lia|].
    eexists. split; [done|]. simpl. split; [apply lookup_delete_eq|].
    split; [apply lookup_insert_eq|]. intros u' Hne. by apply lookup_delete_ne.
  - intros Hok message. simpl.
    destruct (broadcast_spec message h Hok) as (h' & -> & Hspec).
    exists h'. split; [done|]. intros u c ch Hu Hch Hfull.
    destruct (Hspec u c ch Hu Hch) as [H1 H2].
    unfold after_send in H1. unfold kept in H2.
    destruct (Nat.ltb_spec (length (buf ch)) capacity) as [Hlt|_]; [lia|]. done.
Qed.

(** A hub with one connection whose queue is full; a send to it evicts
    it. *)
Lemma C8_witness :
  let c := mkClient 7 "ann" 0 in
  let h := mkHub {[7%N := c]} {[0%N := mkChan (replicate 256 "m") false]} in
  ∃ h', SendToUser 7 (Ret "hello") h = Ok h' ∧
        clients h' !! 7%N = None ∧
        chans h' !! 0%N = Some (mkChan (replicate 256 "m") true).
Proof.
  intros c h.
  destruct (C8_hub_last_wins_and_full_queue_evicts h) as (_ & H & _).
  destruct (H 7%N c (mkChan (replicate 256 "m") false) "hello")
    as (h' & H1 & H2 & H3 & _);
    [reflexivity|reflexivity|reflexivity|vm_compute; lia|].
  exists h'. split; [exact H1|]. split; [exact H2|exact H3].
Defined.

End hub.

(** ** A run through the whole lifecycle *)

(** User 1 creates a room for two, user 2 joins, user 3 is refused for
    lack of room, user 2 leaves, the game is started and ended; the
    events published are [game_start] and [game_end]. *)
Example lifecycle_scenario :
  let w1 := sample.created in
  let j2 := JoinRoom sample.service no_faults 10 2 "abcd0123" w1 in
  let j3 := JoinRoom sample.service no_faults 20 3 "abcd0123" j2.2 in
  let l2 := LeaveRoom sample.service no_faults 30 2 1 j3.2 in
  let st := StartGame no_faults 40 1 l2.2 in
  let en := EndGame no_faults 50 1 {[2%N := "win"]} st.2 in
  (CurrentPlayers <$> find (postgres.by_id 1) (postgres.rooms (store j2.2))) = Some 2 ∧
  j3.1 = Error ErrCodeConflict ∧
  l2.1 = Success tt ∧
  (CurrentPlayers <$> find (postgres.by_id 1) (postgres.rooms (store l2.2))) = Some 1 ∧
  st.1 = Success tt ∧
  (Status <$> find (postgres.by_id 1) (postgres.rooms (store st.2)))
    = Some RoomStatusPlaying ∧
  en.1 = Success tt ∧
  (Status <$> find (postgres.by_id 1) (postgres.rooms (store en.2)))
    = Some RoomStatusFinished ∧
  ev_Type <$> bus en.2 = ["game_start"; "game_end"].
Proof. repeat split. Qed.

(** ** Room codes *)

Lemma below_16 (n : N) :
  (n < 16)%N →
  (n = 0 ∨ n = 1 ∨ n = 2 ∨ n = 3 ∨ n = 4 ∨ n = 5 ∨ n = 6 ∨ n = 7 ∨
   n = 8 ∨ n = 9 ∨ n = 10 ∨ n = 11 ∨ n = 12 ∨ n = 13 ∨ n = 14 ∨ n = 15)%N.
Proof. lia. Qed.

Lemma is_hex_hexdigit n : (n < 16)%N → is_hex (hexdigit n) = true.
Proof.
  intros Hn%below_16.
  repeat (destruct Hn as [->|Hn]; [done|]). by subst.
Qed.

Lemma hexdigit_inj n m :
  (n < 16)%N → (m < 16)%N → hexdigit n = hexdigit m → n = m.
Proof.
  intros Hn%below_16 Hm%below_16.
  repeat (destruct Hn as [->|Hn]);
    repeat (destruct Hm as [->|Hm]); subst; vm_compute; congruence.
Qed.

Lemma EncodeToString_inj l l' :
  Forall (λ b, b < 256)%N l → Forall (λ b, b < 256)%N l' →
  EncodeToString l = EncodeToString l' → l = l'.
Proof.
  intros Hl. revert l'. induction Hl as [|b l Hb Hl IH]; intros l' Hl' Heq.
  - by destruct l'.
  - destruct Hl' as [|b' l' Hb' Hl']; [done|].
    simpl in Heq. injection Heq as Hhi Hlo Hrest.
    apply hexdigit_inj in Hhi;
      [|apply N.Div0.div_lt_upper_bound; lia|apply N.Div0.div_lt_upper_bound; lia].
    apply hexdigit_inj in Hlo; [|apply N.mod_lt; lia|apply N.mod_lt; lia].
    f_equal; [|by apply IH].
    rewrite (N.div_mod b 16), (N.div_mod b' 16) by lia. congruence.
Qed.

(** X1 (generateRoomCode).  When the random source answers, the code is
    eight lower-case hexadecimal digits, and two draws give the same code
    exactly when they agree on the four bytes: the codes are in bijection
    with the 2^32 byte quadruples. *)
Theorem generateRoomCode_shape rnd rnd' :
  (∃ code, generateRoomCode false rnd = Ret code ∧
     String.length code = 8%nat ∧
     forallb is_hex (list_ascii_of_string code) = true) ∧
  (generateRoomCode false rnd = generateRoomCode false rnd' ↔
   bytes_of rnd = bytes_of rnd').
Proof.
  destruct rnd as [[[b0 b1] b2] b3], rnd' as [[[b0' b1'] b2'] b3'].
  assert (Hhi : ∀ b, (b mod 256 / 16 < 16)%N).
  { intros b. apply N.Div0.div_lt_upper_bound. pose proof (N.mod_lt b 256). lia. }
  assert (Hlo : ∀ b, (b mod 256 mod 16 < 16)%N).
  { intros b. apply N.mod_lt. lia. }
  split.
  - eexists. split; [reflexivity|]. split; [done|].
    cbn [EncodeToString list_ascii_of_string forallb].
    by rewrite !is_hex_hexdigit.
  - unfold generateRoomCode, bytes_of. split.
    + intros Heq.
      assert (Hret : ∀ x y : string, Ret x = Ret y → x = y) by (by intros ?? [=]).
      apply Hret, EncodeToString_inj in Heq; [done| |];
        repeat constructor; apply N.mod_lt; lia.
    + by intros ->.
Qed.

(** ** The keys of the cache *)

Lemma pretty_N_go_no_p x s s' :
  s ≠ String "p" s' → pretty_N_go x s ≠ String "p" s'.
Proof.
  revert s. induction (N.lt_wf_0 x) as [x _ IH]; intros s ?.
  assert (x = 0 ∨ 0 < x)%N as [->|?] by lia.
  - by rewrite pretty_N_go_0.
  - rewrite pretty_N_go_step by done. apply IH.
    { by apply N.div_lt. }
    unfold pretty_N_char. by repeat case_match.
Qed.

Lemma pretty_N_no_p (x : N) s' : pretty x ≠ String "p" s'.
Proof.
  unfold pretty, pretty_N. destruct (decide (x = 0%N)); [done|].
  by apply pretty_N_go_no_p.
Qed.

Lemma roomKey_inj a b : redis.roomKey a = redis.roomKey b → a = b.
Proof. unfold redis.roomKey. intros [= H]. by apply (inj pretty). Qed.

Lemma playersKey_inj a b : redis.playersKey a = redis.playersKey b → a = b.
Proof. unfold redis.playersKey. intros [= H]. by apply (inj pretty). Qed.

Lemma roomKey_playersKey a b : redis.roomKey a ≠ redis.playersKey b.
Proof.
  unfold redis.roomKey, redis.playersKey. intros [= H].
  by apply pretty_N_no_p in H.
Qed.

Lemma lockKey_inj r r' : redis.lockKey r = redis.lockKey r' → r = r'.
Proof. unfold redis.lockKey. by intros [= H]. Qed.

Lemma lockKey_roomKey r a : redis.lockKey r ≠ redis.roomKey a.
Proof. unfold redis.lockKey, redis.roomKey. by intros [= H]. Qed.

Lemma lockKey_playersKey r a : redis.lockKey r ≠ redis.playersKey a.
Proof. unfold redis.lockKey, redis.playersKey. by intros [= H]. Qed.

(** What a command leaves alone. *)

Lemma peek_ext now (c c' : cache.Client) k :
  c' !! k = c !! k → cache.peek now c' k = cache.peek now c k.
Proof. unfold cache.peek. by intros ->. Qed.

Lemma HSet_other f now c k v k' :
  k' ≠ k → (cache.HSet f now c k v).2 !! k' = c !! k'.
Proof.
  intros Hk. unfold cache.HSet. destruct f; [done|].
  destruct (cache.peek now c k) as [[[] ?]|]; simpl; try done;
    by rewrite lookup_insert_ne.
Qed.

Lemma SAdd_other f now c k v k' :
  k' ≠ k → (cache.SAdd f now c k v).2 !! k' = c !! k'.
Proof.
  intros Hk. unfold cache.SAdd. destruct f; [done|].
  destruct (cache.peek now c k) as [[[] ?]|]; simpl; try done;
    by rewrite lookup_insert_ne.
Qed.

Lemma SRem_other f now c k v k' :
  k' ≠ k → (cache.SRem f now c k v).2 !! k' = c !! k'.
Proof.
  intros Hk. unfold cache.SRem. destruct f; [done|].
  destruct (cache.peek now c k) as [[[] ?]|]; simpl; try done.
  case_decide; simpl; [by rewrite lookup_delete_ne|by rewrite lookup_insert_ne].
Qed.

Lemma Del_other f c keys k' :
  k' ∉ keys → (cache.Del f c keys).2 !! k' = c !! k'.
Proof.
  intros Hk. unfold cache.Del. destruct f; [done|]. simpl.
  induction keys as [|k keys IH]; [done|]. simpl.
  apply not_elem_of_cons in Hk as [? ?].
  rewrite lookup_delete_ne by done. by apply IH.
Qed.

Lemma SetNX_other f now c k v e k' :
  k' ≠ k → (cache.SetNX f now c k v e).2 !! k' = c !! k'.
Proof.
  intros Hk. unfold cache.SetNX. destruct f; [done|].
  destruct (e <? 0); [done|].
  destruct (cache.peek now c k); simpl; [done|by rewrite lookup_insert_ne].
Qed.

Lemma Set_other f now c k v e k' :
  k' ≠ k → (cache.Set_ f now c k v e).2 !! k' = c !! k'.
Proof.
  intros Hk. unfold cache.Set_. destruct f; [done|].
  destruct (e <? 0); [done|]. simpl. by rewrite lookup_insert_ne.
Qed.

Lemma same_room_ext now roomID (c c' : cache.Client) :
  c' !! redis.roomKey roomID = c !! redis.roomKey roomID →
  c' !! redis.playersKey roomID = c !! redis.playersKey roomID →
  same_room now roomID c c'.
Proof.
  intros Hr Hp. unfold same_room, redis.GetRoomState, redis.GetRoomPlayers,
    redis.IsRoomPlayer, cache.HGetAll, cache.SMembers, cache.SIsMember.
  by rewrite (peek_ext now c c' _ Hr), (peek_ext now c c' _ Hp).
Qed.

Lemma same_lock_ext now r (c c' : cache.Client) :
  c' !! redis.lockKey r = c !! redis.lockKey r → same_lock now r c c'.
Proof. intros H. unfold same_lock, redis.held. by rewrite (peek_ext now c c' _ H). Qed.

(** X2 (the key builders of the cache repositories).  What is written
    for a room is invisible from every other room and from every lock,
    and taking or releasing a lock is invisible from every room and from
    every other lock, whether the write goes through or fails. *)
Theorem cache_keys_do_not_collide (a b : N) (r r' : string) f now c data e u ttl :
  a ≠ b → r ≠ r' →
  (∀ c', c' ∈ [(redis.SetRoomState f now c a data e).2;
               (redis.AddRoomPlayer f now c a u).2;
               (redis.RemoveRoomPlayer f now c a u).2;
               (redis.DeleteRoom f c a).2] →
     same_room now b c c' ∧ same_lock now r c c') ∧
  (∀ c', c' ∈ [(redis.AcquireLock f now c r ttl).2; (redis.ReleaseLock f c r).2] →
     same_room now a c c' ∧ same_lock now r' c c').
Proof.
  intros Hab Hrr.
  assert (Hk1 : redis.roomKey b ≠ redis.roomKey a) by (by intros ?%roomKey_inj).
  assert (Hk2 : redis.playersKey b ≠ redis.playersKey a) by (by intros ?%playersKey_inj).
  assert (Hk3 := roomKey_playersKey b a).
  assert (Hk4 : redis.playersKey b ≠ redis.roomKey a).
  { intros H. by apply (roomKey_playersKey a b). }
  assert (Hk5 := lockKey_roomKey r a).
  assert (Hk6 := lockKey_playersKey r a).
  assert (Hk7 : redis.lockKey r' ≠ redis.lockKey r) by (by intros ?%lockKey_inj).
  split; intros c' Hc'; repeat (apply elem_of_cons in Hc' as [->|Hc']);
    try (by apply elem_of_nil in Hc'); split;
    try apply same_room_ext; try apply same_lock_ext;
    unfold redis.SetRoomState, redis.AddRoomPlayer, redis.RemoveRoomPlayer,
      redis.DeleteRoom, redis.AcquireLock, redis.ReleaseLock;
    first [ by apply HSet_other | by apply SAdd_other | by apply SRem_other
          | by apply SetNX_other
          | apply Del_other; rewrite !not_elem_of_cons; repeat split;
            first [done | apply not_elem_of_nil] ].
Qed.

(** Rooms 1 and 2, the locks of two room codes. *)
Lemma cache_keys_do_not_collide_witness :
  same_room 0 2 (rds sample.joined)
    (redis.DeleteRoom false (rds sample.joined) 1).2 ∧
  same_lock 0 "room:lock:abcd0123" (rds sample.joined)
    (redis.DeleteRoom false (rds sample.joined) 1).2.
Proof.
  apply (cache_keys_do_not_collide 1 2 "room:lock:abcd0123" "room:lock:00000000"
           false 0 (rds sample.joined) ∅ 0 1 5000); [done|done|].
  do 3 apply list_elem_of_further. apply list_elem_of_here.
Defined.

(** ** Sets of the cache *)

Lemma peek_live now (c : cache.Client) k e :
  cache.peek now c k = Some e → c !! k = Some e ∧ cache.live now e = true.
Proof.
  unfold cache.peek. destruct (c !! k) as [e'|]; [|done].
  destruct (cache.live now e') eqn:Hl; [|done]. by intros [= ->].
Qed.

Lemma peek_insert_ne now (c : cache.Client) k k' e :
  k' ≠ k → cache.peek now (<[k := e]> c) k' = cache.peek now c k'.
Proof. intros. apply peek_ext. by rewrite lookup_insert_ne. Qed.

Lemma SMembers_SAdd now c k m s :
  cache.SMembers false now c k = Ret s →
  cache.SMembers false now (cache.SAdd false now c k m).2 k = Ret ({[m]} ∪ s).
Proof.
  unfold cache.SMembers, cache.SAdd.
  destruct (cache.peek now c k) as [[[| |s'] exp]|] eqn:Hp; try done.
  - intros [= ->]. apply peek_live in Hp as [_ Hl]. simpl.
    rewrite peek_insert_eq. unfold cache.live in *. simpl in *. by rewrite Hl.
  - intros [= <-]. simpl. rewrite peek_insert_eq. simpl.
    by rewrite (right_id_L ∅ (∪)).
Qed.

Lemma SMembers_SRem now c k m s :
  cache.SMembers false now c k = Ret s →
  cache.SMembers false now (cache.SRem false now c k m).2 k = Ret (s ∖ {[m]}).
Proof.
  unfold cache.SMembers, cache.SRem.
  destruct (cache.peek now c k) as [[[| |s'] exp]|] eqn:Hp; try done.
  - intros [= ->]. apply peek_live in Hp as [_ Hl].
    case_decide as He; simpl.
    + by rewrite peek_delete_eq, He.
    + rewrite peek_insert_eq. unfold cache.live in *. simpl in *. by rewrite Hl.
  - intros [= <-]. simpl. rewrite Hp. f_equal.
    apply leibniz_equiv. intros x. rewrite elem_of_difference.
    split; [by intros ?%elem_of_empty|by intros [?%elem_of_empty _]].
Qed.

Lemma SIsMember_SMembers now c k m s :
  cache.SMembers false now c k = Ret s →
  cache.SIsMember false now c k m = Ret (bool_decide (m ∈ s)).
Proof.
  unfold cache.SMembers, cache.SIsMember.
  destruct (cache.peek now c k) as [[[| |s'] exp]|]; try done.
  - by intros [= ->].
  - by intros [= <-].
Qed.

(** X3 (RoomRepository.AddRoomPlayer, RemoveRoomPlayer, GetRoomPlayers,
    IsRoomPlayer).  Where the member set of a room can be read, adding a
    user makes exactly that user a member besides those there were,
    removing a user takes exactly that user out, and removing a user just
    added to a set they were not in gives the set back. *)
Theorem member_set_round_trip now c roomID userID other members :
  redis.GetRoomPlayers false now c roomID = Ret members →
  let added := (redis.AddRoomPlayer false now c roomID userID).2 in
  let removed := (redis.RemoveRoomPlayer false now c roomID userID).2 in
  redis.GetRoomPlayers false now added roomID = Ret ({[pretty userID]} ∪ members) ∧
  redis.IsRoomPlayer false now added roomID other
    = Ret (bool_decide (other = userID ∨ pretty other ∈ members)) ∧
  redis.GetRoomPlayers false now removed roomID = Ret (members ∖ {[pretty userID]}) ∧
  redis.IsRoomPlayer false now removed roomID other
    = Ret (bool_decide (other ≠ userID ∧ pretty other ∈ members)) ∧
  (pretty userID ∉ members →
   redis.GetRoomPlayers false now
     (redis.RemoveRoomPlayer false now added roomID userID).2 roomID = Ret members).
Proof.
  unfold redis.GetRoomPlayers, redis.IsRoomPlayer, redis.AddRoomPlayer,
    redis.RemoveRoomPlayer.
  intros Hm. cbv zeta.
  pose proof (SMembers_SAdd now c _ (pretty userID) _ Hm) as Ha.
  pose proof (SMembers_SRem now c _ (pretty userID) _ Hm) as Hr.
  split; [done|]. split.
  { rewrite (SIsMember_SMembers _ _ _ _ _ Ha). f_equal. apply bool_decide_ext.
    rewrite elem_of_union, elem_of_singleton.
    split; (intros [H|H]; [left|by right]); [by apply (inj pretty)|by subst]. }
  split; [done|]. split.
  { rewrite (SIsMember_SMembers _ _ _ _ _ Hr). f_equal. apply bool_decide_ext.
    rewrite elem_of_difference, elem_of_singleton.
    split; intros [H1 H2]; split; try done.
    - by intros ->.
    - by intros ?%(inj pretty). }
  intros Hnew.
  rewrite (SMembers_SRem _ _ _ (pretty userID) _ Ha). f_equal.
  apply leibniz_equiv. intros x.
  rewrite elem_of_difference, elem_of_union, elem_of_singleton.
  split; [by intros [[?|?] ?]|]. intros Hx. split; [by right|]. by intros ->.
Qed.

(** Users 2 and 3 and the member set of room 1 after user 2 joined. *)
Lemma member_set_round_trip_witness :
  redis.IsRoomPlayer false 20
    (redis.AddRoomPlayer false 20 (rds sample.joined) 1 3).2 1 2 = Ret true.
Proof.
  destruct (member_set_round_trip 20 (rds sample.joined) 1 3 2 {["2"]})
    as (_ & H & _).
  - by vm_compute.
  - rewrite H. by vm_compute.
Defined.

(** ** What the room operations write to the cache *)

Lemma GetRoomState_ext f now a (c c' : cache.Client) :
  c' !! redis.roomKey a = c !! redis.roomKey a →
  redis.GetRoomState f now c' a = redis.GetRoomState f now c a.
Proof.
  intros H. unfold redis.GetRoomState, cache.HGetAll.
  by rewrite (peek_ext now c c' _ H).
Qed.

Lemma GetRoomPlayers_ext f now a (c c' : cache.Client) :
  c' !! redis.playersKey a = c !! redis.playersKey a →
  redis.GetRoomPlayers f now c' a = redis.GetRoomPlayers f now c a.
Proof.
  intros H. unfold redis.GetRoomPlayers, cache.SMembers.
  by rewrite (peek_ext now c c' _ H).
Qed.

Lemma IsRoomPlayer_ext f now a u (c c' : cache.Client) :
  c' !! redis.playersKey a = c !! redis.playersKey a →
  redis.IsRoomPlayer f now c' a u = redis.IsRoomPlayer f now c a u.
Proof.
  intros H. unfold redis.IsRoomPlayer, cache.SIsMember.
  by rewrite (peek_ext now c c' _ H).
Qed.

Lemma mirrored_ext now (c c' : cache.Client) room :
  c' !! redis.roomKey (ID room) = c !! redis.roomKey (ID room) →
  mirrored now c room → mirrored now c' room.
Proof.
  intros H (h & exp & Hp & Hsub). exists h, exp.
  by rewrite (peek_ext now c c' _ H).
Qed.

Lemma syncRoomToRedis_other s flt now c room k :
  k ≠ redis.roomKey (ID room) → syncRoomToRedis s flt now c room !! k = c !! k.
Proof. intros. unfold syncRoomToRedis, redis.SetRoomState. by apply HSet_other. Qed.

Lemma syncRoomToRedis_mirrored s flt now c room :
  flt CacheSetRoomState = false →
  (∀ e, cache.peek now c (redis.roomKey (ID room)) = Some e →
        ∃ h, cache.ent_val e = cache.VHash h) →
  mirrored now (syncRoomToRedis s flt now c room) room.
Proof.
  intros Hf Hh. unfold syncRoomToRedis, redis.SetRoomState, mirrored.
  rewrite Hf. by apply HSet_mirror.
Qed.

Lemma ReleaseLock_other f c k key :
  key ≠ redis.lockKey k → (redis.ReleaseLock f c k).2 !! key = c !! key.
Proof.
  intros. unfold redis.ReleaseLock. apply Del_other.
  rewrite not_elem_of_cons. split; [done|apply not_elem_of_nil].
Qed.

Lemma AcquireLock_other f now c k ttl key :
  key ≠ redis.lockKey k → (redis.AcquireLock f now c k ttl).2 !! key = c !! key.
Proof. intros. unfold redis.AcquireLock. by apply SetNX_other. Qed.

(** A locked operation that succeeds: the lock was taken, the body
    succeeded on the world with the lock in it, and the lock was let go. *)
Lemma locked_Success {A : Type} flt now k ttl (body : World → result A * World)
    w (r : A) w' :
  0 ≤ ttl →
  locked flt now k ttl body w = (Success r, w') →
  ∃ c1 wb,
    (∀ key, key ≠ redis.lockKey k → c1 !! key = rds w !! key) ∧
    body (mkWorld (store w) c1 (bus w)) = (Success r, wb) ∧
    store w' = store wb ∧ bus w' = bus wb ∧
    (∀ key, key ≠ redis.lockKey k → rds w' !! key = rds wb !! key).
Proof.
  intros Httl Hl.
  destruct (locked_inv flt now k ttl body w Httl)
    as [[_ He]|[(_ & _ & He)|(_ & _ & c1 & Hacq & _ & He)]];
    [congruence..|].
  rewrite Hl in He. cbv zeta in He.
  destruct (body (mkWorld (store w) c1 (bus w))) as [rb wb] eqn:Hb.
  simpl in He. injection He as -> ->.
  exists c1, wb. split; [|split; [done|split; [done|split; [done|]]]].
  - intros key Hk.
    pose proof (AcquireLock_other false now (rds w) k ttl key Hk) as Ho.
    by rewrite Hacq in Ho.
  - intros key Hk. simpl. by apply ReleaseLock_other.
Qed.

Lemma JoinRoom_locked_rds s flt now userID roomCode w r w' :
  JoinRoom_locked s flt now userID roomCode w = (Success r, w') →
  rds w' = (redis.AddRoomPlayer (flt CacheAddRoomPlayer) now
              (syncRoomToRedis s flt now (rds w) r) (ID r) userID).2.
Proof.
  unfold JoinRoom_locked, postgres.GetByRoomCode.
  destruct (flt RoomGetByRoomCode); [done|].
  destruct (find _ _) as [room|] eqn:Hfind; [|done].
  case_bool_decide as Hst; [done|].
  destruct (Z.leb_spec (MaxPlayers room) (CurrentPlayers room)); [done|].
  unfold postgres.GetByRoomIDAndUserID.
  destruct (flt PlayerGetByRoomIDAndUserID); [done|].
  destruct (find _ (postgres.room_players _)); [done|].
  unfold postgres.GetByRoomID. destruct (flt PlayerGetByRoomID); [done|].
  unfold postgres.CreatePlayer. destruct (flt PlayerCreate); [done|].
  by intros [= <- <-].
Qed.

(** X4 (RoomService.CreateRoom, syncRoomToRedis).  A successful
    CreateRoom seats the owner in the store but writes no member set:
    the room's member set in the cache reads as before, and where there
    was none the owner is not a member there. *)
Theorem CreateRoom_leaves_member_set_alone s flt now rnd ownerID req w room w' :
  CreateRoom s flt now rnd ownerID req w = (Success room, w') →
  (∃ p, postgres.GetByRoomIDAndUserID false (store w') (ID room) ownerID
        = Ret (Some p)) ∧
  redis.GetRoomPlayers false now (rds w') (ID room)
    = redis.GetRoomPlayers false now (rds w) (ID room) ∧
  (cache.peek now (rds w) (redis.playersKey (ID room)) = None →
   redis.IsRoomPlayer false now (rds w') (ID room) ownerID = Ret false).
Proof.
  intros Hc.
  assert (∃ code, generateRoomCode false rnd = Ret code) as [code Hcode].
  { destruct rnd as [[[? ?] ?] ?]. by eexists. }
  destruct (CreateRoom_cases s flt now rnd ownerID req w code Hcode)
    as [[_ He]|[(_ & _ & _ & _ & He)|(_ & _ & _ & _ & He)]];
    rewrite Hc in He; [done|done|].
  injection He as -> ->. cbn [store rds bus].
  assert (Hk : rds w !! redis.playersKey
                 (ID (withCurrentPlayers 1 (created_row s now code ownerID req (store w))))
               = syncRoomToRedis s flt now (rds w)
                   (withCurrentPlayers 1 (created_row s now code ownerID req (store w)))
                 !! redis.playersKey
                 (ID (withCurrentPlayers 1 (created_row s now code ownerID req (store w))))).
  { symmetry. apply syncRoomToRedis_other.
    intros H. symmetry in H. by apply roomKey_playersKey in H. }
  split; [|split].
  - unfold postgres.GetByRoomIDAndUserID. rewrite Update_room_players. simpl.
    set (f := λ p0, postgres.of_room_user _ ownerID p0 && postgres.active p0).
    destruct (find f (postgres.room_players (store w))) as [p|] eqn:Hf.
    + exists p. by rewrite (find_app_l _ _ _ _ Hf).
    + eexists. rewrite find_app_r by done. simpl.
      unfold f, postgres.of_room_user, postgres.active. simpl.
      by rewrite !bool_decide_eq_true_2.
  - by apply GetRoomPlayers_ext.
  - intros Hp. rewrite (IsRoomPlayer_ext _ _ _ _ (rds w)) by done.
    unfold redis.IsRoomPlayer, cache.SIsMember. by rewrite Hp.
Qed.

(** The room of [sample.created]. *)
Lemma CreateRoom_leaves_member_set_alone_witness :
  redis.IsRoomPlayer false 0 (rds sample.created) 1 1 = Ret false ∧
  ∃ p, postgres.GetByRoomIDAndUserID false (store sample.created) 1 1 = Ret (Some p).
Proof.
  destruct (CreateRoom_leaves_member_set_alone sample.service no_faults 0
              (171, 205, 1, 35)%N 1 sample.request sample.empty
              (mkRoom 1 "abcd0123" "lobby" 1 RoomStatusWaiting 2 1 "chess" "{}"
                 None None (Some 1800000) None)
              sample.created) as (Hp & _ & Hc).
  - by vm_compute.
  - split; [by apply Hc|exact Hp].
Defined.

(** X5 (RoomService.JoinRoom, syncRoomToRedis, AddRoomPlayer).  When
    JoinRoom succeeds and its two cache writes go through, over a cache
    whose two keys of the room hold a hash and a set if they hold
    anything, the cache mirrors the room with the occupancy counted up,
    and the joiner is in the room's member set besides those there
    were. *)
Theorem JoinRoom_updates_cache s flt now userID roomCode w room w' members :
  JoinRoom s flt now userID roomCode w = (Success room, w') →
  flt CacheSetRoomState = false → flt CacheAddRoomPlayer = false →
  (∀ e, cache.peek now (rds w) (redis.roomKey (ID room)) = Some e →
        ∃ h, cache.ent_val e = cache.VHash h) →
  redis.GetRoomPlayers false now (rds w) (ID room) = Ret members →
  mirrored now (rds w') room ∧
  redis.GetRoomPlayers false now (rds w') (ID room)
    = Ret ({[pretty userID]} ∪ members) ∧
  redis.IsRoomPlayer false now (rds w') (ID room) userID = Ret true.
Proof.
  intros Hj Hf1 Hf2 Hhash Hm. unfold JoinRoom in Hj.
  apply locked_Success in Hj as (c1 & wb & Hc1 & Hb & _ & _ & Hrel);
    [|unfold redis.Second; lia].
  apply JoinRoom_locked_rds in Hb. cbn [rds] in Hb. rewrite Hf2 in Hb.
  assert (Hlr := lockKey_roomKey (joinLock roomCode) (ID room)).
  assert (Hlp := lockKey_playersKey (joinLock roomCode) (ID room)).
  assert (Hrp := roomKey_playersKey (ID room) (ID room)).
  set (cs := syncRoomToRedis s flt now c1 room) in *.
  assert (Hcs : redis.GetRoomPlayers false now cs (ID room) = Ret members).
  { rewrite <- Hm. apply GetRoomPlayers_ext. unfold cs.
    rewrite syncRoomToRedis_other by done. by apply Hc1. }
  destruct (member_set_round_trip now cs (ID room) userID userID members Hcs)
    as (Hg & Hi & _).
  rewrite <- Hb in Hg, Hi.
  split; [|split].
  - apply (mirrored_ext now (rds wb)); [by apply Hrel|].
    apply (mirrored_ext now cs).
    { rewrite Hb. unfold redis.AddRoomPlayer. by apply SAdd_other. }
    apply syncRoomToRedis_mirrored; [done|]. intros e He. apply Hhash.
    rewrite <- He. symmetry. apply peek_ext. by apply Hc1.
  - rewrite <- Hg. apply GetRoomPlayers_ext. by apply Hrel.
  - rewrite (IsRoomPlayer_ext _ _ _ _ (rds wb)) by (by apply Hrel).
    rewrite Hi. f_equal. apply bool_decide_eq_true_2. by left.
Qed.

(** User 2 joining the room of [sample.created]. *)
Lemma JoinRoom_updates_cache_witness :
  redis.IsRoomPlayer false 10 (rds sample.joined) 1 2 = Ret true.
Proof.
  refine (proj2 (proj2 (JoinRoom_updates_cache sample.service no_faults 10 2
            "abcd0123" sample.created
            (mkRoom 1 "abcd0123" "lobby" 1 RoomStatusWaiting 2 2 "chess" "{}"
               None None (Some 1800000) None)
            sample.joined ∅ _ _ _ _ _))).
  - by vm_compute.
  - done.
  - done.
  - intros e He. vm_compute in He. injection He as <-. by eexists.
  - by vm_compute.
Defined.

(** ** Leaving a room that stays open *)

Lemma find_stamped now roomID userID (l : list RoomPlayer) :
  find (λ p, postgres.of_room_user roomID userID p && postgres.active p)
    (map (postgres.stamp now roomID userID) l) = None.
Proof.
  induction l as [|p l IH]; [done|]. simpl.
  destruct (stamp_cases now roomID userID p) as [[Hp ->]|[Hp ->]].
  - unfold postgres.active. simpl. by rewrite andb_false_r.
  - replace (postgres.of_room_user roomID userID p) with false; [done|].
    symmetry. apply not_true_is_false. by intros ?%of_room_user_true.
Qed.

Lemma find_stamped_other now roomID userID r u (l : list RoomPlayer) :
  (r, u) ≠ (roomID, userID) →
  find (λ p, postgres.of_room_user r u p && postgres.active p)
    (map (postgres.stamp now roomID userID) l)
  = find (λ p, postgres.of_room_user r u p && postgres.active p) l.
Proof.
  intros Hne. induction l as [|p l IH]; [done|]. simpl.
  destruct (stamp_cases now roomID userID p) as [[[Hr Hu] ->]|[Hp ->]].
  - replace (postgres.of_room_user r u (withLeftAt (Some now) p)) with false.
    2:{ symmetry. apply not_true_is_false. intros [? ?]%of_room_user_true.
        simpl in *. apply Hne. congruence. }
    replace (postgres.of_room_user r u p) with false; [done|].
    symmetry. apply not_true_is_false. intros [? ?]%of_room_user_true.
    apply Hne. congruence.
  - by rewrite IH.
Qed.

Lemma stamp_stamp t1 t2 roomID userID p :
  postgres.stamp t2 roomID userID (postgres.stamp t1 roomID userID p)
  = postgres.stamp t2 roomID userID p.
Proof.
  destruct (stamp_cases t1 roomID userID p) as [[[Hr Hu] ->]|[Hp ->]]; [|done].
  unfold postgres.stamp.
  replace (postgres.of_room_user roomID userID (withLeftAt (Some t1) p)) with true
    by (symmetry; by apply of_room_user_true).
  replace (postgres.of_room_user roomID userID p) with true
    by (symmetry; by apply of_room_user_true).
  done.
Qed.

(** X6 (RoomPlayerRepository.LeaveRoom, GetByRoomIDAndUserID).  Closing
    the memberships of a user in a room leaves that user with no open
    membership there and every other pair of room and user as it was;
    every row of the pair gets the leave time, the rows closed before
    included, so that a second call has the effect of that call alone. *)
Theorem postgres_LeaveRoom_closes_and_overwrites t1 t2 db roomID userID :
  let db1 := (postgres.LeaveRoom false t1 db roomID userID).2 in
  postgres.GetByRoomIDAndUserID false db1 roomID userID = Ret None ∧
  (∀ r u, (r, u) ≠ (roomID, userID) →
     postgres.GetByRoomIDAndUserID false db1 r u
     = postgres.GetByRoomIDAndUserID false db r u) ∧
  (∀ p, p ∈ postgres.room_players db → RoomID p = roomID → UserID p = userID →
     withLeftAt (Some t1) p ∈ postgres.room_players db1) ∧
  postgres.rooms db1 = postgres.rooms db ∧
  (postgres.LeaveRoom false t2 db1 roomID userID).2
  = (postgres.LeaveRoom false t2 db roomID userID).2.
Proof.
  unfold postgres.GetByRoomIDAndUserID. simpl.
  split; [by rewrite find_stamped|]. split; [|split; [|split; [done|]]].
  - intros r u Hne. by rewrite find_stamped_other.
  - intros p Hp Hr Hu. apply list_elem_of_fmap. exists p. split; [|done].
    destruct (stamp_cases t1 roomID userID p) as [[_ ->]|[Hn _]]; [done|].
    by destruct Hn.
  - f_equal. rewrite map_map. apply map_ext. intros p. apply stamp_stamp.
Qed.

Lemma LeaveRoom_locked_not_last s flt now userID roomID w room :
  flt RoomGetByID = false → flt PlayerLeaveRoom = false →
  postgres.GetByID false (store w) roomID = Ret (Some room) →
  1 < CurrentPlayers room →
  LeaveRoom_locked s flt now userID roomID w =
    (Success tt,
     mkWorld
       (postgres.Update (flt RoomUpdate)
          (postgres.LeaveRoom false now (store w) roomID userID).2
          (withCurrentPlayers (CurrentPlayers room - 1) room)).2
       (redis.RemoveRoomPlayer (flt CacheRemoveRoomPlayer) now
          (syncRoomToRedis s flt now (rds w)
             (withCurrentPlayers (CurrentPlayers room - 1) room))
          roomID userID).2
       (bus w)).
Proof.
  intros Hf1 Hf2 Hget Hocc. unfold LeaveRoom_locked.
  rewrite Hf1, Hget, Hf2. simpl.
  destruct (Z.ltb_spec 0 (CurrentPlayers room)); [|lia]. simpl.
  by destruct (Z.eqb_spec (CurrentPlayers room - 1) 0); [lia|].
Qed.

(** The world a locked operation leaves when the lock is free and the
    request for it goes through. *)
Lemma locked_free {A : Type} flt now k ttl (body : World → result A * World) w :
  0 ≤ ttl → flt LockAcquire = false → redis.held now (rds w) k = false →
  ∃ c1,
    (∀ key, key ≠ redis.lockKey k → c1 !! key = rds w !! key) ∧
    c1 !! redis.lockKey k
      = Some (cache.mkEntry (cache.VStr "1") (cache.deadline now ttl)) ∧
    let rb := body (mkWorld (store w) c1 (bus w)) in
    locked flt now k ttl body w =
      (rb.1, mkWorld (store rb.2)
               (redis.ReleaseLock (flt LockRelease) (rds rb.2) k).2 (bus rb.2)).
Proof.
  intros Httl Hf Hfree.
  destruct (locked_inv flt now k ttl body w Httl)
    as [[? _]|[(_ & ? & _)|(_ & _ & c1 & Hacq & _ & He)]];
    [congruence..|].
  exists c1. rewrite (AcquireLock_free _ _ _ _ Httl Hfree) in Hacq.
  injection Hacq as <-. split; [|split; [|done]].
  - intros key Hk. by rewrite lookup_insert_ne.
  - by rewrite lookup_insert_eq.
Qed.

(** X7 (RoomService.LeaveRoom).  With the lock free and the lock
    request, the read of the room and the closing of the membership
    going through, LeaveRoom on a room of occupancy above 1 succeeds:
    the caller's memberships in the room all carry the leave time and
    none is open, the room stays visible with the occupancy counted down
    (if its update goes through), the cache mirrors the room as counted
    down (if that write goes through) and the caller is out of the
    room's member set (if that write goes through). *)
Theorem LeaveRoom_not_last s flt now userID roomID w room :
  flt LockAcquire = false → flt RoomGetByID = false → flt PlayerLeaveRoom = false →
  redis.held now (rds w) (leaveLock roomID) = false →
  postgres.GetByID false (store w) roomID = Ret (Some room) →
  1 < CurrentPlayers room →
  let rw := LeaveRoom s flt now userID roomID w in
  let room' := withCurrentPlayers (CurrentPlayers room - 1) room in
  rw.1 = Success tt ∧
  postgres.room_players (store rw.2)
    = map (postgres.stamp now roomID userID) (postgres.room_players (store w)) ∧
  postgres.GetByRoomIDAndUserID false (store rw.2) roomID userID = Ret None ∧
  (flt RoomUpdate = false →
     postgres.GetByID false (store rw.2) roomID = Ret (Some room')) ∧
  (flt CacheSetRoomState = false →
   (∀ e, cache.peek now (rds w) (redis.roomKey roomID) = Some e →
         ∃ h, cache.ent_val e = cache.VHash h) →
   mirrored now (rds rw.2) room') ∧
  (flt CacheRemoveRoomPlayer = false →
   ∀ members, redis.GetRoomPlayers false now (rds w) roomID = Ret members →
     redis.GetRoomPlayers false now (rds rw.2) roomID
       = Ret (members ∖ {[pretty userID]}) ∧
     redis.IsRoomPlayer false now (rds rw.2) roomID userID = Ret false).
Proof.
  intros Hf0 Hf1 Hf2 Hfree Hget Hocc rw room'. subst rw. unfold LeaveRoom.
  destruct (locked_free flt now (leaveLock roomID) (5 * redis.Second)
              (LeaveRoom_locked s flt now userID roomID) w)
    as (c1 & Hc1 & _ & ->); [unfold redis.Second; lia|done|done|].
  rewrite (LeaveRoom_locked_not_last _ _ _ _ _ _ room) by done.
  cbn [fst snd store rds bus].
  destruct (GetByID_visible _ _ _ _ Hget) as (Hin & Hid & Hv).
  assert (Hlr := lockKey_roomKey (leaveLock roomID) roomID).
  assert (Hlp := lockKey_playersKey (leaveLock roomID) roomID).
  assert (Hrp := roomKey_playersKey roomID roomID).
  fold room'.
  assert (Hid' : ID room' = roomID) by done.
  set (cs := syncRoomToRedis s flt now c1 room').
  split; [done|]. split; [by rewrite Update_room_players|].
  split; [|split; [|split]].
  - unfold postgres.GetByRoomIDAndUserID. rewrite Update_room_players. simpl.
    by rewrite find_stamped.
  - intros ->. unfold postgres.GetByID. simpl. rewrite <- Hid' at 1.
    by rewrite find_save_eq.
  - intros Hf Hhash.
    apply (mirrored_ext now (redis.RemoveRoomPlayer (flt CacheRemoveRoomPlayer)
                               now cs roomID userID).2).
    { rewrite Hid'. by apply ReleaseLock_other. }
    apply (mirrored_ext now cs).
    { rewrite Hid'. unfold redis.RemoveRoomPlayer. by apply SRem_other. }
    apply syncRoomToRedis_mirrored; [done|]. rewrite Hid'. intros e He.
    apply Hhash. rewrite <- He. symmetry. apply peek_ext. by apply Hc1.
  - intros -> members Hm.
    assert (Hcs : redis.GetRoomPlayers false now cs roomID = Ret members).
    { rewrite <- Hm. apply GetRoomPlayers_ext. unfold cs.
      rewrite syncRoomToRedis_other by (by rewrite Hid'). by apply Hc1. }
    destruct (member_set_round_trip now cs roomID userID userID members Hcs)
      as (_ & _ & Hg & Hi & _).
    split.
    + rewrite <- Hg. apply GetRoomPlayers_ext. by apply ReleaseLock_other.
    + rewrite (IsRoomPlayer_ext _ _ _ _
                 (redis.RemoveRoomPlayer false now cs roomID userID).2)
        by (by apply ReleaseLock_other).
      rewrite Hi. f_equal. apply bool_decide_eq_false_2. by intros [? _].
Qed.

(** User 2 leaving the room of [sample.joined], which user 1 stays in. *)
Lemma LeaveRoom_not_last_witness :
  (LeaveRoom sample.service no_faults 30 2 1 sample.joined).1 = Success tt ∧
  postgres.GetByRoomIDAndUserID false
    (store (LeaveRoom sample.service no_faults 30 2 1 sample.joined).2) 1 2 = Ret None.
Proof.
  destruct (LeaveRoom_not_last sample.service no_faults 30 2 1 sample.joined
              (mkRoom 1 "abcd0123" "lobby" 1 RoomStatusWaiting 2 2 "chess" "{}"
                 None None (Some 1800000) None)) as (H1 & _ & H2 & _);
    [done|done|done|by vm_compute|by vm_compute|simpl; lia|].
  by split.
Defined.

(** ** Starting and ending a game *)

Lemma HGetAll_HSet now c k data h :
  cache.HGetAll false now c k = Ret h →
  cache.HGetAll false now (cache.HSet false now c k data).2 k = Ret (data ∪ h).
Proof.
  unfold cache.HGetAll, cache.HSet.
  destruct (cache.peek now c k) as [[[|h'|] exp]|] eqn:Hp; try done.
  - intros [= ->]. apply peek_live in Hp as [_ Hl]. simpl.
    rewrite peek_insert_eq. unfold cache.live in *. simpl in *. by rewrite Hl.
  - intros [= <-]. simpl. rewrite peek_insert_eq. simpl.
    by rewrite (right_id_L ∅ (∪)).
Qed.

Lemma GetRoomState_SetRoomState now c roomID data e h :
  redis.GetRoomState false now c roomID = Ret h →
  redis.GetRoomState false now (redis.SetRoomState false now c roomID data e).2 roomID
  = Ret (data ∪ h).
Proof. apply HGetAll_HSet. Qed.

Lemma StartGame_non_waiting_refused flt now roomID w room :
  postgres.GetByID false (store w) roomID = Ret (Some room) →
  Status room ≠ RoomStatusWaiting →
  (StartGame flt now roomID w).1 ≠ Success tt.
Proof.
  intros Hget Hst. unfold StartGame.
  destruct (locked_inv flt now (gameLock roomID) (10 * redis.Second)
              (StartGame_locked flt now roomID) w)
    as [[_ ->]|[(_ & _ & ->)|(_ & _ & c1 & _ & _ & ->)]];
    [unfold redis.Second; lia|done|done|].
  cbv zeta. by rewrite (StartGame_locked_non_waiting _ _ _ _ room).
Qed.

(** X8 (ProcessService.StartGame).  With the lock free and the lock
    request, the read and the update of the room going through,
    StartGame on a visible Waiting room succeeds: the room is Playing
    with its start time set, the memberships are untouched, one
    game_start event carrying the room is published (if the publish goes
    through), the room's hash in the cache takes the three fields status,
    started_at and game_state and keeps its others (if that write goes
    through), and a second StartGame is refused. *)
Theorem StartGame_success flt now roomID w room :
  flt LockAcquire = false → flt RoomGetByID = false → flt RoomUpdate = false →
  redis.held now (rds w) (gameLock roomID) = false →
  postgres.GetByID false (store w) roomID = Ret (Some room) →
  Status room = RoomStatusWaiting →
  let rw := StartGame flt now roomID w in
  let room' := withStartedAt (Some now) (withStatus RoomStatusPlaying room) in
  rw.1 = Success tt ∧
  postgres.GetByID false (store rw.2) roomID = Ret (Some room') ∧
  postgres.room_players (store rw.2) = postgres.room_players (store w) ∧
  bus rw.2 = (if flt EventPublish then bus w
              else bus w ++ [mkGameEvent "game_start" roomID 0 room' None (now / 1000)]) ∧
  (flt CacheSetRoomState = false →
   ∀ h, redis.GetRoomState false now (rds w) roomID = Ret h →
     GetGameState false now roomID rw.2
     = Ret (<["status" := cache.AInt 2]>
            (<["started_at" := cache.AInt (now / 1000)]>
            (<["game_state" := cache.AInt 2]> ∅)) ∪ h)) ∧
  (∀ flt' now', (StartGame flt' now' roomID rw.2).1 ≠ Success tt).
Proof.
  intros Hf0 Hf1 Hf2 Hfree Hget Hst rw room'. subst rw. unfold StartGame.
  destruct (locked_free flt now (gameLock roomID) (10 * redis.Second)
              (StartGame_locked flt now roomID) w)
    as (c1 & Hc1 & _ & ->); [unfold redis.Second; lia|done|done|].
  destruct (GetByID_visible _ _ _ _ Hget) as (Hin & Hid & Hv).
  assert (Hlr := lockKey_roomKey (gameLock roomID) roomID).
  assert (Hbody : StartGame_locked flt now roomID (mkWorld (store w) c1 (bus w)) =
    (Success tt,
     mkWorld (postgres.Update false (store w) room').2
       (redis.SetRoomState (flt CacheSetRoomState) now c1 roomID
          (<["status" := cache.AInt 2]>
           (<["started_at" := cache.AInt (now / 1000)]>
           (<["game_state" := cache.AInt 2]> ∅))) 0).2
       (PublishEvent (flt EventPublish) (bus w)
          (mkGameEvent "game_start" roomID 0 room' None (now / 1000))).2)).
  { unfold StartGame_locked. cbn [store rds bus]. rewrite Hf1, Hget.
    rewrite bool_decide_eq_false_2 by (by intros H; apply H).
    by rewrite Hf2. }
  rewrite Hbody. cbn [fst snd store rds bus].
  assert (Hget' : postgres.GetByID false (postgres.Update false (store w) room').2
                    roomID = Ret (Some room')).
  { unfold postgres.GetByID. simpl.
    replace roomID with (ID room') at 1 by done. by rewrite find_save_eq. }
  split; [done|]. split; [done|]. split; [done|].
  split; [by destruct (flt EventPublish)|]. split.
  - intros -> h Hh. unfold GetGameState. cbn [rds].
    rewrite (GetRoomState_ext _ _ _
               (redis.SetRoomState false now c1 roomID
                  (<["status" := cache.AInt 2]>
                   (<["started_at" := cache.AInt (now / 1000)]>
                   (<["game_state" := cache.AInt 2]> ∅))) 0).2)
      by (by apply ReleaseLock_other).
    apply GetRoomState_SetRoomState. rewrite <- Hh.
    apply GetRoomState_ext. by apply Hc1.
  - intros flt' now'. by apply (StartGame_non_waiting_refused _ _ _ _ room').
Qed.

(** StartGame on the room of [sample.joined]. *)
Lemma StartGame_success_witness :
  (StartGame no_faults 40 1 sample.joined).1 = Success tt ∧
  ev_Type <$> bus (StartGame no_faults 40 1 sample.joined).2 = ["game_start"].
Proof.
  destruct (StartGame_success no_faults 40 1 sample.joined
              (mkRoom 1 "abcd0123" "lobby" 1 RoomStatusWaiting 2 2 "chess" "{}"
                 None None (Some 1800000) None)) as (H1 & _ & _ & H2 & _);
    [done|done|done|by vm_compute|by vm_compute|done|].
  split; [done|]. by rewrite H2.
Defined.

(** X9 (ProcessService.EndGame).  With the lock free and the lock
    request, the read and the update of the room going through, EndGame
    on a visible room succeeds whatever the room's status: the room is
    Finished with its end time set, the memberships are untouched, one
    game_end event carrying the room and the results is published (if the
    publish goes through), and the room's hash in the cache takes the
    four fields status, ended_at, game_state and results and keeps its
    others (if that write goes through). *)
Theorem EndGame_success flt now roomID results w room :
  flt LockAcquire = false → flt RoomGetByID = false → flt RoomUpdate = false →
  redis.held now (rds w) (gameLock roomID) = false →
  postgres.GetByID false (store w) roomID = Ret (Some room) →
  let rw := EndGame flt now roomID results w in
  let room' := withEndedAt (Some now) (withStatus RoomStatusFinished room) in
  rw.1 = Success tt ∧
  postgres.GetByID false (store rw.2) roomID = Ret (Some room') ∧
  postgres.room_players (store rw.2) = postgres.room_players (store w) ∧
  bus rw.2 = (if flt EventPublish then bus w
              else bus w ++ [mkGameEvent "game_end" roomID 0 room' (Some results)
                               (now / 1000)]) ∧
  (flt CacheSetRoomState = false →
   ∀ h, redis.GetRoomState false now (rds w) roomID = Ret h →
     GetGameState false now roomID rw.2
     = Ret (<["status" := cache.AInt 3]>
            (<["ended_at" := cache.AInt (now / 1000)]>
            (<["game_state" := cache.AInt 5]>
            (<["results" := cache.AMap results]> ∅))) ∪ h)).
Proof.
  intros Hf0 Hf1 Hf2 Hfree Hget rw room'. subst rw. unfold EndGame.
  destruct (locked_free flt now (gameLock roomID) (10 * redis.Second)
              (EndGame_locked flt now roomID results) w)
    as (c1 & Hc1 & _ & ->); [unfold redis.Second; lia|done|done|].
  destruct (GetByID_visible _ _ _ _ Hget) as (Hin & Hid & Hv).
  assert (Hlr := lockKey_roomKey (gameLock roomID) roomID).
  assert (Hbody : EndGame_locked flt now roomID results (mkWorld (store w) c1 (bus w)) =
    (Success tt,
     mkWorld (postgres.Update false (store w) room').2
       (redis.SetRoomState (flt CacheSetRoomState) now c1 roomID
          (<["status" := cache.AInt 3]>
           (<["ended_at" := cache.AInt (now / 1000)]>
           (<["game_state" := cache.AInt 5]>
           (<["results" := cache.AMap results]> ∅)))) 0).2
       (PublishEvent (flt EventPublish) (bus w)
          (mkGameEvent "game_end" roomID 0 room' (Some results) (now / 1000))).2)).
  { unfold EndGame_locked. cbn [store rds bus]. rewrite Hf1, Hget.
    by rewrite Hf2. }
  rewrite Hbody. cbn [fst snd store rds bus].
  split; [done|]. split.
  { unfold postgres.GetByID. simpl.
    replace roomID with (ID room') at 1 by done. by rewrite find_save_eq. }
  split; [done|].
  split; [by destruct (flt EventPublish)|].
  intros -> h Hh. unfold GetGameState. cbn [rds].
  rewrite (GetRoomState_ext _ _ _
             (redis.SetRoomState false now c1 roomID
                (<["status" := cache.AInt 3]>
                 (<["ended_at" := cache.AInt (now / 1000)]>
                 (<["game_state" := cache.AInt 5]>
                 (<["results" := cache.AMap results]> ∅)))) 0).2)
    by (by apply ReleaseLock_other).
  apply GetRoomState_SetRoomState. rewrite <- Hh.
  apply GetRoomState_ext. by apply Hc1.
Qed.

(** EndGame on the room of [sample.joined], never started. *)
Lemma EndGame_success_witness :
  (EndGame no_faults 50 1 {[2%N := "win"]} sample.joined).1 = Success tt ∧
  ev_results <$> bus (EndGame no_faults 50 1 {[2%N := "win"]} sample.joined).2
    = [Some {[2%N := "win"]}].
Proof.
  destruct (EndGame_success no_faults 50 1 {[2%N := "win"]} sample.joined
              (mkRoom 1 "abcd0123" "lobby" 1 RoomStatusWaiting 2 2 "chess" "{}"
                 None None (Some 1800000) None)) as (H1 & _ & _ & H2 & _);
    [done|done|done|by vm_compute|by vm_compute|].
  split; [done|]. by rewrite H2.
Defined.

(** ** The game state in the cache *)

(** X10 (ProcessService.UpdateGameState, GetGameState).  UpdateGameState
    reads nothing from the store and touches neither it nor the events;
    where the room's hash can be read, what is read afterwards is the
    entries given, then the state under game_state unless an entry given
    has that name, then the fields there were. *)
Theorem UpdateGameState_merges now roomID state data w h :
  GetGameState false now roomID w = Ret h →
  let rw := UpdateGameState false now roomID state data w in
  rw.1 = Ret tt ∧ store rw.2 = store w ∧ bus rw.2 = bus w ∧
  GetGameState false now roomID rw.2
    = Ret (data ∪ {["game_state" := cache.AInt state]} ∪ h) ∧
  (∀ field,
     (data ∪ {["game_state" := cache.AInt state]} ∪ h) !! field =
     match data !! field with
     | Some v => Some v
     | None => if decide (field = "game_state") then Some (cache.AInt state)
               else h !! field
     end).
Proof.
  intros Hh. unfold UpdateGameState, GetGameState in *.
  pose proof (GetRoomState_SetRoomState now (rds w) roomID
                (data ∪ {["game_state" := cache.AInt state]}) 0 h Hh) as Hg.
  destruct (redis.SetRoomState false now (rds w) roomID _ 0) as [r c1] eqn:Hs.
  cbn [fst snd store rds bus] in *.
  split.
  { unfold redis.SetRoomState, cache.HSet, redis.GetRoomState, cache.HGetAll in *.
    destruct (cache.peek now (rds w) (redis.roomKey roomID)) as [[[] ?]|];
      simpl in *; congruence. }
  split; [done|]. split; [done|]. split; [done|].
  intros field. rewrite !lookup_union.
  destruct (data !! field) as [v|] eqn:Hd; simpl.
  - by rewrite !union_Some_l.
  - case_decide as Hfield.
    + subst field. rewrite lookup_singleton_eq. by destruct (h !! "game_state").
    + rewrite lookup_singleton_ne by done. by destruct (h !! field).
Qed.

(** A state update for room 1 of [sample.joined] that itself names
    game_state. *)
Lemma UpdateGameState_merges_witness :
  ∃ h, GetGameState false 40 1
         (UpdateGameState false 40 1 3 {["game_state" := cache.AStr "custom"]}
            sample.joined).2 = Ret h ∧
       h !! "game_state" = Some (cache.AStr "custom") ∧
       h !! "room_code" = Some (cache.AStr "abcd0123").
Proof.
  destruct (cache.peek 40 (rds sample.joined) (redis.roomKey 1))
    as [[[|h|] exp]|] eqn:Hp; try (by vm_compute in Hp).
  destruct (UpdateGameState_merges 40 1 3 {["game_state" := cache.AStr "custom"]}
              sample.joined h) as (_ & _ & _ & Hg & Hl).
  { unfold GetGameState, redis.GetRoomState, cache.HGetAll. by rewrite Hp. }
  eexists. split; [exact Hg|]. rewrite !Hl. split; [done|].
  simpl. vm_compute in Hp. by injection Hp as <- <-.
Defined.

(** ** A lock that is not released *)

Lemma DeleteRoom_other f c roomID key :
  key ≠ redis.roomKey roomID → key ≠ redis.playersKey roomID →
  (redis.DeleteRoom f c roomID).2 !! key = c !! key.
Proof.
  intros. unfold redis.DeleteRoom. apply Del_other.
  rewrite !not_elem_of_cons. repeat split; first [done|apply not_elem_of_nil].
Qed.

Lemma SetRoomState_lock f now c roomID data e k :
  (redis.SetRoomState f now c roomID data e).2 !! redis.lockKey k
  = c !! redis.lockKey k.
Proof. unfold redis.SetRoomState. apply HSet_other, lockKey_roomKey. Qed.

Lemma syncRoomToRedis_lock s flt now c room k :
  syncRoomToRedis s flt now c room !! redis.lockKey k = c !! redis.lockKey k.
Proof. apply syncRoomToRedis_other, lockKey_roomKey. Qed.

Lemma AddRoomPlayer_lock f now c roomID userID k :
  (redis.AddRoomPlayer f now c roomID userID).2 !! redis.lockKey k
  = c !! redis.lockKey k.
Proof. unfold redis.AddRoomPlayer. apply SAdd_other, lockKey_playersKey. Qed.

Lemma RemoveRoomPlayer_lock f now c roomID userID k :
  (redis.RemoveRoomPlayer f now c roomID userID).2 !! redis.lockKey k
  = c !! redis.lockKey k.
Proof. unfold redis.RemoveRoomPlayer. apply SRem_other, lockKey_playersKey. Qed.

Lemma DeleteRoom_lock f c roomID k :
  (redis.DeleteRoom f c roomID).2 !! redis.lockKey k = c !! redis.lockKey k.
Proof. apply DeleteRoom_other; [apply lockKey_roomKey|apply lockKey_playersKey]. Qed.

Ltac keeps_lock :=
  repeat case_match; cbn [fst snd rds]; try done;
  rewrite ?AddRoomPlayer_lock, ?RemoveRoomPlayer_lock, ?DeleteRoom_lock,
    ?syncRoomToRedis_lock, ?SetRoomState_lock; done.

Lemma JoinRoom_locked_lock s flt now userID roomCode w k :
  rds (JoinRoom_locked s flt now userID roomCode w).2 !! redis.lockKey k
  = rds w !! redis.lockKey k.
Proof. unfold JoinRoom_locked. keeps_lock. Qed.

Lemma LeaveRoom_locked_lock s flt now userID roomID w k :
  rds (LeaveRoom_locked s flt now userID roomID w).2 !! redis.lockKey k
  = rds w !! redis.lockKey k.
Proof. unfold LeaveRoom_locked. keeps_lock. Qed.

Lemma StartGame_locked_lock flt now roomID w k :
  rds (StartGame_locked flt now roomID w).2 !! redis.lockKey k
  = rds w !! redis.lockKey k.
Proof. unfold StartGame_locked. keeps_lock. Qed.

Lemma EndGame_locked_lock flt now roomID results w k :
  rds (EndGame_locked flt now roomID results w).2 !! redis.lockKey k
  = rds w !! redis.lockKey k.
Proof. unfold EndGame_locked. keeps_lock. Qed.

Lemma locked_release_fails {A : Type} flt now k ttl
    (body : World → result A * World) w t :
  0 < ttl → flt LockAcquire = false → flt LockRelease = true →
  redis.held now (rds w) k = false →
  (∀ w0, rds (body w0).2 !! redis.lockKey k = rds w0 !! redis.lockKey k) →
  redis.held t (rds (locked flt now k ttl body w).2) k = bool_decide (t < now + ttl).
Proof.
  intros Httl Hf0 Hf1 Hfree Hbody.
  destruct (locked_free flt now k ttl body w) as (c1 & _ & Hc1 & ->);
    [lia|done|done|].
  cbn [fst snd rds]. rewrite Hf1.
  rewrite <- (held_after_acquire now t c1 k ttl Httl).
  apply same_lock_ext.
  change (redis.ReleaseLock true ?c k).2 with c.
  by rewrite Hbody, lookup_insert_eq.
Qed.

(** X11 (the deferred ReleaseLock of JoinRoom, LeaveRoom, StartGame and
    EndGame).  When the lock is free, the request for it goes through
    and the release at the end fails, the operation leaves its lock held
    until the lock's time to live has run out from the call on, 5 seconds
    for JoinRoom and LeaveRoom and 10 for StartGame and EndGame, whatever
    the operation itself did. *)
Theorem lock_held_until_expiry_when_release_fails
    s flt now userID roomCode roomID results w t :
  flt LockAcquire = false → flt LockRelease = true →
  (redis.held now (rds w) (joinLock roomCode) = false →
   redis.held t (rds (JoinRoom s flt now userID roomCode w).2) (joinLock roomCode)
   = bool_decide (t < now + 5000)) ∧
  (redis.held now (rds w) (leaveLock roomID) = false →
   redis.held t (rds (LeaveRoom s flt now userID roomID w).2) (leaveLock roomID)
   = bool_decide (t < now + 5000)) ∧
  (redis.held now (rds w) (gameLock roomID) = false →
   redis.held t (rds (StartGame flt now roomID w).2) (gameLock roomID)
   = bool_decide (t < now + 10000) ∧
   redis.held t (rds (EndGame flt now roomID results w).2) (gameLock roomID)
   = bool_decide (t < now + 10000)).
Proof.
  intros Hf0 Hf1. split; [|split]; intros Hfree; [| |split].
  - apply (locked_release_fails flt now _ (5 * redis.Second)); try done.
    intros w0. apply JoinRoom_locked_lock.
  - apply (locked_release_fails flt now _ (5 * redis.Second)); try done.
    intros w0. apply LeaveRoom_locked_lock.
  - apply (locked_release_fails flt now _ (10 * redis.Second)); try done.
    intros w0. apply StartGame_locked_lock.
  - apply (locked_release_fails flt now _ (10 * redis.Second)); try done.
    intros w0. apply EndGame_locked_lock.
Qed.

(** A join of the room of [sample.created] at time 10 whose release
    fails: the lock is held at 5009 and free at 5010. *)
Lemma lock_held_until_expiry_when_release_fails_witness :
  let w := (JoinRoom sample.service (only LockRelease) 10 2 "abcd0123"
              sample.created).2 in
  redis.held 5009 (rds w) (joinLock "abcd0123") = true ∧
  redis.held 5010 (rds w) (joinLock "abcd0123") = false.
Proof.
  split.
  - by rewrite (proj1 (lock_held_until_expiry_when_release_fails sample.service
        (only LockRelease) 10 2 "abcd0123" 1 ∅ sample.created 5009
        eq_refl eq_refl) eq_refl).
  - by rewrite (proj1 (lock_held_until_expiry_when_release_fails sample.service
        (only LockRelease) 10 2 "abcd0123" 1 ∅ sample.created 5010
        eq_refl eq_refl) eq_refl).
Defined.

(** ** The last member leaves *)

(** C6, as the code has it. With the lock free and the lock request, the
    read of the room and the closing of the membership going through,
    LeaveRoom on a room of occupancy 1 succeeds, whichever of its three
    writes that follow fail, and the caller has no open membership in
    the room. When the delete in the store goes through, no row of that
    id is visible, so GetRoom answers NotFound, the row left behind is
    soft-deleted with occupancy 0 (if the occupancy update went through),
    and after any further sequence of operations, whatever their faults,
    GetRoom on that id still answers NotFound; when the delete in the
    store fails, the room stays visible, with occupancy 0 if the
    occupancy update went through and as it was if not. When the delete
    in the cache goes through, the room's hash and its member set are
    gone from the cache; when it fails, both are as they were. *)
Theorem C6_last_leave_deletes_room s flt now userID roomID w room :
  seq_ok (store w) →
  flt LockAcquire = false → flt RoomGetByID = false → flt PlayerLeaveRoom = false →
  redis.held now (rds w) (leaveLock roomID) = false →
  postgres.GetByID false (store w) roomID = Ret (Some room) →
  CurrentPlayers room = 1 →
  let rw := LeaveRoom s flt now userID roomID w in
  rw.1 = Success tt ∧
  (∀ p, p ∈ postgres.room_players (store rw.2) →
        RoomID p = roomID → UserID p = userID → LeftAt p ≠ None) ∧
  (flt RoomDelete = false →
     (flt RoomUpdate = false →
        withDeletedAt (Some now) (withCurrentPlayers 0 room)
          ∈ postgres.rooms (store rw.2)) ∧
     gone roomID (store rw.2) ∧
     GetRoom no_faults roomID rw.2 = Error ErrCodeNotFound ∧
     (∀ ops flt', flt' RoomGetByID = false →
        GetRoom flt' roomID (run ops rw.2) = Error ErrCodeNotFound)) ∧
  (flt RoomDelete = true →
     GetRoom no_faults roomID rw.2
     = Success (if flt RoomUpdate then room else withCurrentPlayers 0 room)) ∧
  (flt CacheDeleteRoom = false →
     rds rw.2 !! redis.roomKey roomID = None ∧
     rds rw.2 !! redis.playersKey roomID = None) ∧
  (flt CacheDeleteRoom = true →
     rds rw.2 !! redis.roomKey roomID = rds w !! redis.roomKey roomID ∧
     rds rw.2 !! redis.playersKey roomID = rds w !! redis.playersKey roomID).
Proof.
  intros Hok Hf0 Hf1 Hf2 Hfree Hget Hocc rw. subst rw. unfold LeaveRoom.
  destruct (locked_free flt now (leaveLock roomID) (5 * redis.Second)
              (LeaveRoom_locked s flt now userID roomID) w)
    as (c1 & Hc1 & _ & ->); [unfold redis.Second; lia|done|done|].
  rewrite (LeaveRoom_locked_last _ _ _ _ _ _ room) by done.
  cbn [fst snd store rds bus].
  destruct (GetByID_visible _ _ _ _ Hget) as (Hin & Hid & Hv).
  assert (Hlr := lockKey_roomKey (leaveLock roomID) roomID).
  assert (Hlp := lockKey_playersKey (leaveLock roomID) roomID).
  set (db1 := postgres.Update (flt RoomUpdate) _ _).
  split; [done|]. split; [|split; [|split; [|split]]].
  - intros p. rewrite Delete_room_players. unfold db1.
    rewrite Update_room_players.
    simpl. intros [p0 [-> Hp0]]%list_elem_of_fmap.
    destruct (stamp_cases now roomID userID p0) as [[_ ->]|[Hn ->]]; [done|].
    intros Hr Hu. by destruct Hn.
  - intros ->.
    set (db2 := (postgres.Delete false now db1.2 roomID).2).
    assert (Hgone : gone roomID db2) by apply gone_Delete.
    assert (Hret : retired roomID db2).
    { assert (Hok1 : seq_ok (postgres.LeaveRoom false now (store w) roomID userID).2)
        by exact Hok.
      assert (Hle : (roomID ≤ postgres.rooms_seq (store w))%N)
        by (rewrite <- Hid; by apply Hok).
      split; [|split; [|done]].
      - apply seq_ok_Delete, seq_ok_Update; [done|]. simpl. by rewrite Hid.
      - unfold db2. rewrite Delete_seq. unfold db1. by rewrite Update_seq. }
    split; [|split; [done|split]].
    + intros Hu. unfold db2, db1. rewrite Hu. simpl.
      apply list_elem_of_fmap.
      exists (withCurrentPlayers 0 room). split.
      * replace (postgres.by_id roomID (withCurrentPlayers 0 room)) with true; [done|].
        symmetry. by apply by_id_true.
      * apply elem_of_save_self.
    + unfold GetRoom. cbn [store]. change (no_faults RoomGetByID) with false.
      by rewrite gone_GetByID.
    + intros ops flt' Hf'. unfold GetRoom. rewrite Hf'.
      rewrite gone_GetByID; [done|].
      by apply (retired_run roomID ops).
  - intros ->. unfold GetRoom. cbn [store snd postgres.Delete].
    change (no_faults RoomGetByID) with false.
    unfold db1, postgres.Update. destruct (flt RoomUpdate); cbn [snd].
    + change (postgres.GetByID false
                (postgres.LeaveRoom false now (store w) roomID userID).2 roomID)
        with (postgres.GetByID false (store w) roomID).
      by rewrite Hget.
    + unfold postgres.GetByID. cbn [postgres.rooms].
      replace roomID with (ID (withCurrentPlayers 0 room)) at 1 by done.
      by rewrite find_save_eq.
  - intros ->. split.
    + apply ReleaseLock_keeps_none. simpl. apply lookup_delete_eq.
    + apply ReleaseLock_keeps_none. simpl. rewrite lookup_delete.
      case_decide; [done|]. apply lookup_delete_eq.
  - intros ->. split.
    + rewrite ReleaseLock_other by done. by apply Hc1.
    + rewrite ReleaseLock_other by done. by apply Hc1.
Qed.

(** The owner leaves the sample room of one. *)
Lemma C6_witness :
  (LeaveRoom sample.service no_faults 50 1 1 sample.created).1 = Success tt ∧
  GetRoom no_faults 1 (LeaveRoom sample.service no_faults 50 1 1 sample.created).2 =
    Error ErrCodeNotFound.
Proof.
  pose proof (C6_last_leave_deletes_room sample.service no_faults 50 1 1 sample.created
    (mkRoom 1 "abcd0123" "lobby" 1 RoomStatusWaiting 2 1 "chess" "{}"
       None None (Some 1800000) None)) as H.
  simpl in H.
  destruct H as (H1 & _ & H2 & _); try reflexivity.
  - intros r [->|Hr%elem_of_nil]%elem_of_cons; [simpl; lia|done].
  - split; [exact H1|]. by destruct H2 as (_ & _ & H2 & _).
Defined.

(** C6, as stated, fails: when the delete in the store fails, LeaveRoom
    of the owner from the sample room of one succeeds and GetRoom still
    returns the room; when the delete in the cache fails, it succeeds and
    the room's hash stays in the cache. *)
Lemma C6_counterexample :
  (LeaveRoom sample.service (only RoomDelete) 50 1 1 sample.created).1 = Success tt ∧
  GetRoom no_faults 1 (LeaveRoom sample.service (only RoomDelete) 50 1 1
                         sample.created).2 ≠ Error ErrCodeNotFound ∧
  ¬ last_leave_deletes sample.service (only RoomDelete) 50 1 1 sample.created ∧
  ¬ last_leave_deletes sample.service (only CacheDeleteRoom) 50 1 1 sample.created.
Proof.
  split; [by vm_compute|]. split; [by vm_compute|]. split.
  - intros H.
    destruct (H (mkRoom 1 "abcd0123" "lobby" 1 RoomStatusWaiting 2 1 "chess" "{}"
                   None None (Some 1800000) None)) as (Hg & _);
      [by vm_compute|done|by vm_compute|].
    vm_compute in Hg. discriminate.
  - intros H.
    destruct (H (mkRoom 1 "abcd0123" "lobby" 1 RoomStatusWaiting 2 1 "chess" "{}"
                   None None (Some 1800000) None)) as (_ & Hc & _);
      [by vm_compute|done|by vm_compute|].
    vm_compute in Hc. discriminate.
Qed.

(** ** The locks of the four operations *)







(** ** The occupancy counter and the capacity *)

Lemma capacity_ext db db' :
  postgres.rooms db' = postgres.rooms db → within_capacity db → within_capacity db'.
Proof. unfold within_capacity. by intros ->. Qed.

Lemma capacity_Update f db room :
  within_capacity db → 0 ≤ CurrentPlayers room ≤ MaxPlayers room →
  within_capacity (postgres.Update f db room).2.
Proof.
  intros Hc Hroom. unfold postgres.Update. destruct f; [done|].
  intros r [->|Hr]%elem_of_save; [done|by apply Hc].
Qed.

Lemma capacity_Delete f now db id :
  within_capacity db → within_capacity (postgres.Delete f now db id).2.
Proof.
  intros Hc. unfold postgres.Delete. destruct f; [done|].
  intros r [r0 [-> Hr0]]%list_elem_of_fmap. specialize (Hc r0 Hr0).
  by destruct (postgres.by_id id r0).
Qed.

Lemma capacity_Create f db room row db' :
  within_capacity db → CurrentPlayers room = 0 → 0 ≤ MaxPlayers room →
  postgres.Create f db room = (Ret row, db') →
  within_capacity db' ∧ CurrentPlayers row = 0 ∧ 1 ≤ MaxPlayers row.
Proof.
  intros Hc Hcp Hmax. unfold postgres.Create. destruct f; [done|].
  destruct (existsb _ _); [done|]. intros [= <- <-].
  assert (Hrow : CurrentPlayers
            (withID (postgres.rooms_seq db + 1)
               (if MaxPlayers room =? 0 then withMaxPlayers 10 room else room)) = 0 ∧
          1 ≤ MaxPlayers
            (withID (postgres.rooms_seq db + 1)
               (if MaxPlayers room =? 0 then withMaxPlayers 10 room else room))).
  { destruct (Z.eqb_spec (MaxPlayers room) 0); simpl; lia. }
  split; [|done]. intros r [Hr|Hr]%elem_of_app; [by apply Hc|].
  apply list_elem_of_singleton in Hr as ->. lia.
Qed.

Lemma capacity_CreateRoom s flt now rnd ownerID req w :
  0 ≤ maxPlayers s → within_capacity (store w) →
  within_capacity (store (CreateRoom s flt now rnd ownerID req w).2).
Proof.
  intros Hmax Hc. unfold CreateRoom.
  destruct (generateRoomCode _ _) as [code|]; [|done].
  destruct (postgres.Create _ _ _) as [[row|] db1] eqn:Hcr; [|done].
  apply capacity_Create in Hcr as (Hc1 & Hcp & Hm); [|done..].
  unfold postgres.CreatePlayer. destruct (flt PlayerCreate); cbn [fst snd store].
  - by apply capacity_Delete.
  - apply capacity_Update; [done|]. simpl. lia.
Qed.

Lemma capacity_JoinRoom s flt now userID roomCode w :
  within_capacity (store w) →
  within_capacity (store (JoinRoom s flt now userID roomCode w).2).
Proof.
  intros Hc. unfold JoinRoom.
  apply locked_store_inv; [unfold redis.Second; lia|done|].
  intros w0 Hw0. unfold JoinRoom_locked. rewrite Hw0.
  destruct (postgres.GetByRoomCode _ _ _) as [[room|]|] eqn:Hget;
    simpl; try (simpl; by rewrite Hw0).
  destruct (GetByRoomCode_visible _ _ _ _ Hget) as (Hin & _ & Hv).
  destruct (bool_decide _); [simpl; by rewrite Hw0|].
  destruct (Z.leb_spec (MaxPlayers room) (CurrentPlayers room)); [simpl; by rewrite Hw0|].
  destruct (postgres.GetByRoomIDAndUserID _ _ _ _) as [[p|]|];
    try (simpl; by rewrite Hw0).
  destruct (postgres.GetByRoomID _ _ _) as [players|]; [|simpl; by rewrite Hw0].
  unfold postgres.CreatePlayer. destruct (flt PlayerCreate); [simpl; by rewrite Hw0|].
  cbn [fst snd store]. apply capacity_Update; [done|].
  specialize (Hc room Hin). simpl. lia.
Qed.

Lemma capacity_LeaveRoom s flt now userID roomID w :
  within_capacity (store w) →
  within_capacity (store (LeaveRoom s flt now userID roomID w).2).
Proof.
  intros Hc. unfold LeaveRoom.
  apply locked_store_inv; [unfold redis.Second; lia|done|].
  intros w0 Hw0. unfold LeaveRoom_locked. rewrite Hw0.
  destruct (postgres.GetByID _ _ _) as [[room|]|] eqn:Hget;
    simpl; try (simpl; by rewrite Hw0).
  destruct (GetByID_visible _ _ _ _ Hget) as (Hin & _ & Hv).
  specialize (Hc room Hin) as Hroom.
  unfold postgres.LeaveRoom. destruct (flt PlayerLeaveRoom); [simpl; by rewrite Hw0|].
  set (db1 := postgres.mkDB _ _ _ _).
  assert (Hc1 : within_capacity db1) by done.
  destruct (Z.ltb_spec 0 (CurrentPlayers room)).
  - destruct (_ =? 0); cbn [fst snd store];
      [apply capacity_Delete|]; apply capacity_Update; try done; simpl; lia.
  - destruct (_ =? 0); cbn [fst snd store]; [by apply capacity_Delete|done].
Qed.

Lemma capacity_StartGame flt now roomID w :
  within_capacity (store w) →
  within_capacity (store (StartGame flt now roomID w).2).
Proof.
  intros Hc. unfold StartGame.
  apply locked_store_inv; [unfold redis.Second; lia|done|].
  intros w0 Hw0. unfold StartGame_locked. rewrite Hw0.
  destruct (postgres.GetByID _ _ _) as [[room|]|] eqn:Hget;
    simpl; try (simpl; by rewrite Hw0).
  destruct (GetByID_visible _ _ _ _ Hget) as (Hin & _ & Hv).
  destruct (bool_decide _); [simpl; by rewrite Hw0|].
  pose proof (capacity_Update (flt RoomUpdate) (store w)
    (withStartedAt (Some now) (withStatus RoomStatusPlaying room)) Hc (Hc room Hin)) as H.
  destruct (postgres.Update _ _ _) as [[u|] db1]; simpl in *; [done|by rewrite Hw0].
Qed.

Lemma capacity_EndGame flt now roomID results w :
  within_capacity (store w) →
  within_capacity (store (EndGame flt now roomID results w).2).
Proof.
  intros Hc. unfold EndGame.
  apply locked_store_inv; [unfold redis.Second; lia|done|].
  intros w0 Hw0. unfold EndGame_locked. rewrite Hw0.
  destruct (postgres.GetByID _ _ _) as [[room|]|] eqn:Hget;
    simpl; try (simpl; by rewrite Hw0).
  destruct (GetByID_visible _ _ _ _ Hget) as (Hin & _ & Hv).
  pose proof (capacity_Update (flt RoomUpdate) (store w)
    (withEndedAt (Some now) (withStatus RoomStatusFinished room)) Hc (Hc room Hin)) as H.
  destruct (postgres.Update _ _ _) as [[u|] db1]; simpl in *; [done|by rewrite Hw0].
Qed.

Lemma capacity_step op w :
  configured op → within_capacity (store w) → within_capacity (store (step op w)).
Proof.
  destruct op; simpl; intros Hcfg Hc.
  - by apply capacity_CreateRoom.
  - by apply capacity_JoinRoom.
  - by apply capacity_LeaveRoom.
  - by apply capacity_StartGame.
  - by apply capacity_EndGame.
Qed.

(** X12 (the occupancy counter of CreateRoom, JoinRoom and LeaveRoom).
    Whatever calls are made and whichever of their collaborator calls
    fail, no room's occupancy counter goes below 0 or above the room's
    capacity, provided the services that create rooms are configured with
    a capacity that is not negative. *)
Theorem counter_stays_within_capacity ops w :
  Forall configured ops → within_capacity (store w) →
  within_capacity (store (run ops w)).
Proof.
  intros Hcfg. revert w. induction Hcfg as [|op ops Hop _ IH]; intros w Hc; [done|].
  apply IH. by apply capacity_step.
Qed.

(** A room for two: created, joined by a second user, refused to a
    third. *)
Lemma counter_stays_within_capacity_witness :
  within_capacity
    (store (run [OpCreateRoom sample.service no_faults 0 (171, 205, 1, 35)%N 1
                   sample.request;
                 OpJoinRoom sample.service (only RoomUpdate) 10 2 "abcd0123";
                 OpJoinRoom sample.service no_faults 20 3 "abcd0123"]
              sample.empty)).
Proof.
  apply counter_stays_within_capacity.
  - repeat constructor. simpl. lia.
  - intros room Hroom. by apply elem_of_nil in Hroom.
Defined.

(** X13 (CreateRoom, JoinRoom, LeaveRoom, StartGame, EndGame).  Along a
    run of regular calls from a sound store within capacity, the store
    stays sound and no visible room has more open memberships than its
    capacity. *)
Theorem regular_runs_never_overfill ops w :
  sound (store w) → within_capacity (store w) →
  Forall configured ops → regular_run ops w →
  sound (store (run ops w)) ∧
  ∀ room, room ∈ postgres.rooms (store (run ops w)) → DeletedAt room = None →
    0 ≤ active_count (store (run ops w)) (ID room) ≤ MaxPlayers room.
Proof.
  intros Hs Hc Hcfg. revert w Hs Hc.
  induction Hcfg as [|op ops Hop _ IH]; intros w Hs Hc Hreg.
  - split; [done|]. change (run [] w) with w. intros room Hin Hv.
    destruct Hs as (_ & _ & _ & _ & Hocc). rewrite <- (Hocc room Hin Hv).
    by apply Hc.
  - destruct Hreg as [Hreg Hrest]. apply IH; [|by apply capacity_step|done].
    by apply sound_step.
Qed.

(** The room for two of [sample.created], joined by user 3. *)
Lemma regular_runs_never_overfill_witness :
  let w := run [OpJoinRoom sample.service no_faults 20 3 "abcd0123"] sample.created in
  sound (store w) ∧ 0 ≤ active_count (store w) 1 ≤ 2.
Proof.
  intros w.
  destruct (regular_runs_never_overfill
              [OpJoinRoom sample.service no_faults 20 3 "abcd0123"] sample.created)
    as [Hs Hb].
  - change sample.created with
      (step (OpCreateRoom sample.service no_faults 0 (171, 205, 1, 35)%N 1
               sample.request) sample.empty).
    apply sound_step; [apply sound_empty|done].
  - change sample.created with
      (step (OpCreateRoom sample.service no_faults 0 (171, 205, 1, 35)%N 1
               sample.request) sample.empty).
    apply capacity_step; [simpl; lia|].
    intros room Hroom. by apply elem_of_nil in Hroom.
  - repeat constructor.
  - by split.
  - split; [exact Hs|].
    apply (Hb (mkRoom 1 "abcd0123" "lobby" 1 RoomStatusWaiting 2 2 "chess" "{}"
                 None None (Some 1800000) None)); [|done].
    vm_compute. apply list_elem_of_here.
Defined.

(** ** Rows are kept *)

(** A property of the store that each of the five writes of the two
    repositories keeps is kept by every operation. *)
Lemma step_store_ind (P : postgres.DB → Prop) :
  (∀ f db room, P db → P (postgres.Create f db room).2) →
  (∀ f db p, P db → P (postgres.CreatePlayer f db p).2) →
  (∀ f db room, P db → P (postgres.Update f db room).2) →
  (∀ f now db id, P db → P (postgres.Delete f now db id).2) →
  (∀ f now db r u, P db → P (postgres.LeaveRoom f now db r u).2) →
  ∀ op w, P (store w) → P (store (step op w)).
Proof.
  intros HC HCP HU HD HL op w HP.
  destruct op as [s flt now rnd ownerID req|s flt now userID roomCode
                  |s flt now userID roomID|flt now roomID|flt now roomID results];
    cbn [step].
  - unfold CreateRoom.
    destruct (generateRoomCode _ _) as [code|]; [|done].
    match goal with |- context [postgres.Create ?f ?db ?room] =>
      pose proof (HC f db room HP) as H1;
      destruct (postgres.Create f db room) as [[row|] db1] end; [|done].
    cbn [snd] in H1.
    match goal with |- context [postgres.CreatePlayer ?f ?db ?p] =>
      pose proof (HCP f db p H1) as H2;
      destruct (postgres.CreatePlayer f db p) as [[p'|] db2] end;
      cbn [fst snd store] in *.
    + by apply HU.
    + by apply HD.
  - unfold JoinRoom.
    apply locked_store_inv; [unfold redis.Second; lia|done|].
    intros w0 Hw0. unfold JoinRoom_locked. rewrite Hw0.
    destruct (postgres.GetByRoomCode _ _ _) as [[room|]|];
      cbn [fst snd store]; try (by rewrite Hw0).
    destruct (bool_decide _); [cbn [snd]; by rewrite Hw0|].
    destruct (_ <=? _); [cbn [snd]; by rewrite Hw0|].
    destruct (postgres.GetByRoomIDAndUserID _ _ _ _) as [[p|]|];
      try (cbn [snd]; by rewrite Hw0).
    destruct (postgres.GetByRoomID _ _ _) as [players|]; [|cbn [snd]; by rewrite Hw0].
    match goal with |- context [postgres.CreatePlayer ?f ?db ?p] =>
      pose proof (HCP f db p HP) as H2;
      destruct (postgres.CreatePlayer f db p) as [[p'|] db2] end;
      cbn [fst snd store] in *; [|by rewrite Hw0].
    by apply HU.
  - unfold LeaveRoom.
    apply locked_store_inv; [unfold redis.Second; lia|done|].
    intros w0 Hw0. unfold LeaveRoom_locked. rewrite Hw0.
    destruct (postgres.GetByID _ _ _) as [[room|]|];
      cbn [fst snd store]; try (by rewrite Hw0).
    match goal with |- context [postgres.LeaveRoom ?f ?now ?db ?r ?u] =>
      pose proof (HL f now db r u HP) as H2;
      destruct (postgres.LeaveRoom f now db r u) as [[u'|] db2] end;
      cbn [fst snd store] in *; [|by rewrite Hw0].
    destruct (0 <? CurrentPlayers room).
    + destruct (_ =? 0); cbn [fst snd store]; [apply HD|]; by apply HU.
    + destruct (_ =? 0); cbn [fst snd store]; [by apply HD|done].
  - unfold StartGame.
    apply locked_store_inv; [unfold redis.Second; lia|done|].
    intros w0 Hw0. unfold StartGame_locked. rewrite Hw0.
    destruct (postgres.GetByID _ _ _) as [[room|]|];
      cbn [fst snd store]; try (by rewrite Hw0).
    destruct (bool_decide _); [cbn [snd]; by rewrite Hw0|].
    match goal with |- context [postgres.Update ?f ?db ?r] =>
      pose proof (HU f db r HP) as H2;
      destruct (postgres.Update f db r) as [[u'|] db2] end;
      cbn [fst snd store] in *; [done|by rewrite Hw0].
  - unfold EndGame.
    apply locked_store_inv; [unfold redis.Second; lia|done|].
    intros w0 Hw0. unfold EndGame_locked. rewrite Hw0.
    destruct (postgres.GetByID _ _ _) as [[room|]|];
      cbn [fst snd store]; try (by rewrite Hw0).
    match goal with |- context [postgres.Update ?f ?db ?r] =>
      pose proof (HU f db r HP) as H2;
      destruct (postgres.Update f db r) as [[u'|] db2] end;
      cbn [fst snd store] in *; [done|by rewrite Hw0].
Qed.

Lemma save_ids_prefix room rows :
  (ID <$> rows) `prefix_of` (ID <$> postgres.save room rows).
Proof.
  induction rows as [|r rows IH]; [apply prefix_nil|]. simpl.
  case_bool_decide as Hid; csimpl.
  - by rewrite Hid.
  - by apply prefix_cons.
Qed.

Lemma stamp_erased now roomID userID (l : list RoomPlayer) :
  withLeftAt None <$> map (postgres.stamp now roomID userID) l = withLeftAt None <$> l.
Proof.
  induction l as [|p l IH]; [done|]. csimpl. rewrite IH. f_equal.
  by destruct (stamp_cases now roomID userID p) as [[_ ->]|[_ ->]].
Qed.

Lemma continues_refl db : continues db db.
Proof. by split. Qed.

Lemma continues_step db0 op w :
  continues db0 (store w) → continues db0 (store (step op w)).
Proof.
  apply step_store_ind; clear op w.
  - intros f db room [H1 H2]. unfold postgres.Create. destruct f; [done|].
    destruct (existsb _ _); [done|]. split; [|done]. simpl.
    rewrite fmap_app. etrans; [exact H1|]. by apply prefix_app_r.
  - intros f db p [H1 H2]. unfold postgres.CreatePlayer. destruct f; [done|].
    split; [done|]. simpl.
    rewrite fmap_app. etrans; [exact H2|]. by apply prefix_app_r.
  - intros f db room [H1 H2]. unfold postgres.Update. destruct f; [done|].
    split; [|done]. simpl. etrans; [exact H1|]. apply save_ids_prefix.
  - intros f now db id [H1 H2]. unfold postgres.Delete. destruct f; [done|].
    split; [|done]. simpl. by rewrite Delete_ids.
  - intros f now db r u [H1 H2]. unfold postgres.LeaveRoom. destruct f; [done|].
    split; [done|]. simpl. by rewrite stamp_erased.
Qed.

Lemma continues_run db0 ops w :
  continues db0 (store w) → continues db0 (store (run ops w)).
Proof.
  revert w. induction ops as [|op ops IH]; intros w H; [done|].
  apply IH. by apply continues_step.
Qed.

(** X14 (the writes of RoomRepository and RoomPlayerRepository as the
    services use them).  Whatever calls are made and whichever of their
    collaborator calls fail, no row is ever removed from either table and
    no row changes its id or its place: the rooms that were there stay
    under their ids, in order, and so do the memberships with their room,
    user, seat and join time; new rows only come after them. *)
Theorem rows_are_never_removed ops w :
  continues (store w) (store (run ops w)) ∧
  (length (postgres.rooms (store w)) ≤ length (postgres.rooms (store (run ops w))))%nat ∧
  ∀ i p, postgres.room_players (store w) !! i = Some p →
    ∃ p', postgres.room_players (store (run ops w)) !! i = Some p' ∧
          withLeftAt None p' = withLeftAt None p.
Proof.
  pose proof (continues_run (store w) ops w (continues_refl _)) as [H1 H2].
  split; [done|]. split.
  - apply prefix_length in H1. by rewrite !length_fmap in H1.
  - intros i p Hp.
    assert (Hi : (withLeftAt None <$> postgres.room_players (store w)) !! i
                 = Some (withLeftAt None p)) by (by rewrite list_lookup_fmap, Hp).
    eapply prefix_lookup_Some in Hi; [|exact H2].
    rewrite list_lookup_fmap in Hi.
    destruct (postgres.room_players (store (run ops w)) !! i) as [p'|]; [|done].
    exists p'. split; [done|].
    change (Some (withLeftAt None p') = Some (withLeftAt None p)) in Hi.
    congruence.
Qed.

(** ** The status over runs *)

Lemma find_None_gone id db :
  find (postgres.by_id id) (postgres.rooms db) = None → gone id db.
Proof.
  intros Hf r Hr Hid Hv. apply find_none_iff with (x := r) in Hf; [|done].
  assert (postgres.by_id id r = true) by (by apply by_id_true). congruence.
Qed.

Lemma continues_id db db' r :
  continues db db' → r ∈ postgres.rooms db →
  ∃ r', r' ∈ postgres.rooms db' ∧ ID r' = ID r.
Proof.
  intros [[k Hk] _] Hr.
  assert (Hin : ID r ∈ ID <$> postgres.rooms db').
  { rewrite Hk. apply elem_of_app. left. apply list_elem_of_fmap. by exists r. }
  apply list_elem_of_fmap in Hin as (r' & Hid & Hr'). by exists r'.
Qed.

(** X15 (CreateRoom, JoinRoom, LeaveRoom, StartGame).  Along a run of
    regular calls in which EndGame does not occur, from a sound store,
    the status of a room that is visible before and after has only moved
    along the lifecycle, if it has moved. *)
Theorem status_only_moves_forward ops w :
  sound (store w) → regular_run ops w → Forall not_EndGame ops →
  status_related (rtc forward) (store w) (store (run ops w)).
Proof.
  intros Hs Hreg Hno. revert w Hs Hreg.
  induction Hno as [|op ops Hop _ IH]; intros w Hs Hreg.
  { apply status_related_refl. intros st. apply rtc_refl. }
  destruct Hreg as [Hreg Hrest].
  assert (Hs1 : sound (store (step op w))) by (by apply sound_step).
  assert (H1 : status_related forward (store w) (store (step op w))).
  { apply status_forward_but_EndGame; [done|]. by destruct op. }
  specialize (IH _ Hs1 Hrest).
  intros id r r'' Hr Hr''. change (run (op :: ops) w) with (run ops (step op w)) in Hr''.
  destruct (find (postgres.by_id id) (postgres.rooms (store (step op w))))
    as [r'|] eqn:Hr'.
  - eapply rtc_l; [by apply (H1 id r r')|by apply (IH id r' r'')].
  - exfalso.
    apply find_some_elem in Hr as [Hin [Hid _]%by_id_true].
    assert (Hret : retired id (store (step op w))).
    { split; [by destruct Hs1|]. split; [|by apply find_None_gone].
      destruct (continues_id (store w) (store (step op w)) r) as (r1 & Hr1 & Hid1);
        [apply continues_step, continues_refl|done|].
      destruct Hs1 as (Hok & _). rewrite <- Hid, <- Hid1. by apply Hok. }
    apply (retired_run id ops) in Hret as (_ & _ & Hgone).
    apply gone_GetByID in Hgone. unfold postgres.GetByID in Hgone. congruence.
Qed.

(** The room of [sample.created], joined and started. *)
Lemma status_only_moves_forward_witness :
  status_related (rtc forward) (store sample.created)
    (store (run [OpJoinRoom sample.service no_faults 10 2 "abcd0123";
                 OpStartGame no_faults 40 1] sample.created)).
Proof.
  apply status_only_moves_forward.
  - change sample.created with
      (step (OpCreateRoom sample.service no_faults 0 (171, 205, 1, 35)%N 1
               sample.request) sample.empty).
    apply sound_step; [apply sound_empty|done].
  - by repeat split.
  - by repeat constructor.
Defined.

(** ** Sessions *)

Lemma sessionKey_inj a b : redis.sessionKey a = redis.sessionKey b → a = b.
Proof. unfold redis.sessionKey. intros [= H]. by apply (inj pretty). Qed.

Lemma sessionKey_onlineKey a : redis.sessionKey a ≠ redis.onlineKey.
Proof. unfold redis.sessionKey, redis.onlineKey. by intros [= H]. Qed.

Lemma Get_ext f now (c c' : cache.Client) k :
  c' !! k = c !! k → cache.Get f now c' k = cache.Get f now c k.
Proof. intros H. unfold cache.Get. by rewrite (peek_ext now c c' _ H). Qed.

Lemma Get_Set now t c k v e :
  0 < e →
  cache.Set_ false now c k v e
    = (Ret tt, <[k := cache.mkEntry (cache.VStr v) (Some (now + e))]> c) ∧
  cache.Get false t (<[k := cache.mkEntry (cache.VStr v) (Some (now + e))]> c) k
    = if t <? now + e then Ret v else Failed.
Proof.
  intros He. split.
  - unfold cache.Set_, cache.deadline.
    destruct (Z.ltb_spec e 0); [lia|]. by destruct (Z.eqb_spec e 0); [lia|].
  - unfold cache.Get. rewrite peek_insert_eq. unfold cache.live. simpl.
    by destruct (t <? now + e).
Qed.

Lemma SMembers_plain now t c k m :
  plain_set c k →
  ∃ s, cache.SMembers false t (cache.SAdd false now c k m).2 k = Ret s ∧ m ∈ s.
Proof.
  unfold plain_set, cache.SMembers, cache.SAdd, cache.peek.
  destruct (c !! k) as [[v exp]|] eqn:Hk.
  - intros [Hexp [s Hv]]. simpl in *. subst. unfold cache.live. simpl.
    rewrite lookup_insert_eq. simpl. eexists. split; [done|].
    apply elem_of_union. left. by apply elem_of_singleton.
  - intros _. simpl. rewrite lookup_insert_eq. simpl. eexists. split; [done|].
    by apply elem_of_singleton.
Qed.

Section sessions.

Variable Marshal : gmap string redis.Field → io string.
Variable Unmarshal : string → io (gmap string redis.Field).

Lemma GetSession_ext flt t userID (c c' : cache.Client) :
  c' !! redis.sessionKey userID = c !! redis.sessionKey userID →
  GetSession Unmarshal flt t userID c' = GetSession Unmarshal flt t userID c.
Proof.
  intros H. unfold GetSession, redis.GetSession.
  by rewrite (Get_ext _ _ c c' _ H).
Qed.

Lemma CreateSession_inv s flt now userID ipAddress userAgent c blob :
  0 < timeout s → flt SessionSet = false →
  Marshal (sessionData now userID ipAddress userAgent) = Ret blob →
  CreateSession Marshal s flt now userID ipAddress userAgent c =
    (Success tt,
     (redis.AddOnlineUser (flt OnlineAdd) now
        (<[redis.sessionKey userID :=
             cache.mkEntry (cache.VStr blob) (Some (now + timeout s))]> c) userID).2).
Proof.
  intros Ht Hf Hm. unfold CreateSession, redis.SetSession.
  rewrite Hm, Hf. by rewrite (proj1 (Get_Set now 0 c _ blob _ Ht)).
Qed.

Lemma GetSession_created f now t c userID blob e :
  GetSession Unmarshal no_session_faults t userID
    (redis.AddOnlineUser f now
       (<[redis.sessionKey userID := cache.mkEntry (cache.VStr blob) (Some (now + e))]> c)
       userID).2
  = if t <? now + e then Unmarshal blob else Failed.
Proof.
  unfold GetSession, redis.GetSession, no_session_faults.
  rewrite (Get_ext _ _
             (<[redis.sessionKey userID :=
                  cache.mkEntry (cache.VStr blob) (Some (now + e))]> c)).
  2:{ unfold redis.AddOnlineUser. apply SAdd_other, sessionKey_onlineKey. }
  unfold cache.Get. rewrite peek_insert_eq. unfold cache.live. simpl.
  by destruct (t <? now + e).
Qed.

(** X16 (SessionService.CreateSession, GetSession; SessionRepository).
    When the session can be encoded and stored, CreateSession succeeds
    whether or not the user could be added to the online set; from then
    on the session reads as the decoding of what was stored until the
    timeout has run out from the creation on, and cannot be read from
    that instant on; the sessions of the other users read as before. *)
Theorem session_readable_until_timeout s flt now userID ipAddress userAgent c blob t :
  0 < timeout s → flt SessionSet = false →
  Marshal (sessionData now userID ipAddress userAgent) = Ret blob →
  let rc := CreateSession Marshal s flt now userID ipAddress userAgent c in
  rc.1 = Success tt ∧
  GetSession Unmarshal no_session_faults t userID rc.2
    = (if t <? now + timeout s then Unmarshal blob else Failed) ∧
  (∀ other, other ≠ userID →
     GetSession Unmarshal no_session_faults t other rc.2
     = GetSession Unmarshal no_session_faults t other c).
Proof.
  intros Ht Hf Hm. cbv zeta.
  rewrite (CreateSession_inv _ _ _ _ _ _ _ blob) by done. cbn [fst snd].
  split; [done|]. split; [apply GetSession_created|].
  intros other Hne. apply GetSession_ext. unfold redis.AddOnlineUser.
  rewrite SAdd_other by apply sessionKey_onlineKey.
  apply lookup_insert_ne. by intros ?%sessionKey_inj.
Qed.

(** X17 (SessionService.CreateSession, CheckSessionTimeout,
    GetOnlineUsers; OnlineUserRepository.AddOnlineUser).  The session
    is stored with a time to live, the entry in the online set is not:
    once the timeout has run out from the creation on, the session
    cannot be read and is reported as timed out, and the user is still
    in the set of online users. *)
Theorem online_entry_outlives_session s flt now userID ipAddress userAgent c blob t :
  0 < timeout s → flt SessionSet = false → flt OnlineAdd = false →
  Marshal (sessionData now userID ipAddress userAgent) = Ret blob →
  plain_set c redis.onlineKey →
  now + timeout s ≤ t →
  let rc := CreateSession Marshal s flt now userID ipAddress userAgent c in
  GetSession Unmarshal no_session_faults t userID rc.2 = Failed ∧
  CheckSessionTimeout Unmarshal s no_session_faults t userID rc.2 = true ∧
  ∃ online, GetOnlineUsers false t rc.2 = Ret online ∧ pretty userID ∈ online.
Proof.
  intros Ht Hf Hf' Hm Hplain Hlate. cbv zeta.
  rewrite (CreateSession_inv _ _ _ _ _ _ _ blob) by done. cbn [fst snd].
  assert (Hg := GetSession_created (flt OnlineAdd) now t c userID blob (timeout s)).
  destruct (Z.ltb_spec t (now + timeout s)); [lia|].
  split; [done|]. split.
  { unfold CheckSessionTimeout. unfold GetSession in Hg. by rewrite Hg. }
  rewrite Hf'. unfold GetOnlineUsers, redis.GetOnlineUsers, redis.AddOnlineUser.
  apply SMembers_plain. unfold plain_set.
  rewrite lookup_insert_ne; [done|]. apply sessionKey_onlineKey.
Qed.

(** X18 (SessionService.CheckSessionTimeout).  After CreateSession, when
    what was stored decodes to a map whose last activity is the creation
    time in whole seconds, the session is reported as timed out exactly
    from the instant it expires in the cache, or, if that comes first,
    once more than the timeout has passed since the start of the second
    of its creation. *)
Theorem CheckSessionTimeout_after_create
    s flt now userID ipAddress userAgent c blob data t :
  0 < timeout s → flt SessionSet = false →
  Marshal (sessionData now userID ipAddress userAgent) = Ret blob →
  Unmarshal blob = Ret data →
  data !! "last_activity" = Some (redis.FNum (now / 1000)) →
  let rc := CreateSession Marshal s flt now userID ipAddress userAgent c in
  CheckSessionTimeout Unmarshal s no_session_faults t userID rc.2
  = bool_decide (now + timeout s ≤ t ∨ now / 1000 * 1000 + timeout s < t).
Proof.
  intros Ht Hf Hm Hu Hl. cbv zeta.
  rewrite (CreateSession_inv _ _ _ _ _ _ _ blob) by done. cbn [fst snd].
  assert (Hg := GetSession_created (flt OnlineAdd) now t c userID blob (timeout s)).
  unfold CheckSessionTimeout. unfold GetSession in Hg. rewrite Hg.
  destruct (Z.ltb_spec t (now + timeout s)).
  - rewrite Hu, Hl.
    destruct (Z.ltb_spec (now / 1000 * 1000 + timeout s) t).
    + symmetry. apply bool_decide_eq_true_2. by right.
    + symmetry. apply bool_decide_eq_false_2. lia.
  - symmetry. apply bool_decide_eq_true_2. by left.
Qed.

(** X19 (SessionService.UpdateSessionActivity).  A heartbeat for a user
    whose session can be read stores the session again with the last
    activity set to the time of the heartbeat and the time to live
    started afresh, and leaves the online set alone; a heartbeat for a
    user whose session cannot be read, for whatever reason, is a
    CreateSession with an empty address and an empty agent. *)
Theorem heartbeat_refreshes_or_recreates s flt now userID c :
  0 < timeout s → flt SessionGet = false → flt SessionSet = false →
  (∀ data blob t,
     redis.GetSession Unmarshal false now c userID = Ret data →
     Marshal (<["last_activity" := redis.FNum (now / 1000)]> data) = Ret blob →
     let rc := UpdateSessionActivity Marshal Unmarshal s flt now userID c in
     rc.1 = Success tt ∧
     GetSession Unmarshal no_session_faults t userID rc.2
       = (if t <? now + timeout s then Unmarshal blob else Failed) ∧
     rc.2 !! redis.onlineKey = c !! redis.onlineKey) ∧
  (redis.GetSession Unmarshal false now c userID = Failed →
   UpdateSessionActivity Marshal Unmarshal s flt now userID c
   = CreateSession Marshal s flt now userID "" "" c).
Proof.
  intros Ht Hf1 Hf2. split.
  - intros data blob t Hg Hm. unfold UpdateSessionActivity, redis.SetSession.
    rewrite Hf1, Hg, Hm, Hf2.
    rewrite (proj1 (Get_Set now 0 c _ blob _ Ht)). cbn [fst snd].
    split; [done|]. split.
    + unfold GetSession, redis.GetSession, no_session_faults.
      rewrite (proj2 (Get_Set now t c _ blob _ Ht)).
      by destruct (t <? now + timeout s).
    + apply lookup_insert_ne, sessionKey_onlineKey.
  - intros Hg. unfold UpdateSessionActivity. by rewrite Hf1, Hg.
Qed.

(** X20 (SessionService.DeleteSession).  DeleteSession always reports
    success.  When the delete of the session goes through the session
    cannot be read any more, when it fails the session reads as before;
    when the removal from the online set goes through, over a set that
    can be read, the user is out of it and nobody else is; the sessions
    of the other users are untouched in every case. *)
Theorem DeleteSession_effects flt now userID c online t :
  GetOnlineUsers false now c = Ret online →
  let rc := DeleteSession flt now userID c in
  rc.1 = Success tt ∧
  GetSession Unmarshal no_session_faults t userID rc.2
    = (if flt SessionDelete then GetSession Unmarshal no_session_faults t userID c
       else Failed) ∧
  (flt OnlineRemove = false →
   GetOnlineUsers false now rc.2 = Ret (online ∖ {[pretty userID]})) ∧
  (∀ other, other ≠ userID →
     GetSession Unmarshal no_session_faults t other rc.2
     = GetSession Unmarshal no_session_faults t other c).
Proof.
  intros Ho. cbv zeta. unfold DeleteSession. cbn [fst snd].
  set (c1 := (redis.DeleteSession (flt SessionDelete) c userID).2).
  assert (Hc1 : c1 !! redis.onlineKey = c !! redis.onlineKey).
  { unfold c1, redis.DeleteSession. apply Del_other.
    rewrite not_elem_of_cons. split; [|apply not_elem_of_nil].
    intros H. symmetry in H. by apply sessionKey_onlineKey in H. }
  split; [done|]. split; [|split].
  - unfold GetSession, redis.GetSession, no_session_faults.
    rewrite (Get_ext _ _ c1)
      by (unfold redis.RemoveOnlineUser; apply SRem_other, sessionKey_onlineKey).
    unfold c1, redis.DeleteSession, cache.Del.
    destruct (flt SessionDelete); [done|]. simpl.
    unfold cache.Get. by rewrite peek_delete_eq.
  - intros ->. unfold GetOnlineUsers, redis.GetOnlineUsers, redis.RemoveOnlineUser in *.
    apply SMembers_SRem. rewrite <- Ho. unfold cache.SMembers.
    by rewrite (peek_ext now c c1 _ Hc1).
  - intros other Hne. apply GetSession_ext. unfold redis.RemoveOnlineUser.
    rewrite SRem_other by apply sessionKey_onlineKey.
    unfold c1, redis.DeleteSession. apply Del_other.
    rewrite not_elem_of_cons. split; [|apply not_elem_of_nil].
    by intros ?%sessionKey_inj.
Qed.

End sessions.

(** The session of user 7, created at 5000 with a timeout of 60000. *)
Lemma session_readable_until_timeout_witness :
  GetSession sample_codec.Unmarshal no_session_faults 64999 7 sample_codec.created
    = Ret sample_codec.session ∧
  GetSession sample_codec.Unmarshal no_session_faults 65000 7 sample_codec.created
    = Failed.
Proof.
  unfold sample_codec.created. split.
  - by rewrite (proj1 (proj2 (session_readable_until_timeout
        sample_codec.Marshal sample_codec.Unmarshal sample_codec.service
        no_session_faults 5000 7 "10.0.0.1" "agent" ∅ "session at 5" 64999
        eq_refl eq_refl eq_refl))).
  - by rewrite (proj1 (proj2 (session_readable_until_timeout
        sample_codec.Marshal sample_codec.Unmarshal sample_codec.service
        no_session_faults 5000 7 "10.0.0.1" "agent" ∅ "session at 5" 65000
        eq_refl eq_refl eq_refl))).
Defined.

(** User 7 an hour after the session was created. *)
Lemma online_entry_outlives_session_witness :
  GetSession sample_codec.Unmarshal no_session_faults 3605000 7 sample_codec.created
    = Failed ∧
  ∃ online, GetOnlineUsers false 3605000 sample_codec.created = Ret online ∧
            "7" ∈ online.
Proof.
  unfold sample_codec.created.
  destruct (online_entry_outlives_session
              sample_codec.Marshal sample_codec.Unmarshal sample_codec.service
              no_session_faults 5000 7 "10.0.0.1" "agent" ∅ "session at 5" 3605000)
    as (H1 & _ & H2); [done|done|done|done|done|simpl; lia|].
  split; [exact H1|exact H2].
Defined.

(** A session created at 5500: at 65200 it can still be read and is
    reported as timed out. *)
Lemma CheckSessionTimeout_after_create_witness :
  let c := (CreateSession sample_codec.Marshal sample_codec.service
              no_session_faults 5500 7 "10.0.0.1" "agent" ∅).2 in
  CheckSessionTimeout sample_codec.Unmarshal sample_codec.service
    no_session_faults 65200 7 c = true ∧
  GetSession sample_codec.Unmarshal no_session_faults 65200 7 c
    = Ret sample_codec.session.
Proof.
  split.
  - by rewrite (CheckSessionTimeout_after_create
        sample_codec.Marshal sample_codec.Unmarshal sample_codec.service
        no_session_faults 5500 7 "10.0.0.1" "agent" ∅ "session at 5"
        sample_codec.session 65200 eq_refl eq_refl eq_refl eq_refl eq_refl).
  - by vm_compute.
Defined.

(** A heartbeat at 9000 for the session of user 7. *)
Lemma heartbeat_refreshes_or_recreates_witness :
  GetSession sample_codec.Unmarshal no_session_faults 68999 7
    (UpdateSessionActivity sample_codec.Marshal sample_codec.Unmarshal
       sample_codec.service no_session_faults 9000 7 sample_codec.created).2
  = Ret sample_codec.refreshed.
Proof.
  destruct (heartbeat_refreshes_or_recreates
              sample_codec.Marshal sample_codec.Unmarshal sample_codec.service
              no_session_faults 9000 7 sample_codec.created)
    as [H _]; [done|done|done|].
  destruct (H sample_codec.session "session at 9" 68999) as (_ & -> & _);
    [by vm_compute|by vm_compute|done].
Defined.

(** Deleting the session of user 7. *)
Lemma DeleteSession_effects_witness :
  GetSession sample_codec.Unmarshal no_session_faults 6000 7
    (DeleteSession no_session_faults 6000 7 sample_codec.created).2 = Failed ∧
  GetOnlineUsers false 6000
    (DeleteSession no_session_faults 6000 7 sample_codec.created).2 = Ret ∅.
Proof.
  destruct (DeleteSession_effects sample_codec.Unmarshal no_session_faults 6000 7
              sample_codec.created {["7"]} 6000) as (_ & H1 & H2 & _);
    [by vm_compute|].
  split; [exact H1|]. rewrite H2 by done. by f_equal.
Defined.

(** ** The hub: teardown, reconnection and the write pump *)

Section hub_lifecycle.
Import websocket.

Lemma SendToUser_ok userID data h :
  hub_ok h → ∃ h', SendToUser userID data h = Ok h'.
Proof.
  intros [Hreg _]. unfold SendToUser.
  destruct (clients h !! userID) as [client|] eqn:Hu; [|by eexists].
  destruct data as [data|]; [|by eexists].
  destruct (Hreg userID client Hu) as [_ (ch & Hch & Hopen)].
  unfold try_send, close. rewrite Hch, Hopen.
  destruct (_ <? _)%nat; by eexists.
Qed.

(** X21 (Hub.Run without the unregister case, Hub.SendToUser,
    HandleWebSocket).  On a registry in order, no sequence of new
    connections, broadcasts and targeted sends makes the hub panic, and
    the registry stays in order: no send ever reaches a closed queue and
    no queue is closed twice. *)
Theorem hub_serves_traffic_without_panic ts h :
  hub_ok h → ∃ h', serve ts h = Ok h' ∧ hub_ok h'.
Proof.
  revert h. induction ts as [|t ts IH]; intros h Hok; [by exists h|].
  assert (∃ h1, serve_step t h = Ok h1 ∧ hub_ok h1) as (h1 & Hstep & Hok1).
  { destruct t as [u n|m|u d]; simpl.
    - by apply hub_ok_HandleWebSocket.
    - by apply hub_ok_broadcast.
    - destruct (SendToUser_ok u d h Hok) as [h1 H1]. exists h1. split; [done|].
      by apply (hub_ok_SendToUser u d h). }
  simpl. rewrite Hstep. by apply IH.
Qed.

(** Two connections, a broadcast and a send on a new hub. *)
Lemma hub_serves_traffic_without_panic_witness :
  ∃ h', serve [Connect 7 "ann"; Connect 8 "bob"; Cast "hello";
               Direct 7 (Ret "you")] NewHub = Ok h' ∧ hub_ok h'.
Proof. apply hub_serves_traffic_without_panic, hub_ok_NewHub. Defined.

(** X22 (Hub.Run, the unregister case).  Unregistering the registered
    connection of a user, on a registry in order, removes the entry,
    closes the connection's queue with what it holds, touches no other
    entry and no other queue, and keeps the registry in order; a second
    unregister of the same connection then changes nothing, so the queue
    is not closed twice. *)
Theorem unregister_closes_once h c :
  hub_ok h → clients h !! UserID c = Some c →
  ∃ ch h',
    chans h !! Send c = Some ch ∧
    unregister c h = Ok h' ∧ hub_ok h' ∧
    clients h' = delete (UserID c) (clients h) ∧
    chans h' = <[Send c := mkChan (buf ch) true]> (chans h) ∧
    unregister c h' = Ok h' ∧
    Run [Unregister c; Unregister c] h = Ok h'.
Proof.
  intros [Hreg Hinj] Hc.
  destruct (Hreg _ _ Hc) as [_ (ch & Hch & Hopen)].
  exists ch. eexists. split; [done|].
  assert (Hun : unregister c h =
            Ok (mkHub (delete (UserID c) (clients h))
                  (<[Send c := mkChan (buf ch) true]> (chans h)))).
  { unfold unregister, close. by rewrite Hc, Hch, Hopen. }
  assert (Hagain : unregister c
            (mkHub (delete (UserID c) (clients h))
               (<[Send c := mkChan (buf ch) true]> (chans h))) =
            Ok (mkHub (delete (UserID c) (clients h))
                  (<[Send c := mkChan (buf ch) true]> (chans h)))).
  { unfold unregister. simpl. by rewrite lookup_delete_eq. }
  split; [exact Hun|]. split; [|split; [done|split; [done|split; [done|]]]].
  - split; simpl.
    + intros u c' [Hne Hc']%lookup_delete_Some.
      destruct (Hreg u c' Hc') as [? (ch' & Hch' & ?)]. split; [done|].
      exists ch'. split; [|done]. rewrite lookup_insert_ne; [done|].
      intros Heq. apply Hne. by eapply Hinj.
    + intros u1 u2 c1 c2 [_ H1]%lookup_delete_Some [_ H2]%lookup_delete_Some.
      by eapply Hinj.
  - simpl. rewrite Hun. simpl. by rewrite Hagain.
Qed.

(** User 7, registered with one message waiting, torn down twice. *)
Lemma unregister_closes_once_witness :
  let c := mkClient 7 "ann" 0 in
  let h := mkHub {[7%N := c]} {[0%N := mkChan ["m"] false]} in
  ∃ h', Run [Unregister c; Unregister c] h = Ok h' ∧
        clients h' !! 7%N = None ∧
        chans h' !! 0%N = Some (mkChan ["m"] true).
Proof.
  intros c h.
  destruct (unregister_closes_once h c)
    as (ch & h' & Hch & _ & _ & Hcl & Hchs & _ & Hrun).
  - split; unfold h; cbn [clients chans].
    + intros u c' [<- <-]%lookup_singleton_Some. split; [done|]. by eexists.
    + by intros u1 u2 c1 c2 [<- _]%lookup_singleton_Some [<- _]%lookup_singleton_Some _.
  - reflexivity.
  - exists h'. split; [done|]. rewrite Hcl, Hchs.
    split; [apply lookup_delete_eq|].
    vm_compute in Hch. injection Hch as <-. apply lookup_insert_eq.
Defined.

(** X23 (HandleWebSocket, Hub.Run: register and unregister).  When a user
    connects a second time while the first connection is still
    registered, the second connection takes the entry; the teardown of
    the first connection then finds an entry under the user, removes it
    and closes the first queue: the second connection is live with its
    queue open and is no longer registered, so a send to the user is
    dropped. *)
Theorem reconnect_then_old_teardown_unregisters_new u n1 n2 h data :
  ∃ c1 h1 c2 h2 h3,
    HandleWebSocket u n1 h = (c1, Ok h1) ∧
    HandleWebSocket u n2 h1 = (c2, Ok h2) ∧
    Send c1 ≠ Send c2 ∧
    clients h2 !! u = Some c2 ∧
    unregister c1 h2 = Ok h3 ∧
    clients h3 !! u = None ∧
    chans h3 !! Send c1 = Some (mkChan [] true) ∧
    chans h3 !! Send c2 = Some (mkChan [] false) ∧
    SendToUser u data h3 = Ok h3.
Proof.
  set (a1 := fresh (dom (chans h))).
  set (chans1 := <[a1 := mkChan [] false]> (chans h)).
  set (a2 := fresh (dom chans1)).
  assert (Hne : a1 ≠ a2).
  { intros Heq. assert (Hin : a1 ∈ dom chans1).
    { unfold chans1. rewrite dom_insert. apply elem_of_union. left.
      by apply elem_of_singleton. }
    rewrite Heq in Hin. by apply is_fresh in Hin. }
  exists (mkClient u n1 a1), (mkHub (<[u := mkClient u n1 a1]> (clients h)) chans1).
  exists (mkClient u n2 a2).
  exists (mkHub (<[u := mkClient u n2 a2]> (<[u := mkClient u n1 a1]> (clients h)))
            (<[a2 := mkChan [] false]> chans1)).
  exists (mkHub (delete u (<[u := mkClient u n2 a2]>
                             (<[u := mkClient u n1 a1]> (clients h))))
            (<[a1 := mkChan [] true]> (<[a2 := mkChan [] false]> chans1))).
  split; [done|]. split; [done|]. split; [done|].
  split; [simpl; by rewrite lookup_insert_eq|].
  split.
  { unfold unregister, close. simpl. rewrite lookup_insert_eq.
    rewrite lookup_insert_ne by done. unfold chans1.
    by rewrite lookup_insert_eq. }
  split; [simpl; by rewrite lookup_delete_eq|].
  split; [simpl; by rewrite lookup_insert_eq|].
  split.
  { simpl. rewrite lookup_insert_ne by done. by rewrite lookup_insert_eq. }
  unfold SendToUser. simpl. by rewrite lookup_delete_eq.
Qed.

(** X24 (Hub.SendToUser, Hub.Run: register and unregister).  A
    connection evicted by a targeted send to its full queue can be torn
    down safely, its entry being gone; but once the same user has
    connected again, the teardown of the evicted connection finds the
    new entry and closes the evicted queue a second time, which
    panics. *)
Theorem teardown_after_eviction_and_reconnect_panics h u c ch data n :
  clients h !! u = Some c → UserID c = u →
  chans h !! Send c = Some ch → closed ch = false →
  (capacity ≤ length (buf ch))%nat →
  ∃ h1 c2 h2,
    SendToUser u (Ret data) h = Ok h1 ∧
    unregister c h1 = Ok h1 ∧
    HandleWebSocket u n h1 = (c2, Ok h2) ∧
    unregister c h2 = Panic ∧
    Run [Unregister c] h2 = Panic.
Proof.
  intros Hc Hid Hch Hopen Hfull.
  set (chans1 := <[Send c := mkChan (buf ch) true]> (chans h)).
  set (a := fresh (dom chans1)).
  assert (Hne : a ≠ Send c).
  { intros Heq. assert (Hin : Send c ∈ dom chans1).
    { unfold chans1. rewrite dom_insert. apply elem_of_union. left.
      by apply elem_of_singleton. }
    rewrite <- Heq in Hin. by apply is_fresh in Hin. }
  exists (mkHub (delete u (clients h)) chans1), (mkClient u n a).
  exists (mkHub (<[u := mkClient u n a]> (delete u (clients h)))
            (<[a := mkChan [] false]> chans1)).
  assert (Hpanic : unregister c
            (mkHub (<[u := mkClient u n a]> (delete u (clients h)))
               (<[a := mkChan [] false]> chans1)) = Panic).
  { unfold unregister, close. simpl. rewrite Hid, lookup_insert_eq.
    rewrite lookup_insert_ne by done. unfold chans1.
    by rewrite lookup_insert_eq. }
  split.
  { unfold SendToUser, try_send, close. rewrite Hc, Hch, Hopen.
    destruct (Nat.ltb_spec (length (buf ch)) capacity); [lia|done]. }
  split; [unfold unregister; simpl; by rewrite Hid, lookup_delete_eq|].
  split; [done|]. split; [done|]. simpl. by rewrite Hpanic.
Qed.

(** User 7 with a full queue, evicted, connected again, the old
    connection torn down. *)
Lemma teardown_after_eviction_and_reconnect_panics_witness :
  let c := mkClient 7 "ann" 0 in
  let h := mkHub {[7%N := c]} {[0%N := mkChan (replicate 256 "m") false]} in
  ∃ h1 c2 h2,
    SendToUser 7 (Ret "hello") h = Ok h1 ∧
    HandleWebSocket 7 "ann" h1 = (c2, Ok h2) ∧
    Run [Unregister c] h2 = Panic.
Proof.
  intros c h.
  destruct (teardown_after_eviction_and_reconnect_panics h 7 c
              (mkChan (replicate 256 "m") false) "hello" "ann")
    as (h1 & c2 & h2 & H1 & _ & H2 & _ & H3);
    [reflexivity|reflexivity|reflexivity|reflexivity|vm_compute; lia|].
  by exists h1, c2, h2.
Defined.

Lemma drain_none queue : drain None queue = (TextMessage <$> queue, [], false).
Proof.
  induction queue as [|m queue IH]; [done|]. simpl.
  change (pred <$> None) with (@None nat). by rewrite IH.
Qed.

Lemma drain_failing i queue :
  (i < length queue)%nat →
  drain (Some i) queue = (TextMessage <$> take i queue, drop (S i) queue, true).
Proof.
  revert i. induction queue as [|m queue IH]; intros i Hi; [simpl in Hi; lia|].
  destruct i as [|i]; [done|]. simpl in *.
  change (pred <$> Some (S i)) with (Some i). rewrite IH by lia. done.
Qed.

(** X25 (Client.WritePump).  The write pump writes what its queue holds
    as text frames, oldest first; on an open queue it then waits, on a
    closed queue it then writes one close frame and returns; when a write
    fails it returns at once, the messages before it written, the message
    of the failed write lost and the later ones left in the queue. *)
Theorem WritePump_writes_queue_in_order ch :
  WritePump None ch
  = ((TextMessage <$> buf ch) ++ (if closed ch then [CloseMessage] else []),
     mkChan [] (closed ch),
     if closed ch then Returned else Blocked) ∧
  ∀ i, (i < length (buf ch))%nat →
    WritePump (Some i) ch
    = (TextMessage <$> take i (buf ch),
       mkChan (drop (S i) (buf ch)) (closed ch), Returned).
Proof.
  split.
  - unfold WritePump. rewrite drain_none.
    destruct (closed ch); [done|]. by rewrite app_nil_r.
  - intros i Hi. unfold WritePump. by rewrite drain_failing.
Qed.

Lemma sends_queue u c ms : ∀ h ch,
  clients h !! u = Some c → chans h !! Send c = Some ch → closed ch = false →
  (length (buf ch) + length ms ≤ capacity)%nat →
  sends u ms h
  = Ok (mkHub (clients h) (<[Send c := mkChan (buf ch ++ ms) false]> (chans h))).
Proof.
  induction ms as [|m ms IH]; intros h ch Hc Hch Hopen Hlen.
  - simpl. rewrite app_nil_r. destruct h as [cl chs], ch as [b cd].
    simpl in *. subst cd. by rewrite insert_id.
  - simpl in *. unfold SendToUser, try_send. rewrite Hc, Hch, Hopen.
    destruct (Nat.ltb_spec (length (buf ch)) capacity); [|lia].
    rewrite (IH _ (mkChan (buf ch ++ [m]) false)); simpl.
    + by rewrite insert_insert_eq, <- app_assoc.
    + done.
    + by rewrite lookup_insert_eq.
    + done.
    + rewrite length_app. simpl. lia.
Qed.

(** X26 (Hub.SendToUser, Client.WritePump).  Messages sent to a
    registered user whose open queue has room for them all are queued
    behind those waiting, nobody is evicted and no other queue changes,
    and the user's write pump then writes them all, the waiting ones
    first, each once and in the order sent. *)
Theorem sent_messages_are_written_in_order h u c ch ms :
  clients h !! u = Some c → chans h !! Send c = Some ch → closed ch = false →
  (length (buf ch) + length ms ≤ capacity)%nat →
  sends u ms h
  = Ok (mkHub (clients h) (<[Send c := mkChan (buf ch ++ ms) false]> (chans h))) ∧
  WritePump None (mkChan (buf ch ++ ms) false)
  = (TextMessage <$> (buf ch ++ ms), mkChan [] false, Blocked).
Proof.
  intros Hc Hch Hopen Hlen. split; [by apply sends_queue|].
  unfold WritePump. simpl. by rewrite drain_none.
Qed.

(** Three messages for user 7, one already waiting. *)
Lemma sent_messages_are_written_in_order_witness :
  let c := mkClient 7 "ann" 0 in
  let h := mkHub {[7%N := c]} {[0%N := mkChan ["a"] false]} in
  sends 7 ["b"; "c"; "d"] h
  = Ok (mkHub {[7%N := c]} (<[0%N := mkChan ["a"; "b"; "c"; "d"] false]>
                              {[0%N := mkChan ["a"] false]})) ∧
  WritePump None (mkChan ["a"; "b"; "c"; "d"] false)
  = ([TextMessage "a"; TextMessage "b"; TextMessage "c"; TextMessage "d"],
     mkChan [] false, Blocked).
Proof.
  intros c h.
  apply (sent_messages_are_written_in_order h 7 c (mkChan ["a"] false)
           ["b"; "c"; "d"]); try reflexivity.
  vm_compute. lia.
Defined.

End hub_lifecycle.
